(** * The Aquarium builder of packer-plugin-aquarium: allocation, build and
      teardown workflow.

    A shallow embedding of the builder's step sequence
    ([builder/aquarium/*.go] and the earlier revisions of the same steps that
    the repository still carries) together with the properties that the
    specification states about it.

    Conventions of the embedding:
    - the remote fleet service, the clock and the two SDK steps (remote shell
      connection, provisioning hook) are the environment: every answer they
      give is an input of the step that asks for it;
    - every request a step sends through the API client is appended to the
      [calls] log of the world, every [ui.Say]/[ui.Error]/[ui.Message] line
      to its [ui] log;
    - a Go panic (a failed type assertion on a missing state key, a nil
      dereference) is the result [None];
    - a polling loop [for { select { case <-timeoutCtx.Done(): ...
      case <-ticker.C: ... } }] takes the list of ticks that the [select]
      statement hands to the loop before it takes the [Done] case: the
      deadline of [context.WithTimeout] always fires, so the end of the list
      is the [Done] case. *)

From Stdlib Require Import ZArith Lia Bool Ascii String.
From Stdlib Require Import Numbers.DecimalString DecimalPos DecimalZ.
From stdpp Require Import base option list strings gmap.

Local Open Scope string_scope.
Local Open Scope list_scope.
Local Open Scope Z_scope.

(** ** Go values and library functions the steps rely on *)

Module Go.

(** A pair [(value, error)] returned by a Go function. *)
Inductive result (A E : Type) : Type :=
| Ok (a : A)
| Err (e : E).
Arguments Ok {A E} a.
Arguments Err {A E} e.

(** The dynamically typed values ([any]) that a decoded configuration, a
    metadata map or a task result can hold.  Lists and nested maps are kept
    opaque: no step looks inside them. *)
Inductive any : Type :=
| any_string (s : string)
| any_bool (b : bool)
| any_number (n : Z)
| any_nil
| any_composite (id : nat).

(** [status == "success"] on an [any]: true only for a string with that
    content. *)
Definition any_eq_string (v : any) (s : string) : bool :=
  match v with
  | any_string t => bool_decide (t = s)
  | _ => false
  end.

(** Arguments of a format string, and Go [error] values.  A formatted error
    keeps its format string and arguments, as written in the source. *)
Inductive fmt_arg : Type :=
| arg_s (s : string)
| arg_d (n : Z)
| arg_any (v : any)
| arg_map (m : list (string * any))
| arg_err (e : error)
with error : Type :=
| remote_error (text : string)
| NumError (Func Num Err : string)
| Errorf (format : string) (args : list fmt_arg).

(** [strings.Split(s, sep)] for a one-byte separator: the fields between the
    occurrences of [sep]; never the empty list. *)
Fixpoint Split (s : string) (sep : ascii) : list string :=
  match s with
  | EmptyString => [EmptyString]
  | String c rest =>
      if bool_decide (c = sep) then EmptyString :: Split rest sep
      else match Split rest sep with
           | field :: fields => String c field :: fields
           | [] => [String c EmptyString]
           end
  end.

Definition maxUint64 : Z := 2 ^ 64 - 1.

Definition digit (c : ascii) : option Z :=
  let n := Z.of_N (N_of_ascii c) in
  if (48 <=? n) && (n <=? 57) then Some (n - 48) else None.

(** The digit loop of [strconv.ParseUint(s, 10, 64)]: a byte that is not a
    decimal digit is a syntax error, a value above [maxUint64] a range
    error, whichever the scan meets first. *)
Fixpoint ParseUint_loop (s : string) (n : Z) : result Z string :=
  match s with
  | EmptyString => Ok n
  | String c rest =>
      match digit c with
      | None => Err "invalid syntax"
      | Some d =>
          if maxUint64 <? n * 10 + d then Err "value out of range"
          else ParseUint_loop rest (n * 10 + d)
      end
  end.

(** [strconv.Atoi]: an optional sign, then one or more decimal digits, and
    the value has to fit a 64-bit [int]. *)
Definition Atoi (s : string) : result Z error :=
  let fail why := Err (NumError "Atoi" s why) in
  match s with
  | EmptyString => fail "invalid syntax"
  | String c rest =>
      let neg := bool_decide (c = "-"%char) in
      let signed := neg || bool_decide (c = "+"%char) in
      let digits := if signed then rest else s in
      match digits with
      | EmptyString => fail "invalid syntax"
      | _ =>
          match ParseUint_loop digits 0 with
          | Err why => fail why
          | Ok un =>
              if neg then
                if 2 ^ 63 <? un then fail "value out of range" else Ok (- un)
              else
                if 2 ^ 63 <=? un then fail "value out of range" else Ok un
          end
      end
  end.

(** [strconv.Itoa]. *)
Definition Itoa (n : Z) : string := NilZero.string_of_int (Z.to_int n).

End Go.
Export Go.

(** ** The data model of the fleet API ([api_client.go]) *)

(** A label definition; the steps only count the definitions of a label. *)
Record LabelDefinition := { Driver : string }.

Record Label := {
  Label_UID : string;
  Label_Name : string;
  Label_Version : Z;
  Label_Definitions : list LabelDefinition;
}.

Record Application := {
  Application_UID : string;
  Application_LabelUID : string;
  Application_Metadata : gmap string any;
}.

Record ApplicationResource := {
  Resource_UID : string;
  Resource_IPAddr : string;
}.

Record ApplicationResourceAccess := {
  Access_Address : string;
  Access_Username : string;
  Access_Password : string;
  Access_Key : string;
}.

Record ApplicationTask := {
  Task_UID : string;
  Task_ApplicationUID : string;
  Task_Task : string;
  Task_When : string;
  Task_Options : gmap string any;
  Task_Result : gmap string any;
}.

Record APIClient := {
  BaseURL : string;
  Client_Username : string;
  Client_Password : string;
}.

(** The requests that reach the fleet service, one constructor per client
    method. *)
Inductive Request : Type :=
| GetCurrentUser
| Subscribe
| GetLabels (name version : string)
| CreateApplication (app : Application)
| GetApplicationState (uid : string)
| GetApplicationResource (uid : string)
| GetApplicationResourceAccess (resourceUID : string)
| DeallocateApplication (uid : string)
| CreateApplicationTask (task : ApplicationTask)
| GetApplicationTask (taskUID : string).

(** ** Configuration ([builder.go]) *)

Record CommunicatorConfig := {
  Type_ : string;
  SSHHost : string;
  SSHPort : Z;
  SSHUsername : string;
  SSHPassword : string;
  SSHPrivateKey : string;
}.

Record Config := {
  Endpoint : string;
  Username : string;
  Password : string;
  InsecureSkipTLSVerify : bool;
  LabelName : string;
  LabelVersion : string;
  ConnectionTimeout : string;
  ConnectionRetries : Z;
  AllocationTimeout : string;
  ApplicationMetadata : option (gmap string any);
  Communicator : CommunicatorConfig;
}.

Definition with_Communicator (c : CommunicatorConfig) (cfg : Config) : Config :=
  {| Endpoint := Endpoint cfg; Username := Username cfg;
     Password := Password cfg;
     InsecureSkipTLSVerify := InsecureSkipTLSVerify cfg;
     LabelName := LabelName cfg; LabelVersion := LabelVersion cfg;
     ConnectionTimeout := ConnectionTimeout cfg;
     ConnectionRetries := ConnectionRetries cfg;
     AllocationTimeout := AllocationTimeout cfg;
     ApplicationMetadata := ApplicationMetadata cfg;
     Communicator := c |}.

Definition with_SSHUsername (u : string) (c : CommunicatorConfig) :=
  {| Type_ := Type_ c; SSHHost := SSHHost c; SSHPort := SSHPort c;
     SSHUsername := u; SSHPassword := SSHPassword c;
     SSHPrivateKey := SSHPrivateKey c |}.

Definition with_SSHPassword (p : string) (c : CommunicatorConfig) :=
  {| Type_ := Type_ c; SSHHost := SSHHost c; SSHPort := SSHPort c;
     SSHUsername := SSHUsername c; SSHPassword := p;
     SSHPrivateKey := SSHPrivateKey c |}.

Definition with_SSHPrivateKey (k : string) (c : CommunicatorConfig) :=
  {| Type_ := Type_ c; SSHHost := SSHHost c; SSHPort := SSHPort c;
     SSHUsername := SSHUsername c; SSHPassword := SSHPassword c;
     SSHPrivateKey := k |}.

Definition with_SSHPort (p : Z) (c : CommunicatorConfig) :=
  {| Type_ := Type_ c; SSHHost := SSHHost c; SSHPort := p;
     SSHUsername := SSHUsername c; SSHPassword := SSHPassword c;
     SSHPrivateKey := SSHPrivateKey c |}.

(** ** The state bag, the world and the step monad *)

(** What the steps store in the [multistep.StateBag], by dynamic type. *)
Inductive Value : Type :=
| VUi
| VHook
| VConfig
| VClient (c : APIClient)
| VStream
| VLabel (l : Label)
| VApplication (a : Application)
| VResource (r : ApplicationResource)
| VAccess (a : option ApplicationResourceAccess)
| VGenerated (m : gmap string any)
| VError (e : error)
| VString (s : string)
| VInt (n : Z)
| VTask (t : ApplicationTask)
| VResults (m : gmap string any).

Inductive UiLine : Type :=
| Say (format : string) (args : list fmt_arg)
| Error (format : string) (args : list fmt_arg)
| Message (format : string) (args : list fmt_arg).

(** The configuration is shared by pointer between the steps, so it is part
    of the world next to the state bag. *)
Record World := {
  config : Config;
  bag : gmap string Value;
  calls : list Request;
  ui : list UiLine;
}.

Inductive StepAction : Type := ActionContinue | ActionHalt.

(** A computation on the world that may panic. *)
Definition M (A : Type) : Type := World → option (A * World).

Global Instance M_ret : MRet M := λ A a w, Some (a, w).
Global Instance M_bind : MBind M := λ A B k m w,
  match m w with
  | Some (a, w') => k a w'
  | None => None
  end.

Definition panic {A} : M A := λ _, None.

(** The four ways a step changes the world. *)
Definition put (key : string) (v : Value) (w : World) : World :=
  {| config := config w; bag := <[key := v]> (bag w);
     calls := calls w; ui := ui w |}.
Definition sent (r : Request) (w : World) : World :=
  {| config := config w; bag := bag w; calls := calls w ++ [r]; ui := ui w |}.
Definition printed (l : UiLine) (w : World) : World :=
  {| config := config w; bag := bag w; calls := calls w; ui := ui w ++ [l] |}.
Definition reconfigured (f : CommunicatorConfig → CommunicatorConfig)
    (w : World) : World :=
  {| config := with_Communicator (f (Communicator (config w))) (config w);
     bag := bag w; calls := calls w; ui := ui w |}.

Definition Get (key : string) : M (option Value) := λ w, Some (bag w !! key, w).
Definition GetOk (key : string) : M (option Value) := Get key.
Definition Put (key : string) (v : Value) : M unit := λ w, Some (tt, put key v w).
Definition request (r : Request) : M unit := λ w, Some (tt, sent r w).
Definition print (l : UiLine) : M unit := λ w, Some (tt, printed l w).
Definition read_config : M Config := λ w, Some (config w, w).
Definition update_Communicator (f : CommunicatorConfig → CommunicatorConfig)
  : M unit := λ w, Some (tt, reconfigured f w).

(** One pass through the body of a [for { select { ... } }] loop ends in
    [continue], with the loop variables it leaves, or in [return]. *)
Inductive Iteration (L A : Type) : Type :=
| Continue (vars : L)
| Return (a : A).
Arguments Continue {L A} vars.
Arguments Return {L A} a.

(** The loop itself: [on_deadline] is the [Done] case, [on_tick] the ticker
    case. *)
Fixpoint poll {T L A} (on_deadline : M A) (on_tick : T → L → M (Iteration L A))
    (ticks : list T) (vars : L) : M A :=
  match ticks with
  | [] => on_deadline
  | tick :: later =>
      iteration ← on_tick tick vars;
      match iteration with
      | Continue vars' => poll on_deadline on_tick later vars'
      | Return a => mret a
      end
  end.

(** The type assertions [state.Get(key).(T)]; a missing key or another
    dynamic type panics. *)
Definition as_Ui (v : option Value) : M unit :=
  match v with Some VUi => mret tt | _ => panic end.
Definition as_APIClient (v : option Value) : M APIClient :=
  match v with Some (VClient c) => mret c | _ => panic end.
Definition as_Label (v : option Value) : M Label :=
  match v with Some (VLabel l) => mret l | _ => panic end.
Definition as_Application (v : option Value) : M Application :=
  match v with Some (VApplication a) => mret a | _ => panic end.
Definition as_ApplicationResource (v : option Value) : M ApplicationResource :=
  match v with Some (VResource r) => mret r | _ => panic end.
Definition as_map (v : option Value) : M (gmap string any) :=
  match v with Some (VGenerated m) => mret m | _ => panic end.
Definition as_error (v : option Value) : M error :=
  match v with Some (VError e) => mret e | _ => panic end.

(** [generatedData := state.Get("generated_data").(map[string]any);
    generatedData[key] = value; state.Put("generated_data", generatedData)]
    for a list of assignments.  The map is the one the builder stored: the
    assignment updates it in place and [Put] stores the same map again. *)
Definition update_generated_data (kvs : list (string * any)) : M unit :=
  generatedData ← Get "generated_data" ≫= as_map;
  Put "generated_data"
    (VGenerated (foldl (λ m kv, <[kv.1 := kv.2]> m) generatedData kvs)).

(** [state.Put("error", err); return multistep.ActionHalt], in a step and
    in the body of its loop. *)
Definition halt_with (e : error) : M StepAction :=
  Put "error" (VError e);; mret ActionHalt.
Definition halt_loop {L} (e : error) : M (Iteration L StepAction) :=
  Put "error" (VError e);; mret (Return ActionHalt).

(** ** Find-Template step ([step_find_label.go]) *)

(** The loop that keeps the label of the highest version, starting from
    [maxVersion := -1] and no selection. *)
Fixpoint latest_label (labels : list Label) (maxVersion : Z)
    (selectedLabel : option Label) : option Label :=
  match labels with
  | [] => selectedLabel
  | label :: later =>
      if maxVersion <? Label_Version label
      then latest_label later (Label_Version label) (Some label)
      else latest_label later maxVersion selectedLabel
  end.

(** The loop that stops at the first label of the requested version. *)
Fixpoint label_of_version (labels : list Label) (requestedVersion : Z)
    : option Label :=
  match labels with
  | [] => None
  | label :: later =>
      if bool_decide (Label_Version label = requestedVersion) then Some label
      else label_of_version later requestedVersion
  end.

(** The end of [Run], from the check [selectedLabel == nil] on. *)
Definition store_selected_label (cfg : Config) (selectedLabel : option Label)
    : M StepAction :=
  match selectedLabel with
  | None =>
      print (Error "No suitable label found for '%s'" [arg_s (LabelName cfg)]);;
      halt_with (Errorf "no suitable label found" [])
  | Some label =>
      print (Say "Found label '%s' version %d (UID: %s)"
               [arg_s (Label_Name label); arg_d (Label_Version label);
                arg_s (Label_UID label)]);;
      if bool_decide (length (Label_Definitions label) = 0%nat) then
        print (Error "Selected label has no definitions" []);;
        halt_with (Errorf "label has no definitions" [])
      else
        print (Say "Label has %d definition(s) available"
                 [arg_d (Z.of_nat (length (Label_Definitions label)))]);;
        Put "selected_label" (VLabel label);;
        mret ActionContinue
  end.

(** [StepFindLabel.Run]; [answer] is what [client.GetLabels] returns. *)
Definition StepFindLabel_Run (answer : result (list Label) error)
    : M StepAction :=
  Get "ui" ≫= as_Ui;;
  Get "api_client" ≫= as_APIClient;;
  cfg ← read_config;
  print (Say "Looking for label '%s'..." [arg_s (LabelName cfg)]);;
  let version :=
    if bool_decide (LabelVersion cfg ≠ "") then LabelVersion cfg else "last" in
  (if bool_decide (LabelVersion cfg ≠ "")
   then print (Say "Searching for specific version: %s" [arg_s version])
   else print (Say "No version specified, will use the latest version" []));;
  request (GetLabels (LabelName cfg) version);;
  match answer with
  | Err err =>
      print (Error "Failed to retrieve labels: %v" [arg_err err]);;
      halt_with (Errorf "label retrieval failed: %v" [arg_err err])
  | Ok labels =>
      if bool_decide (length labels = 0%nat) then
        print (Error "No labels found with name '%s'" [arg_s (LabelName cfg)]);;
        halt_with (Errorf "label not found: %s" [arg_s (LabelName cfg)])
      else if bool_decide (LabelVersion cfg = "") then
        store_selected_label cfg (latest_label labels (-1) None)
      else
        match Atoi (LabelVersion cfg) with
        | Err err =>
            print (Error "Invalid version format '%s': %v"
                     [arg_s (LabelVersion cfg); arg_err err]);;
            halt_with (Errorf "invalid version format: %v" [arg_err err])
        | Ok requestedVersion =>
            match label_of_version labels requestedVersion with
            | None =>
                print (Error "Label '%s' version %d not found"
                         [arg_s (LabelName cfg); arg_d requestedVersion]);;
                halt_with (Errorf "label version not found" [])
            | Some label => store_selected_label cfg (Some label)
            end
        end
  end.

(** ** Cleanup step ([step_cleanup.go]) *)

(** An application state as the client decodes it; the status is a string
    in the REST revision of the client and an enumeration in the RPC one. *)
Record ApplicationState (S : Type) := {
  Status : S;
  Description : string;
}.
Arguments Status {S} _.
Arguments Description {S} _.

Definition StepCleanup_Run : M StepAction := mret ActionContinue.

(** The ticker case of the loop that waits for the deallocation. *)
Definition StepCleanup_tick (application : Application)
    (answer : result (ApplicationState string) error) (_ : unit)
    : M (Iteration unit unit) :=
  request (GetApplicationState (Application_UID application));;
  match answer with
  | Err err =>
      print (Say "Could not check application state: %v" [arg_err err]);;
      mret (Return tt)
  | Ok appState =>
      print (Say "Application status: %s" [arg_s (Status appState)]);;
      if bool_decide (Status appState = "DEALLOCATED")
         || bool_decide (Status appState = "RECALLED") then
        print (Say "Application successfully deallocated" []);;
        mret (Return tt)
      else if bool_decide (Status appState = "ERROR") then
        print (Say "Application in error state during deallocation: %s"
                 [arg_s (Description appState)]);;
        mret (Return tt)
      else mret (Continue tt)
  end.

(** The loop that waits for the deallocation; every exit only returns. *)
Definition StepCleanup_wait (application : Application)
    (ticks : list (result (ApplicationState string) error)) : M unit :=
  poll (print (Say "Deallocation timeout reached, but continuing..." []))
       (StepCleanup_tick application) ticks tt.

(** [StepCleanup.Cleanup]; [answer] is what [DeallocateApplication] returns
    and [ticks] what the later state requests return. *)
Definition StepCleanup_Cleanup (answer : result unit error)
    (ticks : list (result (ApplicationState string) error)) : M unit :=
  Get "ui" ≫= as_Ui;;
  client ← GetOk "api_client";
  match client with
  | None => print (Say "No API client found, skipping cleanup" [])
  | Some _ =>
      as_APIClient client;;
      app ← GetOk "application";
      match app with
      | None => print (Say "No application found, skipping cleanup" [])
      | Some _ =>
          application ← as_Application app;
          print (Say "Cleaning up AquariumFish resources..." []);;
          request (DeallocateApplication (Application_UID application));;
          match answer with
          | Err err =>
              print (Error "Failed to deallocate application: %v" [arg_err err])
          | Ok _ =>
              print (Say "Application %s deallocate request sent..."
                       [arg_s (Application_UID application)]);;
              print (Say "Waiting for deallocation to complete..." []);;
              StepCleanup_wait application ticks
          end
      end
  end.

(** ** Connect step ([step_connect_api.go]) *)

(** A parsed endpoint: its path, and how it prints with a given path. *)
Record URL := {
  URL_Path : string;
  URL_String : string → string;
}.

(** [strings.TrimSuffix(s, "/")]. *)
Fixpoint TrimSuffix_slash (s : string) : string :=
  match s with
  | EmptyString => EmptyString
  | String c EmptyString => if bool_decide (c = "/"%char) then EmptyString else s
  | String c rest => String c (TrimSuffix_slash rest)
  end.

Definition NewAPIClient (baseURL username password : string) : APIClient :=
  {| BaseURL := TrimSuffix_slash baseURL;
     Client_Username := username; Client_Password := password |}.

(** [StepConnectAPI.Run]; [endpointURL] is what [url.Parse] returns for the
    configured endpoint ([None]: a nil URL, whose use panics), [me] the
    answer to the identity probe and [stream] the answer to the
    subscription. *)
Definition StepConnectAPI_Run (endpointURL : option URL)
    (me stream : result unit error) : M StepAction :=
  Get "ui" ≫= as_Ui;;
  print (Say "Connecting to AquariumFish API..." []);;
  cfg ← read_config;
  match endpointURL with
  | None => panic
  | Some u =>
      let path := if bool_decide (URL_Path u = "") then "grpc" else URL_Path u in
      let client := NewAPIClient (URL_String u path) (Username cfg) (Password cfg) in
      request GetCurrentUser;;
      match me with
      | Err err =>
          print (Error "Failed to connect to AquariumFish API: %v" [arg_err err]);;
          halt_with (Errorf "API connection failed: %v" [arg_err err])
      | Ok _ =>
          print (Say "Successfully connected to AquariumFish API" []);;
          Put "api_client" (VClient client);;
          request Subscribe;;
          (match stream with
           | Ok _ => Put "subscribe_stream" VStream
           | Err _ => mret tt
           end);;
          mret ActionContinue
      end
  end.

(** ** Create-Allocation step ([StepCreateApplication.Run]) *)

(** The metadata of the request: the user's entries copied one by one into
    a fresh map, then the three entries of the builder. *)
Definition application_metadata (user : option (gmap string any))
    (now : string) : gmap string any :=
  let metadata :=
    match user with
    | Some m => map_fold (λ k v metadata, <[k := v]> metadata) ∅ m
    | None => ∅
    end in
  <["PACKER_BUILD_TIME" := any_string now]>
    (<["PACKER_BUILDER" := any_string "aquarium"]>
       (<["PACKER_BUILD" := any_string "true"]> metadata)).

(** [StepCreateApplication.Run]; [now] is [time.Now().Format(time.RFC3339)]
    and [answer] what [client.CreateApplication] returns.  Every value of
    [any] is one that [structpb.NewStruct] encodes, so the structure it
    builds is the metadata map itself. *)
Definition StepCreateApplication_Run (now : string)
    (answer : result Application error) : M StepAction :=
  Get "ui" ≫= as_Ui;;
  Get "api_client" ≫= as_APIClient;;
  selectedLabel ← Get "selected_label" ≫= as_Label;
  print (Say "Creating application..." []);;
  cfg ← read_config;
  let metadata := application_metadata (ApplicationMetadata cfg) now in
  let app := {| Application_UID := "";
                Application_LabelUID := Label_UID selectedLabel;
                Application_Metadata := metadata |} in
  request (CreateApplication app);;
  match answer with
  | Err err =>
      print (Error "Failed to create application: %v" [arg_err err]);;
      halt_with (Errorf "application creation failed: %v" [arg_err err])
  | Ok createdApp =>
      print (Say "Application created successfully (UID: %s)"
               [arg_s (Application_UID createdApp)]);;
      Put "application" (VApplication createdApp);;
      update_generated_data
        [("ApplicationUID", any_string (Application_UID createdApp))];;
      mret ActionContinue
  end.

(** ** Wait-For-Ready step ([step_wait_for_allocation.go]) *)

(** Modelled from the spec: the status enumeration of the RPC client.  Its
    declaration belongs to the bindings of the fleet service, which the
    repository imports.  The step names [NEW], [ELECTED], [ALLOCATED],
    [DEALLOCATE], [DEALLOCATED] and [ERROR]; the data model of the
    specification adds [RECALLED]; [UNSPECIFIED] is the zero value, and
    [Status_number n] stands for any other number on the wire. *)
Inductive ApplicationState_Status : Type :=
| UNSPECIFIED
| NEW
| ELECTED
| ALLOCATED
| DEALLOCATE
| DEALLOCATED
| ERROR
| RECALLED
| Status_number (n : Z).

Global Instance ApplicationState_Status_eq_dec : EqDecision ApplicationState_Status.
Proof. solve_decision. Defined.

(** The [String] method of the enumeration. *)
Definition Status_String (s : ApplicationState_Status) : string :=
  match s with
  | UNSPECIFIED => "UNSPECIFIED"
  | NEW => "NEW"
  | ELECTED => "ELECTED"
  | ALLOCATED => "ALLOCATED"
  | DEALLOCATE => "DEALLOCATE"
  | DEALLOCATED => "DEALLOCATED"
  | ERROR => "ERROR"
  | RECALLED => "RECALLED"
  | Status_number n => Itoa n
  end.

(** What one tick of the loop receives: the answer to the state request
    and, consulted only when the status is the allocated one, the answer to
    the resource request ([Ok None]: no resource yet).  [St] is what a state
    request returns without an error: a state in the REST client, a pointer
    to one that may be nil in the RPC client. *)
Record AllocationTick (St : Type) := {
  tick_state : result St error;
  tick_resource : result (option ApplicationResource) error;
}.
Arguments tick_state {St} _.
Arguments tick_resource {St} _.

(** The state message of the RPC client, a pointer that may be nil. *)
Abbreviation StateMessage := (option (ApplicationState ApplicationState_Status)).

(** Its getters: a nil message reads as the zero values. *)
Definition GetStatus (appState : StateMessage) : ApplicationState_Status :=
  from_option Status UNSPECIFIED appState.
Definition GetDescription (appState : StateMessage) : string :=
  from_option Description "" appState.

(** The [ALLOCATED] case, after the line that announces it. *)
Definition fetch_resource {S} (application : Application)
    (answer : result (option ApplicationResource) error) (lastStatus : S)
    : M (Iteration S StepAction) :=
  request (GetApplicationResource (Application_UID application));;
  match answer with
  | Err err =>
      print (Error "Failed to get application resource: %v" [arg_err err]);;
      halt_loop (Errorf "failed to get application resource: %v" [arg_err err])
  | Ok None =>
      print (Say "Application resource not ready yet, continuing to wait..." []);;
      mret (Continue lastStatus)
  | Ok (Some resource) =>
      print (Say "Application resource ready (UID: %s, IP: %s)"
               [arg_s (Resource_UID resource); arg_s (Resource_IPAddr resource)]);;
      Put "application_resource" (VResource resource);;
      update_generated_data [("ResourceUID", any_string (Resource_UID resource))];;
      mret (Return ActionContinue)
  end.

(** The [Done] case of the loop. *)
Definition allocation_timeout : M StepAction :=
  cfg ← read_config;
  print (Error "Allocation timeout reached (%s)" [arg_s (AllocationTimeout cfg)]);;
  halt_with (Errorf "allocation timeout" []).

(** The ticker case of the loop of [StepWaitForAllocation.Run].  The switch
    reads the field [appState.Status] itself, which panics on a nil
    message. *)
Definition StepWaitForAllocation_tick (application : Application)
    (tick : AllocationTick StateMessage)
    (lastStatus : ApplicationState_Status)
    : M (Iteration ApplicationState_Status StepAction) :=
  request (GetApplicationState (Application_UID application));;
  match tick_state tick with
  | Err err =>
      print (Error "Failed to get application state: %v" [arg_err err]);;
      halt_loop (Errorf "failed to get application state: %v" [arg_err err])
  | Ok appState =>
      let changed := bool_decide (GetStatus appState ≠ lastStatus) in
      (if changed then
         print (Say "Application status: %s - %s"
                  [arg_s (Status_String (GetStatus appState));
                   arg_s (GetDescription appState)])
       else mret tt);;
      let lastStatus := if changed then GetStatus appState else lastStatus in
      match appState with
      | None => panic
      | Some state =>
          match Status state with
          | ALLOCATED =>
              print (Say "Application has been allocated successfully!" []);;
              fetch_resource application (tick_resource tick) lastStatus
          | ERROR | DEALLOCATED | DEALLOCATE =>
              print (Error "Application failed with status: %s - %s"
                       [arg_s (Status_String (GetStatus appState));
                        arg_s (GetDescription appState)]);;
              halt_loop (Errorf "application failed: %s"
                           [arg_s (Status_String (Status state))])
          | NEW | ELECTED => mret (Continue lastStatus)
          | _ =>
              print (Say "Unknown application status: %s"
                       [arg_s (Status_String (GetStatus appState))]);;
              mret (Continue lastStatus)
          end
      end
  end.

Definition StepWaitForAllocation_loop (application : Application)
    (ticks : list (AllocationTick StateMessage))
    (lastStatus : ApplicationState_Status) : M StepAction :=
  poll allocation_timeout (StepWaitForAllocation_tick application)
       ticks lastStatus.

(** [StepWaitForAllocation.Run]. *)
Definition StepWaitForAllocation_Run
    (ticks : list (AllocationTick StateMessage)) : M StepAction :=
  Get "ui" ≫= as_Ui;;
  Get "api_client" ≫= as_APIClient;;
  application ← Get "application" ≫= as_Application;
  print (Say "Waiting for application to be allocated..." []);;
  StepWaitForAllocation_loop application ticks UNSPECIFIED.

(** ** Remote shell address ([ParseSSHAddress] in [api_client.go]) *)

Definition ParseSSHAddress (addr : string) : result (string * Z) error :=
  match Split addr ":"%char with
  | [host; port_text] =>
      match Atoi port_text with
      | Err _ => Err (Errorf "invalid port in SSH address: %s" [arg_s port_text])
      | Ok port => Ok (host, port)
      end
  | _ => Err (Errorf "invalid SSH address format: %s" [arg_s addr])
  end.

(** ** Setup-Remote-Access step ([step_setup_ssh.go]) *)

(** The getters of a possibly nil access message: a nil message reads as
    empty strings. *)
Definition GetAddress (access : option ApplicationResourceAccess) : string :=
  from_option Access_Address "" access.
Definition GetUsername (access : option ApplicationResourceAccess) : string :=
  from_option Access_Username "" access.
Definition GetPassword (access : option ApplicationResourceAccess) : string :=
  from_option Access_Password "" access.
Definition GetKey (access : option ApplicationResourceAccess) : string :=
  from_option Access_Key "" access.

(** Parsing the address, with the fall back to the communicator settings
    of the configuration. *)
Definition resolve_ssh_endpoint (address : string) : M (string * Z) :=
  endpoint ←
    match ParseSSHAddress address with
    | Ok (sshHost, sshPort) => mret (sshHost, sshPort)
    | Err err =>
        print (Say "Unable to parse SSH address in response %q: %v"
                 [arg_s address; arg_err err]);;
        cfg ← read_config;
        let sshHost := SSHHost (Communicator cfg) in
        let sshPort := SSHPort (Communicator cfg) in
        print (Say "Falling back to communicator defaults: %s:%d"
                 [arg_s sshHost; arg_d sshPort]);;
        mret (sshHost, sshPort)
    end;
  print (Say "SSH endpoint: %s:%d" [arg_s endpoint.1; arg_d endpoint.2]);;
  mret endpoint.

(** [StepSetupSSH.Run]; [answer] is what
    [client.GetApplicationResourceAccess] returns. *)
Definition StepSetupSSH_Run
    (answer : result (option ApplicationResourceAccess) error) : M StepAction :=
  Get "ui" ≫= as_Ui;;
  Get "api_client" ≫= as_APIClient;;
  resource ← Get "application_resource" ≫= as_ApplicationResource;
  print (Say "Setting up SSH connectivity..." []);;
  request (GetApplicationResourceAccess (Resource_UID resource));;
  match answer with
  | Err err =>
      print (Error "Failed to get SSH access credentials: %v" [arg_err err]);;
      halt_with (Errorf "failed to get SSH access: %v" [arg_err err])
  | Ok access =>
      print (Say "SSH access credentials retrieved successfully" []);;
      endpoint ← resolve_ssh_endpoint (GetAddress access);
      let sshHost := endpoint.1 in
      let sshPort := endpoint.2 in
      (if bool_decide (GetUsername access ≠ "") then
         update_Communicator (with_SSHUsername (GetUsername access));;
         print (Say "SSH username: %s" [arg_s (GetUsername access)])
       else mret tt);;
      (if bool_decide (GetPassword access ≠ "") then
         update_Communicator (with_SSHPassword (GetPassword access));;
         print (Say "SSH password provided: %s" [arg_s (GetPassword access)]);;
         print (Say "You can connect to the Resource by: ssh -p %d %s@%s"
                  [arg_d sshPort; arg_s (GetUsername access); arg_s sshHost])
       else mret tt);;
      (if bool_decide (GetKey access ≠ "") then
         update_Communicator (with_SSHPrivateKey (GetKey access));;
         print (Say "SSH private key provided" [])
       else mret tt);;
      update_Communicator (with_SSHPort sshPort);;
      Put "ssh_host" (VString sshHost);;
      Put "ssh_port" (VInt sshPort);;
      Put "ssh_username" (VString (GetUsername access));;
      Put "ssh_access" (VAccess access);;
      update_generated_data
        [("SSHHost", any_string sshHost); ("SSHPort", any_string (Itoa sshPort))];;
      print (Say "SSH connectivity setup completed successfully" []);;
      mret ActionContinue
  end.

(** ** Create-Output-Artifact step ([StepCreateImage.Run]) *)

Definition store_image_task (currentTask : ApplicationTask) : M StepAction :=
  Put "image_task" (VTask currentTask);;
  Put "image_results" (VResults (Task_Result currentTask));;
  mret ActionContinue.

(** The body of the check [len(result) > 0] for a task whose result is not
    empty. *)
Definition classify_image_result (currentTask : ApplicationTask) : M StepAction :=
  let result := Task_Result currentTask in
  print (Say "Image creation completed!" []);;
  let lenient :=
    print (Say "Image creation appears to have completed" []);;
    store_image_task currentTask in
  match result !! "status" with
  | Some status =>
      if any_eq_string status "success" || any_eq_string status "completed" then
        print (Say "Image created successfully" []);;
        (match result !! "image" with
         | Some imageInfo => print (Say "Image information: %v" [arg_any imageInfo])
         | None => mret tt
         end);;
        (match result !! "image_path" with
         | Some imagePath => print (Say "Image path: %s" [arg_any imagePath])
         | None => mret tt
         end);;
        store_image_task currentTask
      else if any_eq_string status "failed" || any_eq_string status "error" then
        print (Error "Image creation failed: %v" [arg_map (map_to_list result)]);;
        halt_with (Errorf "image creation failed" [])
      else lenient
  | None => lenient
  end.

(** The ticker case of the loop of [StepCreateImage.Run]. *)
Definition StepCreateImage_tick (createdTask : ApplicationTask)
    (answer : result ApplicationTask error) (_ : unit)
    : M (Iteration unit StepAction) :=
  request (GetApplicationTask (Task_UID createdTask));;
  match answer with
  | Err err =>
      print (Error "Failed to get task status: %v" [arg_err err]);;
      halt_loop (Errorf "failed to get task status: %v" [arg_err err])
  | Ok currentTask =>
      if bool_decide (0 < size (Task_Result currentTask))%nat then
        action ← classify_image_result currentTask;
        mret (Return action)
      else
        print (Message "Image creation still in progress..." []);;
        mret (Continue tt)
  end.

Definition StepCreateImage_loop (createdTask : ApplicationTask)
    (ticks : list (result ApplicationTask error)) : M StepAction :=
  poll (print (Error "Image creation timeout reached" []);;
        halt_with (Errorf "image creation timeout" []))
       (StepCreateImage_tick createdTask) ticks tt.

(** [StepCreateImage.Run]; [answer] is what [client.CreateApplicationTask]
    returns and [ticks] what the later task requests return.  The two
    revisions of the step differ only in how they read the fields. *)
Definition StepCreateImage_Run (answer : result ApplicationTask error)
    (ticks : list (result ApplicationTask error)) : M StepAction :=
  Get "ui" ≫= as_Ui;;
  Get "api_client" ≫= as_APIClient;;
  application ← Get "application" ≫= as_Application;
  print (Say "Creating image using TaskImage..." []);;
  let imageTask := {| Task_UID := "";
                      Task_ApplicationUID := Application_UID application;
                      Task_Task := "TaskImage";
                      Task_When := "DEALLOCATE";
                      Task_Options := ∅;
                      Task_Result := ∅ |} in
  request (CreateApplicationTask imageTask);;
  match answer with
  | Err err =>
      print (Error "Failed to create image task: %v" [arg_err err]);;
      halt_with (Errorf "image task creation failed: %v" [arg_err err])
  | Ok createdTask =>
      print (Say "Image task created (UID: %s)" [arg_s (Task_UID createdTask)]);;
      print (Say "Waiting for image creation to complete..." []);;
      StepCreateImage_loop createdTask ticks
  end.

(** ** The earlier revisions of two steps, on the REST client *)

Module Legacy.

(** The ticker case of the loop of the earlier
    [StepWaitForAllocation.Run]: the status is the string of the REST
    answer. *)
Definition StepWaitForAllocation_tick (application : Application)
    (tick : AllocationTick (ApplicationState string)) (lastStatus : string)
    : M (Iteration string StepAction) :=
  request (GetApplicationState (Application_UID application));;
  match tick_state tick with
  | Err err =>
      print (Error "Failed to get application state: %v" [arg_err err]);;
      halt_loop (Errorf "failed to get application state: %v" [arg_err err])
  | Ok appState =>
      let changed := bool_decide (Status appState ≠ lastStatus) in
      (if changed then
         print (Say "Application status: %s - %s"
                  [arg_s (Status appState); arg_s (Description appState)])
       else mret tt);;
      let lastStatus := if changed then Status appState else lastStatus in
      if bool_decide (Status appState = "ALLOCATED") then
        print (Say "Application has been allocated successfully!" []);;
        fetch_resource application (tick_resource tick) lastStatus
      else if bool_decide (Status appState ∈ ["ERROR"; "DEALLOCATED"; "RECALLED"]) then
        print (Error "Application failed with status: %s - %s"
                 [arg_s (Status appState); arg_s (Description appState)]);;
        halt_loop (Errorf "application failed: %s" [arg_s (Status appState)])
      else if bool_decide (Status appState ∈ ["NEW"; "ELECTED"; "DEALLOCATE"]) then
        mret (Continue lastStatus)
      else
        print (Say "Unknown application status: %s" [arg_s (Status appState)]);;
        mret (Continue lastStatus)
  end.

Definition StepWaitForAllocation_loop (application : Application)
    (ticks : list (AllocationTick (ApplicationState string)))
    (lastStatus : string) : M StepAction :=
  poll allocation_timeout (StepWaitForAllocation_tick application)
       ticks lastStatus.

Definition StepWaitForAllocation_Run
    (ticks : list (AllocationTick (ApplicationState string))) : M StepAction :=
  Get "ui" ≫= as_Ui;;
  Get "api_client" ≫= as_APIClient;;
  application ← Get "application" ≫= as_Application;
  print (Say "Waiting for application to be allocated..." []);;
  StepWaitForAllocation_loop application ticks "".

(** The ticker case of the loop of the earlier [StepSetupSSH.Run];
    [answer] is what the access request of the tick returns, if the tick
    gets to send it ([Ok None]: no access yet). *)
Definition StepSetupSSH_tick (resource : ApplicationResource) (maxRetries : Z)
    (answer : result (option ApplicationResourceAccess) error)
    (retryCount : Z) : M (Iteration Z StepAction) :=
  let retryCount := retryCount + 1 in
  if maxRetries <? retryCount then
    print (Error "Maximum SSH access availability retries reached (%d)"
             [arg_d maxRetries]);;
    halt_loop (Errorf "SSH access availability retry limit exceeded" [])
  else
    print (Say "Checking SSH access availability (attempt %d/%d)..."
             [arg_d retryCount; arg_d maxRetries]);;
    request (GetApplicationResourceAccess (Resource_UID resource));;
    match answer with
    | Err err =>
        print (Error "Failed to get SSH access credentials: %v" [arg_err err]);;
        halt_loop (Errorf "failed to get SSH access credentials: %v" [arg_err err])
    | Ok None =>
        print (Say "SSH access not available yet, retrying..." []);;
        mret (Continue retryCount)
    | Ok (Some access) =>
        print (Say "SSH access is available" []);;
        endpoint ← resolve_ssh_endpoint (Access_Address access);
        let sshHost := endpoint.1 in
        let sshPort := endpoint.2 in
        Put "ssh_host" (VString sshHost);;
        Put "ssh_port" (VInt sshPort);;
        update_generated_data
          [("SSHHost", any_string sshHost);
           ("SSHPort", any_string (Itoa sshPort))];;
        print (Say "SSH connectivity setup completed successfully" []);;
        print (Say "Note: SSH credentials will be fetched dynamically for each connection" []);;
        mret (Return ActionContinue)
    end.

(** The [Done] case of its loop. *)
Definition ssh_access_timeout : M StepAction :=
  cfg ← read_config;
  print (Error "SSH access availability timeout reached (%s)"
           [arg_s (ConnectionTimeout cfg)]);;
  halt_with (Errorf "SSH access availability timeout" []).

Definition StepSetupSSH_loop (resource : ApplicationResource) (maxRetries : Z)
    (ticks : list (result (option ApplicationResourceAccess) error))
    (retryCount : Z) : M StepAction :=
  poll ssh_access_timeout (StepSetupSSH_tick resource maxRetries)
       ticks retryCount.

(** The earlier [StepSetupSSH.Run]; [ticks] are the answers on the ticks
    that its ticker, created with [10 * time.Second], delivers before the
    deadline of the connection timeout. *)
Definition StepSetupSSH_Run
    (ticks : list (result (option ApplicationResourceAccess) error))
    : M StepAction :=
  Get "ui" ≫= as_Ui;;
  Get "api_client" ≫= as_APIClient;;
  resource ← Get "application_resource" ≫= as_ApplicationResource;
  print (Say "Setting up SSH connectivity..." []);;
  cfg ← read_config;
  StepSetupSSH_loop resource (ConnectionRetries cfg) ticks 0.

End Legacy.

(** ** The workflow driver ([Builder.Run] in [builder.go]) *)

(** Modelled from the spec: the two steps of the SDK that connect the remote
    shell and run the provisioning hook.  Towards the runner they either
    continue, or record their error and halt. *)
Definition sdk_step_Run (outcome : result unit error) : M StepAction :=
  match outcome with
  | Ok _ => mret ActionContinue
  | Err err => halt_with err
  end.

Record Step := {
  Run : M StepAction;
  Cleanup : M unit;
}.

(** Modelled from the spec: the step runner of the SDK.  It runs the steps
    in order, stops at the first one that halts, and then runs the cleanup
    of every step that ran, the last one first. *)
Fixpoint run_steps (steps : list Step) : M unit :=
  match steps with
  | [] => mret tt
  | step :: later =>
      action ← Run step;
      (match action with
       | ActionContinue => run_steps later
       | ActionHalt => mret tt
       end);;
      Cleanup step
  end.

(** Everything the environment answers during one run of the builder. *)
Record Environment := {
  env_endpointURL : option URL;
  env_me : result unit error;
  env_stream : result unit error;
  env_labels : result (list Label) error;
  env_now : string;
  env_created : result Application error;
  env_allocation : list (AllocationTick StateMessage);
  env_access : result (option ApplicationResourceAccess) error;
  env_connect_ssh : result unit error;
  env_provision : result unit error;
  env_image_task : result ApplicationTask error;
  env_image_ticks : list (result ApplicationTask error);
  env_deallocate : result unit error;
  env_deallocation : list (result (ApplicationState string) error);
}.

Definition nothing_to_clean : M unit := mret tt.

(** The step list of [Builder.Run], the cleanup step first. *)
Definition Builder_steps (env : Environment) : list Step :=
  [ {| Run := StepCleanup_Run;
       Cleanup := StepCleanup_Cleanup (env_deallocate env) (env_deallocation env) |};
    {| Run := StepConnectAPI_Run (env_endpointURL env) (env_me env) (env_stream env);
       Cleanup := nothing_to_clean |};
    {| Run := StepFindLabel_Run (env_labels env); Cleanup := nothing_to_clean |};
    {| Run := StepCreateApplication_Run (env_now env) (env_created env);
       Cleanup := nothing_to_clean |};
    {| Run := StepWaitForAllocation_Run (env_allocation env);
       Cleanup := nothing_to_clean |};
    {| Run := StepSetupSSH_Run (env_access env); Cleanup := nothing_to_clean |};
    {| Run := sdk_step_Run (env_connect_ssh env); Cleanup := nothing_to_clean |};
    {| Run := sdk_step_Run (env_provision env); Cleanup := nothing_to_clean |};
    {| Run := StepCreateImage_Run (env_image_task env) (env_image_ticks env);
       Cleanup := nothing_to_clean |} ].

Record Artifact := {
  StateData : gmap string Value;
}.

(** [Builder.Run]: the error of the run, or the artifact with the generated
    data. *)
Definition Builder_Run (env : Environment) : M (result Artifact error) :=
  Put "hook" VHook;;
  Put "ui" VUi;;
  Put "config" VConfig;;
  Put "generated_data" (VGenerated ∅);;
  run_steps (Builder_steps env);;
  err ← GetOk "error";
  match err with
  | Some _ => e ← as_error err; mret (Err e)
  | None =>
      generatedData ← Get "generated_data" ≫= as_map;
      mret (Ok {| StateData := {[ "generated_data" := VGenerated generatedData ]} |})
  end.

(** The world in which [Builder.Run] starts. *)
Definition new_world (cfg : Config) : World :=
  {| config := cfg; bag := ∅; calls := []; ui := [] |}.

(** ** Observations on a run *)

(** The requests that allocate and release; the rest of the traffic only
    reads. *)
Definition is_lifecycle (r : Request) : bool :=
  match r with
  | CreateApplication _ | DeallocateApplication _ => true
  | _ => false
  end.

Definition lifecycle (l : list Request) : list Request :=
  List.filter is_lifecycle l.

(** What a step leaves behind: the configuration and the allocating and
    releasing requests as they were and, when it halts, only an error added
    to the state bag. *)
Definition step_outcome (w : World) (a : StepAction) (w' : World)
    (success : gmap string Value → Prop) : Prop :=
  config w' = config w ∧
  lifecycle (calls w') = lifecycle (calls w) ∧
  match a with
  | ActionHalt => ∃ e, bag w' = <["error" := VError e]> (bag w)
  | ActionContinue => success (bag w')
  end.

(** The same world up to what the steps print and the requests that only
    read. *)
Definition only_polled (w0 w : World) : Prop :=
  config w = config w0 ∧ bag w = bag w0 ∧
  lifecycle (calls w) = lifecycle (calls w0).

(** The state bag after the Wait-For-Ready step succeeded with [resource]. *)
Definition with_resource (resource : ApplicationResource)
    (g : gmap string any) (b : gmap string Value) : gmap string Value :=
  <["generated_data" :=
      VGenerated (<["ResourceUID" := any_string (Resource_UID resource)]> g)]>
    (<["application_resource" := VResource resource]> b).

(** The host and port the Setup-Remote-Access step resolves an address to. *)
Definition ssh_endpoint (cfg : Config) (address : string) : string * Z :=
  match ParseSSHAddress address with
  | Ok endpoint => endpoint
  | Err _ => (SSHHost (Communicator cfg), SSHPort (Communicator cfg))
  end.

(** The generated data after that step published [endpoint]. *)
Definition with_ssh_data (endpoint : string * Z) (g : gmap string any)
    : gmap string any :=
  <["SSHPort" := any_string (Itoa endpoint.2)]>
    (<["SSHHost" := any_string endpoint.1]> g).

(** The state bag after that step succeeded. *)
Definition with_ssh (endpoint : string * Z)
    (access : option ApplicationResourceAccess) (g : gmap string any)
    (b : gmap string Value) : gmap string Value :=
  <["generated_data" := VGenerated (with_ssh_data endpoint g)]>
    (<["ssh_access" := VAccess access]>
       (<["ssh_username" := VString (GetUsername access)]>
          (<["ssh_port" := VInt endpoint.2]>
             (<["ssh_host" := VString endpoint.1]> b)))).

(** The state bag after the capture step succeeded. *)
Definition with_image (task : ApplicationTask) (b : gmap string Value)
    : gmap string Value :=
  <["image_results" := VResults (Task_Result task)]>
    (<["image_task" := VTask task]> b).

(** What [Builder.Run] does once the steps have run forward: the cleanup of
    the first step, then the result. *)
Definition Builder_ending (env : Environment) : M (result Artifact error) :=
  StepCleanup_Cleanup (env_deallocate env) (env_deallocation env);;
  err ← GetOk "error";
  match err with
  | Some _ => e ← as_error err; mret (Err e)
  | None =>
      generatedData ← Get "generated_data" ≫= as_map;
      mret (Ok {| StateData := {[ "generated_data" := VGenerated generatedData ]} |})
  end.

(** The steps after the cleanup step. *)
Definition Builder_later_steps (env : Environment) : list Step :=
  tail (Builder_steps env).

(** The state bag that [Builder.Run] hands to the runner. *)
Definition initial_bag : gmap string Value :=
  <["generated_data" := VGenerated ∅]>
    (<["config" := VConfig]> (<["ui" := VUi]> (<["hook" := VHook]> ∅))).

(** The creation request of a run that selected [label]. *)
Definition creation_request (cfg : Config) (env : Environment) (label : Label)
    : Request :=
  CreateApplication
    {| Application_UID := "";
       Application_LabelUID := Label_UID label;
       Application_Metadata :=
         application_metadata (ApplicationMetadata cfg) (env_now env) |}.

(** The generated data of a run that created [app], was given [resource]
    and resolved the remote shell to [endpoint]. *)
Definition generated_data_of (app : Application)
    (resource : ApplicationResource) (endpoint : string * Z)
    : gmap string any :=
  with_ssh_data endpoint
    (<["ResourceUID" := any_string (Resource_UID resource)]>
       (<["ApplicationUID" := any_string (Application_UID app)]> ∅)).

(** The four ways a run of the builder ends. *)
Inductive Run_summary (cfg : Config) (env : Environment)
    : result Artifact error → World → Prop :=
| failed_before_creation e w :
    lifecycle (calls w) = [] →
    bag w !! "application" = None →
    Run_summary cfg env (Err e) w
| failed_creation e label err w :
    env_created env = Err err →
    lifecycle (calls w) = [creation_request cfg env label] →
    bag w !! "application" = None →
    Run_summary cfg env (Err e) w
| failed_after_creation e label app w :
    env_created env = Ok app →
    lifecycle (calls w) =
      [creation_request cfg env label;
       DeallocateApplication (Application_UID app)] →
    bag w !! "application" = Some (VApplication app) →
    Run_summary cfg env (Err e) w
| succeeded label app tick resource access w :
    env_created env = Ok app →
    tick ∈ env_allocation env →
    tick_resource tick = Ok (Some resource) →
    env_access env = Ok access →
    lifecycle (calls w) =
      [creation_request cfg env label;
       DeallocateApplication (Application_UID app)] →
    bag w !! "application" = Some (VApplication app) →
    Run_summary cfg env
      (Ok {| StateData :=
               {[ "generated_data" :=
                    VGenerated
                      (generated_data_of app resource
                         (ssh_endpoint cfg (GetAddress access))) ]} |}) w.

(** The two nil dereferences of a run: the endpoint that [url.Parse]
    rejects, and the state answer without a state. *)
Definition answers_without_state (ticks : list (AllocationTick StateMessage))
    : Prop :=
  ∃ tick, tick ∈ ticks ∧ tick_state tick = Ok None.

Definition Run_panics (env : Environment) : Prop :=
  env_endpointURL env = None ∨ answers_without_state (env_allocation env).

(** A run ends in one of the four ways, or it panics on one of the two nil
    dereferences. *)
Definition Run_outcome (cfg : Config) (env : Environment)
    (run : option (result Artifact error * World)) : Prop :=
  match run with
  | Some (r, w) => Run_summary cfg env r w
  | None => Run_panics env
  end.

(** The ids for which a deallocation was requested, in order. *)
Definition deallocations (l : list Request) : list string :=
  omap (λ r, match r with
             | DeallocateApplication uid => Some uid
             | _ => None
             end) l.

(** An allocation was created: the creation request went out and the
    service answered it with [app]. *)
Definition allocation_created (env : Environment) (w : World)
    (app : Application) : Prop :=
  (∃ request, CreateApplication request ∈ calls w) ∧ env_created env = Ok app.

(** The world after the ticker case of the Wait-For-Ready loop asked for
    the state and reported a change of status; [name] prints a status. *)
Definition polled {S} `{EqDecision S} (name : S → string)
    (application : Application) (appState : ApplicationState S)
    (lastStatus : S) (w : World) : World :=
  let w1 := sent (GetApplicationState (Application_UID application)) w in
  if bool_decide (Status appState ≠ lastStatus) then
    printed (Say "Application status: %s - %s"
               [arg_s (name (Status appState)); arg_s (Description appState)]) w1
  else w1.

(** The four ways the loop treats an observed status. *)
Inductive Treatment : Type :=
| keep_waiting
| keep_waiting_logged
| success_path
| terminal_failure.

(** [on_tick] treats [status] as [treatment]: it keeps waiting silently; it
    prints the line about an unknown status and keeps waiting; it goes on to
    fetch the resource; or it records the failure and halts the step.
    [present] is how the client hands over a state that the service sent. *)
Definition treats {St S} `{EqDecision S} (name : S → string)
    (present : ApplicationState S → St)
    (on_tick : Application → AllocationTick St → S → M (Iteration S StepAction))
    (status : S) (treatment : Treatment) : Prop :=
  ∀ application description answer lastStatus w,
    let appState := {| Status := status; Description := description |} in
    let w1 := polled name application appState lastStatus w in
    on_tick application
      {| tick_state := Ok (present appState); tick_resource := answer |}
      lastStatus w
    = match treatment with
      | keep_waiting => Some (Continue status, w1)
      | keep_waiting_logged =>
          Some (Continue status,
                printed (Say "Unknown application status: %s" [arg_s (name status)]) w1)
      | success_path =>
          fetch_resource application answer status
            (printed (Say "Application has been allocated successfully!" []) w1)
      | terminal_failure =>
          Some (Return ActionHalt,
                put "error"
                  (VError (Errorf "application failed: %s" [arg_s (name status)]))
                  (printed (Error "Application failed with status: %s - %s"
                              [arg_s (name status); arg_s description]) w1))
      end.

(** The status of a tick whose state request was answered with a state. *)
Definition observes {St S} (present : ApplicationState S → St)
    (P : S → Prop) (tick : AllocationTick St) : Prop :=
  ∃ appState, tick_state tick = Ok (present appState) ∧ P (Status appState).

(** A tick that does not observe the status [allocated]: its state request
    failed, or was answered with a state of another status. *)
Definition not_yet {St S} (present : ApplicationState S → St) (allocated : S)
    (tick : AllocationTick St) : Prop :=
  ∀ answer, tick_state tick = Ok answer →
    ∃ appState, answer = present appState ∧ Status appState ≠ allocated.

(** What the Wait-For-Ready loop guarantees when no tick observes the
    allocated status: it halts with an error recorded; if every tick before
    the deadline was answered with a status in [waiting], that error is the
    timeout error; and the timeout error is recorded only at the deadline,
    after every tick sent its state request. *)
Definition halts_at_deadline {St S} (present : ApplicationState S → St)
    (waiting : S → Prop)
    (application : Application) (ticks : list (AllocationTick St))
    (w : World) (outcome : option (StepAction * World)) : Prop :=
  ∃ e w', outcome = Some (ActionHalt, w') ∧
    bag w' = <["error" := VError e]> (bag w) ∧
    (Forall (observes present waiting) ticks →
     e = Errorf "allocation timeout" []) ∧
    (e = Errorf "allocation timeout" [] →
     calls w' = calls w ++
       replicate (length ticks) (GetApplicationState (Application_UID application))).

(** What the ticker case of that loop does on a tick that does not observe
    the allocated status: it sends the state request and continues, or it
    halts on an error, and then the tick did not observe a status in
    [waiting]. *)
Definition polls_or_fails {St S} (present : ApplicationState S → St)
    (waiting : S → Prop)
    (application : Application) (tick : AllocationTick St) (w : World)
    (outcome : option (Iteration S StepAction * World)) : Prop :=
  ∃ w1,
    (∃ lastStatus, outcome = Some (Continue lastStatus, w1) ∧
       bag w1 = bag w ∧
       calls w1 = calls w ++ [GetApplicationState (Application_UID application)])
    ∨ (∃ e, outcome = Some (Return ActionHalt, w1) ∧
         bag w1 = <["error" := VError e]> (bag w) ∧
         e ≠ Errorf "allocation timeout" [] ∧
         ¬ observes present waiting tick).

(** The values of the ["status"] field that the capture step recognizes. *)
Definition success_marker (status : any) : Prop :=
  status = any_string "success" ∨ status = any_string "completed".
Definition failure_marker (status : any) : Prop :=
  status = any_string "failed" ∨ status = any_string "error".

(** The capture step ends successfully, with the task and its result
    stored and no error recorded. *)
Definition image_accepted (currentTask : ApplicationTask) (w : World)
    (outcome : option (StepAction * World)) : Prop :=
  ∃ w', outcome = Some (ActionContinue, w') ∧
    bag w' = with_image currentTask (bag w).

(** The capture step halts with the failure of the image recorded. *)
Definition image_rejected (w : World)
    (outcome : option (StepAction * World)) : Prop :=
  ∃ w', outcome = Some (ActionHalt, w') ∧
    bag w' = <["error" := VError (Errorf "image creation failed" [])]> (bag w).

(** The communicator defaults of the operator. *)
Definition configured_endpoint (cfg : Config) : string * Z :=
  (SSHHost (Communicator cfg), SSHPort (Communicator cfg)).

(** The state bag after the polling revision of the Setup-Remote-Access
    step succeeded. *)
Definition with_ssh_polled (endpoint : string * Z) (g : gmap string any)
    (b : gmap string Value) : gmap string Value :=
  <["generated_data" := VGenerated (with_ssh_data endpoint g)]>
    (<["ssh_port" := VInt endpoint.2]>
       (<["ssh_host" := VString endpoint.1]> b)).

(** The step halted on [e], having sent the requests [sent_requests]. *)
Definition halted_with (e : error) (sent_requests : list Request) (w : World)
    (outcome : option (StepAction * World)) : Prop :=
  ∃ w', outcome = Some (ActionHalt, w') ∧
    bag w' = <["error" := VError e]> (bag w) ∧
    calls w' = calls w ++ sent_requests.

(** [label] is the first label of [labels] with the highest version. *)
Definition first_maximum (labels : list Label) (label : Label) : Prop :=
  ∃ before after, labels = before ++ label :: after ∧
    (∀ l, l ∈ before → Label_Version l < Label_Version label) ∧
    (∀ l, l ∈ after → Label_Version l ≤ Label_Version label).

(** [label] is the first label of [labels] with the version [version]. *)
Definition first_of_version (labels : list Label) (version : Z)
    (label : Label) : Prop :=
  ∃ before after, labels = before ++ label :: after ∧
    Label_Version label = version ∧
    (∀ l, l ∈ before → Label_Version l ≠ version).

(** The Find-Template step settled on [label]: it stores it and continues
    when the label has a definition, and halts otherwise. *)
Definition settles_on (query : Request) (label : Label) (w : World)
    (outcome : option (StepAction * World)) : Prop :=
  ∃ w', calls w' = calls w ++ [query] ∧
    match Label_Definitions label with
    | [] =>
        outcome = Some (ActionHalt, w') ∧
        bag w' = <["error" := VError (Errorf "label has no definitions" [])]> (bag w)
    | _ :: _ =>
        outcome = Some (ActionContinue, w') ∧
        bag w' = <["selected_label" := VLabel label]> (bag w)
    end.

(** What a finished run published under [key], if it succeeded. *)
Definition published (run : option (result Artifact error * World))
    (key : string) : option any :=
  match run with
  | Some (Ok artifact, _) =>
      match StateData artifact !! "generated_data" with
      | Some (VGenerated g) => g !! key
      | _ => None
      end
  | _ => None
  end.

(** The artifact and the final world of a finished run. *)
Definition artifact_of (run : option (result Artifact error * World)) : Artifact :=
  match run with
  | Some (Ok artifact, _) => artifact
  | _ => {| StateData := ∅ |}
  end.

Definition world_of {A} (w0 : World) (run : option (A * World)) : World :=
  match run with
  | Some (_, w) => w
  | None => w0
  end.

(** ** Sample runs *)

Module Sample.

Definition communicator : CommunicatorConfig :=
  {| Type_ := "ssh"; SSHHost := "bastion.example"; SSHPort := 2200;
     SSHUsername := ""; SSHPassword := ""; SSHPrivateKey := "" |}.

Definition cfg : Config :=
  {| Endpoint := "https://fish.example:8001"; Username := "packer";
     Password := "secret"; InsecureSkipTLSVerify := false;
     LabelName := "ubuntu"; LabelVersion := "";
     ConnectionTimeout := "30m"; ConnectionRetries := 60;
     AllocationTimeout := "10m";
     ApplicationMetadata :=
       Some {[ "team" := any_string "ci"; "PACKER_BUILD" := any_string "no" ]};
     Communicator := communicator |}.

Definition endpointURL : URL :=
  {| URL_Path := ""; URL_String := λ path, "https://fish.example:8001/" +:+ path |}.

Definition label (version : Z) : Label :=
  {| Label_UID := "label-" +:+ Itoa version; Label_Name := "ubuntu";
     Label_Version := version; Label_Definitions := [ {| Driver := "vmx" |} ] |}.

Definition app : Application :=
  {| Application_UID := "app-1"; Application_LabelUID := "label-3";
     Application_Metadata := ∅ |}.

Definition resource : ApplicationResource :=
  {| Resource_UID := "res-1"; Resource_IPAddr := "10.0.0.7" |}.

Definition observed {St S} (present : ApplicationState S → St) (status : S)
    : AllocationTick St :=
  {| tick_state := Ok (present {| Status := status; Description := "" |});
     tick_resource := Ok (Some resource) |}.

Definition access (address : string) : ApplicationResourceAccess :=
  {| Access_Address := address; Access_Username := "root";
     Access_Password := ""; Access_Key := "" |}.

Definition task (result : gmap string any) : ApplicationTask :=
  {| Task_UID := "task-1"; Task_ApplicationUID := "app-1";
     Task_Task := "TaskImage"; Task_When := "DEALLOCATE";
     Task_Options := ∅; Task_Result := result |}.

(** A run in which every step succeeds; the remote access answers with
    [address]. *)
Definition env (address : string) : Environment :=
  {| env_endpointURL := Some endpointURL;
     env_me := Ok tt; env_stream := Ok tt;
     env_labels := Ok [label 1; label 3; label 2];
     env_now := "2025-06-01T12:00:00Z";
     env_created := Ok app;
     env_allocation :=
       [observed Some NEW; observed Some ELECTED; observed Some ALLOCATED];
     env_access := Ok (Some (access address));
     env_connect_ssh := Ok tt; env_provision := Ok tt;
     env_image_task := Ok (task ∅);
     env_image_ticks := [Ok (task ∅); Ok (task {[ "status" := any_string "success" ]})];
     env_deallocate := Ok tt;
     env_deallocation := [Ok {| Status := "DEALLOCATED"; Description := "" |}] |}.

(** The configuration with a requested label version. *)
Definition cfg_requesting (version : string) : Config :=
  {| Endpoint := Endpoint cfg; Username := Username cfg;
     Password := Password cfg;
     InsecureSkipTLSVerify := InsecureSkipTLSVerify cfg;
     LabelName := LabelName cfg; LabelVersion := version;
     ConnectionTimeout := ConnectionTimeout cfg;
     ConnectionRetries := ConnectionRetries cfg;
     AllocationTimeout := AllocationTimeout cfg;
     ApplicationMetadata := ApplicationMetadata cfg;
     Communicator := Communicator cfg |}.

(** A state bag in the middle of a run: connected, application created. *)
Definition world : World :=
  {| config := cfg;
     bag := <["application" := VApplication app]>
              (<["api_client" := VClient (NewAPIClient "https://fish.example:8001/grpc" "packer" "secret")]>
                 initial_bag);
     calls := []; ui := [] |}.

End Sample.

(** ** Preparing the builder ([Builder.Prepare] in [builder.go]) *)

Definition with_ConnectionTimeout (t : string) (cfg : Config) : Config :=
  {| Endpoint := Endpoint cfg; Username := Username cfg;
     Password := Password cfg;
     InsecureSkipTLSVerify := InsecureSkipTLSVerify cfg;
     LabelName := LabelName cfg; LabelVersion := LabelVersion cfg;
     ConnectionTimeout := t;
     ConnectionRetries := ConnectionRetries cfg;
     AllocationTimeout := AllocationTimeout cfg;
     ApplicationMetadata := ApplicationMetadata cfg;
     Communicator := Communicator cfg |}.

Definition with_ConnectionRetries (n : Z) (cfg : Config) : Config :=
  {| Endpoint := Endpoint cfg; Username := Username cfg;
     Password := Password cfg;
     InsecureSkipTLSVerify := InsecureSkipTLSVerify cfg;
     LabelName := LabelName cfg; LabelVersion := LabelVersion cfg;
     ConnectionTimeout := ConnectionTimeout cfg;
     ConnectionRetries := n;
     AllocationTimeout := AllocationTimeout cfg;
     ApplicationMetadata := ApplicationMetadata cfg;
     Communicator := Communicator cfg |}.

Definition with_AllocationTimeout (t : string) (cfg : Config) : Config :=
  {| Endpoint := Endpoint cfg; Username := Username cfg;
     Password := Password cfg;
     InsecureSkipTLSVerify := InsecureSkipTLSVerify cfg;
     LabelName := LabelName cfg; LabelVersion := LabelVersion cfg;
     ConnectionTimeout := ConnectionTimeout cfg;
     ConnectionRetries := ConnectionRetries cfg;
     AllocationTimeout := t;
     ApplicationMetadata := ApplicationMetadata cfg;
     Communicator := Communicator cfg |}.

Definition with_Type (t : string) (c : CommunicatorConfig) :=
  {| Type_ := t; SSHHost := SSHHost c; SSHPort := SSHPort c;
     SSHUsername := SSHUsername c; SSHPassword := SSHPassword c;
     SSHPrivateKey := SSHPrivateKey c |}.

(** The builder: its configuration, and beside it the two parsed timeouts,
    which the source keeps in unexported fields of the configuration. *)
Record Builder := {
  Builder_config : Config;
  connectionTimeoutDuration : Z;
  allocationTimeoutDuration : Z;
}.

(** What [d, err = time.ParseDuration(s)] leaves in [d]: the library
    returns 0 together with every error. *)
Definition parsed_duration (r : result Z error) : Z :=
  match r with
  | Ok d => d
  | Err _ => 0
  end.

(** The placeholders of the generated data. *)
Definition buildGeneratedData : list string :=
  ["ApplicationUID"; "ResourceUID"; "SSHHost"; "SSHPort"].

(** [Builder.Prepare].  [b] is the builder as [config.Decode] left it and
    [decode_error] the error of that call; [ParseDuration] is
    [time.ParseDuration].  The result is the builder as [Prepare] leaves it
    and what it returns: the generated variables and the warnings, or the
    error. *)
Definition Builder_Prepare (ParseDuration : string → result Z error)
    (decode_error : option error) (b : Builder)
    : Builder * result (list string * list string) error :=
  match decode_error with
  | Some err => (b, Err err)
  | None =>
      let cfg := Builder_config b in
      let cfg :=
        if bool_decide (ConnectionTimeout cfg = "")
        then with_ConnectionTimeout "30m" cfg else cfg in
      let cfg :=
        if bool_decide (ConnectionRetries cfg ≤ 0)
        then with_ConnectionRetries 60 cfg else cfg in
      let cfg :=
        if bool_decide (AllocationTimeout cfg = "")
        then with_AllocationTimeout "10m" cfg else cfg in
      let connection := ParseDuration (ConnectionTimeout cfg) in
      let b :=
        {| Builder_config := cfg;
           connectionTimeoutDuration := parsed_duration connection;
           allocationTimeoutDuration := allocationTimeoutDuration b |} in
      match connection with
      | Err err => (b, Err (Errorf "invalid connection_timeout: %v" [arg_err err]))
      | Ok _ =>
          let allocation := ParseDuration (AllocationTimeout cfg) in
          let b :=
            {| Builder_config := cfg;
               connectionTimeoutDuration := connectionTimeoutDuration b;
               allocationTimeoutDuration := parsed_duration allocation |} in
          match allocation with
          | Err err =>
              (b, Err (Errorf "invalid allocation_timeout: %v" [arg_err err]))
          | Ok _ =>
              if bool_decide (Endpoint cfg = "") then
                (b, Err (Errorf "endpoint is required" []))
              else if bool_decide (Username cfg = "") then
                (b, Err (Errorf "username is required" []))
              else if bool_decide (Password cfg = "") then
                (b, Err (Errorf "password is required" []))
              else if bool_decide (LabelName cfg = "") then
                (b, Err (Errorf "label_name is required" []))
              else
                let cfg :=
                  if bool_decide (Type_ (Communicator cfg) = "")
                  then with_Communicator (with_Type "ssh" (Communicator cfg)) cfg
                  else cfg in
                ({| Builder_config := cfg;
                    connectionTimeoutDuration := connectionTimeoutDuration b;
                    allocationTimeoutDuration := allocationTimeoutDuration b |},
                 Ok (buildGeneratedData, []))
          end
      end
  end.

(** ** The host of the remote shell ([host] and [commFunc] in [builder.go]) *)

Definition as_string (v : option Value) : M string :=
  match v with Some (VString s) => mret s | _ => panic end.

Definition host : M (result string error) :=
  sshHost ← GetOk "ssh_host";
  match sshHost with
  | None => mret (Err (Errorf "ssh_host not found in state" []))
  | Some _ => s ← as_string sshHost; mret (Ok s)
  end.

Definition commFunc (host : M (result string error)) : M (result string error) :=
  host.

(** ** The REST client (the earlier [api_client.go]) *)

Module RESTClient.

(** What the steps read of an [*http.Response]: the status and the body as
    [io.ReadAll] or the JSON decoder reads it. *)
Record Response := {
  StatusCode : Z;
  Body : string;
}.

Definition StatusOK : Z := 200.
Definition StatusUnauthorized : Z := 401.
Definition StatusNotFound : Z := 404.

Definition request_failed (resp : Response) : error :=
  Errorf "API request failed with status %d: %s"
    [arg_d (StatusCode resp); arg_s (Body resp)].

(** The methods, from the return of [c.makeRequest] on: [resp] is what it
    returns and [Decode] is [json.NewDecoder(resp.Body).Decode] into the
    type of the answer. *)

Definition GetLabels (Decode : string → result (list Label) error)
    (resp : result Response error) : result (list Label) error :=
  match resp with
  | Err err => Err err
  | Ok resp =>
      if bool_decide (StatusCode resp ≠ StatusOK) then Err (request_failed resp)
      else match Decode (Body resp) with
           | Err err => Err (Errorf "failed to decode labels response: %v" [arg_err err])
           | Ok labels => Ok labels
           end
  end.

Definition CreateApplication (Decode : string → result Application error)
    (resp : result Response error) : result Application error :=
  match resp with
  | Err err => Err err
  | Ok resp =>
      if bool_decide (StatusCode resp ≠ StatusOK) then Err (request_failed resp)
      else match Decode (Body resp) with
           | Err err =>
               Err (Errorf "failed to decode application response: %v" [arg_err err])
           | Ok createdApp => Ok createdApp
           end
  end.

Definition GetApplicationState
    (Decode : string → result (ApplicationState string) error)
    (resp : result Response error) : result (ApplicationState string) error :=
  match resp with
  | Err err => Err err
  | Ok resp =>
      if bool_decide (StatusCode resp ≠ StatusOK) then Err (request_failed resp)
      else match Decode (Body resp) with
           | Err err =>
               Err (Errorf "failed to decode application state response: %v"
                      [arg_err err])
           | Ok state => Ok state
           end
  end.

Definition GetApplicationResource
    (Decode : string → result ApplicationResource error)
    (resp : result Response error) : result (option ApplicationResource) error :=
  match resp with
  | Err err => Err err
  | Ok resp =>
      if bool_decide (StatusCode resp ≠ StatusOK) then
        if bool_decide (StatusCode resp = StatusNotFound) then Ok None
        else Err (request_failed resp)
      else match Decode (Body resp) with
           | Err err =>
               Err (Errorf "failed to decode application resource response: %v"
                      [arg_err err])
           | Ok resource => Ok (Some resource)
           end
  end.

Definition GetApplicationResourceAccess
    (Decode : string → result ApplicationResourceAccess error)
    (resp : result Response error)
    : result (option ApplicationResourceAccess) error :=
  match resp with
  | Err err => Err err
  | Ok resp =>
      if bool_decide (StatusCode resp ≠ StatusOK) then
        if bool_decide (StatusCode resp = StatusNotFound) then Ok None
        else Err (request_failed resp)
      else match Decode (Body resp) with
           | Err err => Err (Errorf "failed to decode access response: %v" [arg_err err])
           | Ok access => Ok (Some access)
           end
  end.

Definition DeallocateApplication (resp : result Response error)
    : result unit error :=
  match resp with
  | Err err => Err err
  | Ok resp =>
      if bool_decide (StatusCode resp ≠ StatusOK) then Err (request_failed resp)
      else Ok tt
  end.

Definition CreateApplicationTask (Decode : string → result ApplicationTask error)
    (resp : result Response error) : result ApplicationTask error :=
  match resp with
  | Err err => Err err
  | Ok resp =>
      if bool_decide (StatusCode resp ≠ StatusOK) then Err (request_failed resp)
      else match Decode (Body resp) with
           | Err err => Err (Errorf "failed to decode task response: %v" [arg_err err])
           | Ok createdTask => Ok createdTask
           end
  end.

Definition GetApplicationTask (Decode : string → result ApplicationTask error)
    (resp : result Response error) : result ApplicationTask error :=
  match resp with
  | Err err => Err err
  | Ok resp =>
      if bool_decide (StatusCode resp ≠ StatusOK) then Err (request_failed resp)
      else match Decode (Body resp) with
           | Err err => Err (Errorf "failed to decode task response: %v" [arg_err err])
           | Ok task => Ok task
           end
  end.

End RESTClient.

(** ** The first revisions of two steps, on the REST client *)

Module RESTSteps.

(** The earlier [StepConnectAPI.Run]; [resp] is what
    [client.makeRequest("GET", "/api/v1/user/me/", nil)] returns. *)
Definition StepConnectAPI_Run (resp : result RESTClient.Response error)
    : M StepAction :=
  Get "ui" ≫= as_Ui;;
  print (Say "Connecting to AquariumFish API..." []);;
  cfg ← read_config;
  let client := NewAPIClient (Endpoint cfg) (Username cfg) (Password cfg) in
  request GetCurrentUser;;
  match resp with
  | Err err =>
      print (Error "Failed to connect to AquariumFish API: %v" [arg_err err]);;
      halt_with (Errorf "API connection failed: %v" [arg_err err])
  | Ok resp =>
      if bool_decide (RESTClient.StatusCode resp = RESTClient.StatusUnauthorized) then
        print (Error "Authentication failed. Please check your credentials." []);;
        halt_with (Errorf "authentication failed" [])
      else if bool_decide (RESTClient.StatusCode resp ≠ RESTClient.StatusOK) then
        print (Error "API connection test failed with status %d"
                 [arg_d (RESTClient.StatusCode resp)]);;
        halt_with (Errorf "API connection test failed" [])
      else
        print (Say "Successfully connected to AquariumFish API" []);;
        Put "api_client" (VClient client);;
        mret ActionContinue
  end.

(** The earliest [StepSetupSSH.Run], which asks once; [answer] is what
    [client.GetApplicationResourceAccess] returns.  It reads the fields of
    [access] themselves, which panics on a nil answer. *)
Definition StepSetupSSH_Run
    (answer : result (option ApplicationResourceAccess) error) : M StepAction :=
  Get "ui" ≫= as_Ui;;
  Get "api_client" ≫= as_APIClient;;
  resource ← Get "application_resource" ≫= as_ApplicationResource;
  print (Say "Setting up SSH connectivity..." []);;
  request (GetApplicationResourceAccess (Resource_UID resource));;
  match answer with
  | Err err =>
      print (Error "Failed to get SSH access credentials: %v" [arg_err err]);;
      halt_with (Errorf "failed to get SSH access: %v" [arg_err err])
  | Ok answered =>
      print (Say "SSH access credentials retrieved successfully" []);;
      match answered with
      | None => panic
      | Some access =>
          endpoint ← resolve_ssh_endpoint (Access_Address access);
          let sshHost := endpoint.1 in
          let sshPort := endpoint.2 in
          (if bool_decide (Access_Username access ≠ "") then
             update_Communicator (with_SSHUsername (Access_Username access));;
             print (Say "SSH username: %s" [arg_s (Access_Username access)])
           else mret tt);;
          (if bool_decide (Access_Password access ≠ "") then
             update_Communicator (with_SSHPassword (Access_Password access));;
             print (Say "SSH password provided" [])
           else mret tt);;
          (if bool_decide (Access_Key access ≠ "") then
             update_Communicator (with_SSHPrivateKey (Access_Key access));;
             print (Say "SSH private key provided" [])
           else mret tt);;
          update_Communicator (with_SSHPort sshPort);;
          Put "ssh_host" (VString sshHost);;
          Put "ssh_port" (VInt sshPort);;
          Put "ssh_username" (VString (Access_Username access));;
          Put "ssh_access" (VAccess answered);;
          update_generated_data
            [("SSHHost", any_string sshHost);
             ("SSHPort", any_string (Itoa sshPort))];;
          print (Say "SSH connectivity setup completed successfully" []);;
          mret ActionContinue
      end
  end.

End RESTSteps.

(** ** Observations on the preparation *)

(** The timeouts and the retry count that [Prepare] goes on with: the
    decoded ones, or the defaults. *)
Definition effective_ConnectionTimeout (cfg : Config) : string :=
  if bool_decide (ConnectionTimeout cfg = "") then "30m" else ConnectionTimeout cfg.
Definition effective_AllocationTimeout (cfg : Config) : string :=
  if bool_decide (AllocationTimeout cfg = "") then "10m" else AllocationTimeout cfg.
Definition effective_ConnectionRetries (cfg : Config) : Z :=
  if bool_decide (ConnectionRetries cfg ≤ 0) then 60 else ConnectionRetries cfg.

(** The four settings that [Prepare] requires. *)
Definition required_settings (cfg : Config) : Prop :=
  Endpoint cfg ≠ "" ∧ Username cfg ≠ "" ∧ Password cfg ≠ "" ∧ LabelName cfg ≠ "".

(** A builder that [Prepare] accepted. *)
Record prepared (ParseDuration : string → result Z error) (b : Builder) : Prop := {
  prepared_required : required_settings (Builder_config b);
  prepared_retries : 1 ≤ ConnectionRetries (Builder_config b);
  prepared_type : Type_ (Communicator (Builder_config b)) ≠ "";
  prepared_connection :
    ConnectionTimeout (Builder_config b) ≠ "" ∧
    ParseDuration (ConnectionTimeout (Builder_config b))
    = Ok (connectionTimeoutDuration b);
  prepared_allocation :
    AllocationTimeout (Builder_config b) ≠ "" ∧
    ParseDuration (AllocationTimeout (Builder_config b))
    = Ok (allocationTimeoutDuration b);
}.

(** The configuration that [Prepare] leaves when it accepts [cfg]. *)
Definition prepared_config (cfg : Config) : Config :=
  {| Endpoint := Endpoint cfg; Username := Username cfg;
     Password := Password cfg;
     InsecureSkipTLSVerify := InsecureSkipTLSVerify cfg;
     LabelName := LabelName cfg; LabelVersion := LabelVersion cfg;
     ConnectionTimeout := effective_ConnectionTimeout cfg;
     ConnectionRetries := effective_ConnectionRetries cfg;
     AllocationTimeout := effective_AllocationTimeout cfg;
     ApplicationMetadata := ApplicationMetadata cfg;
     Communicator :=
       if bool_decide (Type_ (Communicator cfg) = "")
       then with_Type "ssh" (Communicator cfg) else Communicator cfg |}.

Module Fixture.

(** A stand-in for [time.ParseDuration] that knows the two defaults. *)
Definition ParseDuration (s : string) : result Z error :=
  if bool_decide (s = "30m") then Ok 1800000000000
  else if bool_decide (s = "10m") then Ok 600000000000
  else Err (remote_error ("time: invalid duration " +:+ s)).

(** A decoded configuration that leaves every optional setting out. *)
Definition decoded : Builder :=
  {| Builder_config :=
       {| Endpoint := "https://fish.example:8001"; Username := "packer";
          Password := "secret"; InsecureSkipTLSVerify := false;
          LabelName := "ubuntu"; LabelVersion := "";
          ConnectionTimeout := ""; ConnectionRetries := 0;
          AllocationTimeout := ""; ApplicationMetadata := None;
          Communicator :=
            {| Type_ := ""; SSHHost := ""; SSHPort := 0; SSHUsername := "";
               SSHPassword := ""; SSHPrivateKey := "" |} |};
     connectionTimeoutDuration := 0;
     allocationTimeoutDuration := 0 |}.

(** A tick that observes [status] while the resource request finds no
    resource. *)
Definition pending {St S} (present : ApplicationState S → St) (status : S)
    : AllocationTick St :=
  {| tick_state := Ok (present {| Status := status; Description := "" |});
     tick_resource := Ok None |}.

End Fixture.

(** ** Observations on strings *)

(** [s] holds no byte [c]. *)
Fixpoint free_of (c : ascii) (s : string) : Prop :=
  match s with
  | EmptyString => True
  | String a rest => a ≠ c ∧ free_of c rest
  end.

(** The fields [l] put together again with [c] between them. *)
Fixpoint Join (c : ascii) (l : list string) : string :=
  match l with
  | [] => ""
  | [field] => field
  | field :: fields => field +:+ String c (Join c fields)
  end.

(** The range of a Go [int]. *)
Definition is_int (n : Z) : Prop := - 2 ^ 63 ≤ n < 2 ^ 63.

(** ** Observations on the polling steps *)

(** The task request of the capture step for [application]. *)
Definition image_task_request (application : Application) : Request :=
  CreateApplicationTask
    {| Task_UID := ""; Task_ApplicationUID := Application_UID application;
       Task_Task := "TaskImage"; Task_When := "DEALLOCATE";
       Task_Options := ∅; Task_Result := ∅ |}.

(** An answer to a task request that carries no result yet. *)
Definition in_progress (answer : result ApplicationTask error) : Prop :=
  ∃ task, answer = Ok task ∧ Task_Result task = ∅.

(** An answer to a state request of the cleanup that ends its wait: a
    failed request, or one of the three statuses the loop returns on. *)
Definition settled (answer : result (ApplicationState string) error) : bool :=
  match answer with
  | Err _ => true
  | Ok appState =>
      bool_decide (Status appState = "DEALLOCATED")
      || bool_decide (Status appState = "RECALLED")
      || bool_decide (Status appState = "ERROR")
  end.

(** The number of answers up to the first settled one, that one included. *)
Fixpoint polls_until_settled
    (answers : list (result (ApplicationState string) error)) : nat :=
  match answers with
  | [] => 0
  | answer :: later =>
      if settled answer then 1 else S (polls_until_settled later)
  end.

(** A tick that keeps the Wait-For-Ready loop polling: its state request is
    answered with a status that is not one of [failures], and if that status
    is [allocated] the resource request finds no resource yet. *)
Definition still_waiting {St S} (present : ApplicationState S → St)
    (allocated : S) (failures : list S) (tick : AllocationTick St) : Prop :=
  ∃ appState, tick_state tick = Ok (present appState) ∧
    (Status appState ∉ failures) ∧
    (Status appState = allocated → tick_resource tick = Ok None).

(** A tick that finds the allocation made and [answer] to its resource
    request. *)
Definition allocated_with {St S} (present : ApplicationState S → St)
    (allocated : S) (answer : result (option ApplicationResource) error)
    (tick : AllocationTick St) : Prop :=
  ∃ appState, tick_state tick = Ok (present appState) ∧
    Status appState = allocated ∧ tick_resource tick = answer.

(** The environment [env] with other answers to the requests of the
    cleanup. *)
Definition with_deallocation (answer : result unit error)
    (answers : list (result (ApplicationState string) error))
    (env : Environment) : Environment :=
  {| env_endpointURL := env_endpointURL env;
     env_me := env_me env; env_stream := env_stream env;
     env_labels := env_labels env; env_now := env_now env;
     env_created := env_created env;
     env_allocation := env_allocation env;
     env_access := env_access env;
     env_connect_ssh := env_connect_ssh env;
     env_provision := env_provision env;
     env_image_task := env_image_task env;
     env_image_ticks := env_image_ticks env;
     env_deallocate := answer;
     env_deallocation := answers |}.

(** What a run returned, and the state bag and configuration it left. *)
Definition returned (run : option (result Artifact error * World))
    : option (result Artifact error * gmap string Value * Config) :=
  (λ r, (r.1, bag r.2, config r.2)) <$> run.

(** ** Observations on the remote access *)

(** The communicator settings after the Setup-Remote-Access step took the
    credentials of [access] and the port [sshPort]: a credential that the
    service left empty keeps the configured one. *)
Definition with_access (access : option ApplicationResourceAccess)
    (sshPort : Z) (c : CommunicatorConfig) : CommunicatorConfig :=
  {| Type_ := Type_ c; SSHHost := SSHHost c; SSHPort := sshPort;
     SSHUsername :=
       if bool_decide (GetUsername access = "") then SSHUsername c
       else GetUsername access;
     SSHPassword :=
       if bool_decide (GetPassword access = "") then SSHPassword c
       else GetPassword access;
     SSHPrivateKey :=
       if bool_decide (GetKey access = "") then SSHPrivateKey c
       else GetKey access |}.

(** What a step returned and what it left, the printed lines apart. *)
Definition outcome_of (run : option (StepAction * World))
    : option (StepAction * Config * gmap string Value * list Request) :=
  (λ r, (r.1, config r.2, bag r.2, calls r.2)) <$> run.

(** ** Observations on the connection *)

(** The client that the Connect step on the RPC client builds for the
    parsed endpoint [u]: an empty path becomes ["grpc"]. *)
Definition client_of (cfg : Config) (u : URL) : APIClient :=
  NewAPIClient
    (URL_String u (if bool_decide (URL_Path u = "") then "grpc" else URL_Path u))
    (Username cfg) (Password cfg).

(** The error that the earlier Connect step records for a probe that did
    not end in status 200. *)
Definition probe_error (resp : result RESTClient.Response error) : error :=
  match resp with
  | Err err => Errorf "API connection failed: %v" [arg_err err]
  | Ok resp =>
      if bool_decide (RESTClient.StatusCode resp = 401)
      then Errorf "authentication failed" []
      else Errorf "API connection test failed" []
  end.

(** [s] ends in a slash. *)
Definition ends_in_slash (s : string) : Prop := ∃ s', s = s' +:+ "/".

(** The capture step accepts the result of [task]: it is not empty and its
    status, if it has one, is neither "failed" nor "error". *)
Definition captured (task : ApplicationTask) : Prop :=
  (0 < size (Task_Result task))%nat ∧
  ∀ status, Task_Result task !! "status" = Some status →
    status ≠ any_string "failed" ∧ status ≠ any_string "error".

(** * Properties *)

(** ** Running the step monad *)

Lemma run_bind {A B} (m : M A) (k : A → M B) w :
  (m ≫= k) w = match m w with Some (a, w') => k a w' | None => None end.
Proof. reflexivity. Qed.

Lemma run_bind_Some {A B} (m : M A) (k : A → M B) w a w' :
  m w = Some (a, w') → (m ≫= k) w = k a w'.
Proof. intros E. rewrite run_bind, E. reflexivity. Qed.

(** Unfolds the primitive operations of the monad, and nothing else. *)
Ltac run :=
  cbv beta iota zeta delta
    [mbind mret M_bind M_ret Get GetOk Put request print read_config
     update_Communicator halt_with halt_loop panic
     as_Ui as_APIClient as_Label as_Application as_ApplicationResource
     as_map as_error update_generated_data foldl fst snd];
  cbn [bag config calls ui put sent printed reconfigured].

(** Reads a key of a state bag that is a stack of insertions. *)
Ltac look :=
  repeat first
    [ rewrite lookup_insert_eq
    | rewrite lookup_insert_ne by discriminate
    | rewrite lookup_empty ].

Ltac run_look := run; repeat (progress (look; run)).

Lemma lifecycle_app l1 l2 : lifecycle (l1 ++ l2) = lifecycle l1 ++ lifecycle l2.
Proof. apply List.filter_app. Qed.

Lemma lifecycle_snoc_other l r :
  is_lifecycle r = false → lifecycle (l ++ [r]) = lifecycle l.
Proof.
  intros H. rewrite lifecycle_app. unfold lifecycle at 2. cbn.
  rewrite H. apply app_nil_r.
Qed.

Ltac quiet :=
  repeat (rewrite lifecycle_snoc_other by reflexivity); try reflexivity.

(** Runs a step along every branch of its control flow; [tac] rewrites what
    is known of the state bag. *)
Ltac branch_using tac :=
  repeat first
    [ progress run
    | progress look
    | progress tac
    | match goal with
      | |- context [bool_decide ?P] => destruct (bool_decide_reflect P)
      | |- context [match ?x with _ => _ end] =>
          lazymatch x with
          | context [match _ with _ => _ end] => fail
          | _ => destruct x eqn:?
          end
      end ].

Ltac branch := branch_using idtac.

Ltac finish_step :=
  eexists _, _; split; [reflexivity|]; unfold step_outcome; run;
  split; [reflexivity|]; split; [quiet|]; eauto.

(** ** The steps, one by one *)

Lemma StepFindLabel_Run_outcome answer w c :
  bag w !! "ui" = Some VUi →
  bag w !! "api_client" = Some (VClient c) →
  ∃ a w', StepFindLabel_Run answer w = Some (a, w') ∧
    step_outcome w a w' (λ b, ∃ label,
      b = <["selected_label" := VLabel label]> (bag w)).
Proof.
  intros Hui Hc. unfold StepFindLabel_Run, store_selected_label.
  run. rewrite Hui, Hc. branch; finish_step.
Qed.

Lemma StepConnectAPI_Run_outcome u me stream w :
  bag w !! "ui" = Some VUi →
  ∃ a w', StepConnectAPI_Run (Some u) me stream w = Some (a, w') ∧
    step_outcome w a w' (λ b, ∃ c,
      b = match stream with
          | Ok _ => <["subscribe_stream" := VStream]>
          | Err _ => id
          end (<["api_client" := VClient c]> (bag w))).
Proof.
  intros Hui. unfold StepConnectAPI_Run. run. rewrite Hui.
  branch; finish_step.
Qed.

Lemma StepCreateApplication_Run_outcome now answer w c label g :
  bag w !! "ui" = Some VUi →
  bag w !! "api_client" = Some (VClient c) →
  bag w !! "selected_label" = Some (VLabel label) →
  bag w !! "generated_data" = Some (VGenerated g) →
  ∃ a w', StepCreateApplication_Run now answer w = Some (a, w') ∧
    config w' = config w ∧
    lifecycle (calls w') = lifecycle (calls w) ++
      [CreateApplication
         {| Application_UID := "";
            Application_LabelUID := Label_UID label;
            Application_Metadata :=
              application_metadata (ApplicationMetadata (config w)) now |}] ∧
    match a with
    | ActionHalt => ∃ e, answer = Err e ∧ ∃ e', bag w' = <["error" := VError e']> (bag w)
    | ActionContinue => ∃ createdApp, answer = Ok createdApp ∧
        bag w' = <["generated_data" :=
                     VGenerated (<["ApplicationUID" :=
                                     any_string (Application_UID createdApp)]> g)]>
                   (<["application" := VApplication createdApp]> (bag w))
    end.
Proof.
  intros Hui Hc Hl Hg. unfold StepCreateApplication_Run. run.
  rewrite Hui, Hc, Hl. destruct answer as [createdApp|err]; run; look;
    rewrite ?Hg; run.
  all: eexists _, _; split; [reflexivity|]; run.
  all: split; [reflexivity|]; split;
    [rewrite lifecycle_app; reflexivity | eauto].
Qed.

Lemma sdk_step_Run_outcome outcome w :
  ∃ a w', sdk_step_Run outcome w = Some (a, w') ∧
    step_outcome w a w' (λ b, b = bag w).
Proof. unfold sdk_step_Run. destruct outcome; run; finish_step. Qed.

(** ** Polling loops *)

(** A loop whose ticker case keeps an invariant, and establishes the
    postcondition whenever it returns, establishes it however many ticks it
    receives. *)
Lemma poll_outcome {T L A} (P : T → Prop) (I : World → Prop)
    (Q : A → World → Prop) (on_deadline : M A)
    (on_tick : T → L → M (Iteration L A)) :
  (∀ w, I w → ∃ a w', on_deadline w = Some (a, w') ∧ Q a w') →
  (∀ t vars w, P t → I w → ∃ it w', on_tick t vars w = Some (it, w') ∧
     match it with Continue _ => I w' | Return a => Q a w' end) →
  ∀ ticks vars w, Forall P ticks → I w →
    ∃ a w', poll on_deadline on_tick ticks vars w = Some (a, w') ∧ Q a w'.
Proof.
  intros Hdeadline Htick ticks.
  induction ticks as [|tick later IH]; intros vars w HP HI; cbn [poll].
  - apply Hdeadline, HI.
  - inversion_clear HP as [|? ? Ht Hlater].
    destruct (Htick tick vars w Ht HI) as (it & w1 & E & H).
    rewrite (run_bind_Some _ _ _ _ _ E).
    destruct it as [vars'|a].
    + apply IH; assumption.
    + exists a, w1. split; [reflexivity | exact H].
Qed.

(** The same for a loop whose ticker case may panic: the loop panics only
    where the ticker case does. *)
Lemma poll_outcome_or_panic {T L A} (P : T → Prop) (I : World → Prop)
    (Q : A → World → Prop) (panics : Prop) (on_deadline : M A)
    (on_tick : T → L → M (Iteration L A)) :
  (∀ w, I w → ∃ a w', on_deadline w = Some (a, w') ∧ Q a w') →
  (∀ t vars w, P t → I w →
     match on_tick t vars w with
     | Some (Continue _, w') => I w'
     | Some (Return a, w') => Q a w'
     | None => panics
     end) →
  ∀ ticks vars w, Forall P ticks → I w →
    match poll on_deadline on_tick ticks vars w with
    | Some (a, w') => Q a w'
    | None => panics
    end.
Proof.
  intros Hdeadline Htick ticks.
  induction ticks as [|tick later IH]; intros vars w HP HI; cbn [poll].
  - destruct (Hdeadline w HI) as (a & w' & -> & H). exact H.
  - inversion_clear HP as [|? ? Ht Hlater].
    specialize (Htick tick vars w Ht HI). rewrite run_bind.
    destruct (on_tick tick vars w) as [[[vars'|a] w1]|]; [|exact Htick..].
    apply IH; assumption.
Qed.

Ltac finish_tick :=
  eexists _, _; split; [reflexivity|];
  unfold step_outcome, only_polled in *; run;
  intuition (try congruence; quiet; eauto).

Lemma fetch_resource_outcome {S} application answer (lastStatus : S) w0 w g :
  bag w0 !! "generated_data" = Some (VGenerated g) →
  only_polled w0 w →
  ∃ it w', fetch_resource application answer lastStatus w = Some (it, w') ∧
    match it with
    | Continue _ => only_polled w0 w'
    | Return a => step_outcome w0 a w' (λ b, ∃ resource,
        answer = Ok (Some resource) ∧ b = with_resource resource g (bag w0))
    end.
Proof.
  intros Hg (Hcfg & Hbag & Hcalls). unfold fetch_resource, with_resource.
  destruct answer as [[resource|]|err]; run; look; rewrite ?Hbag, ?Hg; run.
  all: eexists _, _; split; [reflexivity|];
    unfold step_outcome, only_polled; run; rewrite ?Hbag.
  all: repeat split; try assumption; quiet; eauto.
Qed.

Lemma allocation_timeout_outcome w0 w P :
  only_polled w0 w →
  ∃ a w', allocation_timeout w = Some (a, w') ∧ step_outcome w0 a w' P.
Proof.
  intros (Hcfg & Hbag & Hcalls). unfold allocation_timeout. run.
  eexists _, _; split; [reflexivity|]. unfold step_outcome. run.
  rewrite Hbag. eauto.
Qed.

Lemma StepWaitForAllocation_tick_outcome application tick lastStatus w0 w g :
  bag w0 !! "generated_data" = Some (VGenerated g) →
  only_polled w0 w →
  match StepWaitForAllocation_tick application tick lastStatus w with
  | Some (Continue _, w') => only_polled w0 w'
  | Some (Return a, w') => step_outcome w0 a w' (λ b, ∃ resource,
      tick_resource tick = Ok (Some resource) ∧
      b = with_resource resource g (bag w0))
  | None => tick_state tick = Ok None
  end.
Proof.
  intros Hg Hw. unfold StepWaitForAllocation_tick.
  assert (Hfetch : ∀ w1 (last : ApplicationState_Status), only_polled w0 w1 →
    match fetch_resource application (tick_resource tick) last w1 with
    | Some (Continue _, w') => only_polled w0 w'
    | Some (Return a, w') => step_outcome w0 a w' (λ b, ∃ resource,
        tick_resource tick = Ok (Some resource) ∧
        b = with_resource resource g (bag w0))
    | None => tick_state tick = Ok None
    end).
  { intros w1 last H1.
    destruct (fetch_resource_outcome application (tick_resource tick) last
                w0 w1 g Hg H1) as (it & w' & -> & H).
    destruct it; exact H. }
  destruct Hw as (Hcfg & Hbag & Hcalls).
  destruct (tick_state tick) as [[[status description]|]|err]; run.
  - cbn [GetStatus GetDescription from_option Status Description].
    destruct (bool_decide (status ≠ lastStatus)); run;
      destruct status; run;
      try (apply Hfetch; unfold only_polled; run; repeat split; quiet; eauto);
      unfold step_outcome, only_polled; run; rewrite ?Hbag;
      repeat split; quiet; eauto.
  - destruct (bool_decide _); reflexivity.
  - unfold step_outcome; run; rewrite ?Hbag; repeat split; quiet; eauto.
Qed.

Lemma StepWaitForAllocation_Run_outcome ticks w c application g :
  bag w !! "ui" = Some VUi →
  bag w !! "api_client" = Some (VClient c) →
  bag w !! "application" = Some (VApplication application) →
  bag w !! "generated_data" = Some (VGenerated g) →
  match StepWaitForAllocation_Run ticks w with
  | Some (a, w') =>
      step_outcome w a w' (λ b, ∃ tick resource,
        tick ∈ ticks ∧ tick_resource tick = Ok (Some resource) ∧
        b = with_resource resource g (bag w))
  | None => answers_without_state ticks
  end.
Proof.
  intros Hui Hc Ha Hg. unfold StepWaitForAllocation_Run. run.
  rewrite Hui, Hc, Ha. run. unfold StepWaitForAllocation_loop.
  apply (poll_outcome_or_panic (λ tick, tick ∈ ticks) (only_polled w)
           (λ a w', step_outcome w a w' _)).
  - intros w1 H1. apply allocation_timeout_outcome, H1.
  - intros tick vars w1 Hin H1.
    pose proof (StepWaitForAllocation_tick_outcome application tick vars w w1 g
                  Hg H1) as H.
    destruct (StepWaitForAllocation_tick application tick vars w1)
      as [[[vars'|a] w']|]; [exact H| |exists tick; auto].
    destruct H as (? & ? & H). repeat split; try assumption.
    destruct a; [|exact H]. destruct H as (resource & ? & ?). eauto.
  - apply Forall_forall. auto.
  - unfold only_polled. run. auto.
Qed.

Lemma resolve_ssh_endpoint_run address w :
  ∃ w', resolve_ssh_endpoint address w = Some (ssh_endpoint (config w) address, w') ∧
    config w' = config w ∧ bag w' = bag w ∧ calls w' = calls w.
Proof.
  unfold resolve_ssh_endpoint, ssh_endpoint.
  destruct (ParseSSHAddress address) as [[sshHost sshPort]|err]; run;
    eexists; split; try reflexivity; run; auto.
Qed.

Lemma StepSetupSSH_Run_outcome answer w c resource g :
  bag w !! "ui" = Some VUi →
  bag w !! "api_client" = Some (VClient c) →
  bag w !! "application_resource" = Some (VResource resource) →
  bag w !! "generated_data" = Some (VGenerated g) →
  ∃ a w', StepSetupSSH_Run answer w = Some (a, w') ∧
    lifecycle (calls w') = lifecycle (calls w) ∧
    match answer with
    | Err err =>
        a = ActionHalt ∧
        bag w' = <["error" := VError (Errorf "failed to get SSH access: %v"
                                        [arg_err err])]> (bag w)
    | Ok access =>
        a = ActionContinue ∧
        bag w' = with_ssh (ssh_endpoint (config w) (GetAddress access))
                   access g (bag w)
    end.
Proof.
  intros Hui Hc Hr Hg. unfold StepSetupSSH_Run. run. rewrite Hui, Hc, Hr. run.
  destruct answer as [access|err]; run.
  2: { eexists _, _; split; [reflexivity|]; run. split; [quiet|]. eauto. }
  match goal with
  | |- context [resolve_ssh_endpoint ?address ?w1] =>
      destruct (resolve_ssh_endpoint_run address w1) as (w2 & E & Hcfg & Hbag & Hcalls);
      rewrite E; revert Hcfg Hbag Hcalls; run; intros Hcfg Hbag Hcalls
  end.
  unfold with_ssh, with_ssh_data. rewrite ?Hcfg.
  destruct (ssh_endpoint (config w) (GetAddress access))
    as [sshHost sshPort] eqn:Hendpoint.
  branch_using ltac:(rewrite ?Hbag, ?Hg).
  all: eexists _, _; split; [reflexivity|]; run.
  all: rewrite Hcalls, ?Hbag; split; [quiet|].
  all: split; reflexivity.
Qed.

Lemma classify_image_result_outcome currentTask w0 w :
  only_polled w0 w →
  ∃ a w', classify_image_result currentTask w = Some (a, w') ∧
    step_outcome w0 a w' (λ b, b = with_image currentTask (bag w0)).
Proof.
  intros (Hcfg & Hbag & Hcalls).
  unfold classify_image_result, store_image_task, with_image.
  branch.
  all: eexists _, _; split; [reflexivity|]; unfold step_outcome; run.
  all: rewrite ?Hbag; repeat split; quiet; eauto.
Qed.

Lemma StepCreateImage_tick_outcome createdTask answer vars w0 w :
  only_polled w0 w →
  ∃ it w', StepCreateImage_tick createdTask answer vars w = Some (it, w') ∧
    match it with
    | Continue _ => only_polled w0 w'
    | Return a => step_outcome w0 a w' (λ b, ∃ task,
        answer = Ok task ∧ 0 < Z.of_nat (size (Task_Result task)) ∧
        b = with_image task (bag w0))
    end.
Proof.
  intros Hw. unfold StepCreateImage_tick. run.
  destruct answer as [currentTask|err]; run.
  - case_bool_decide as Hsize; run.
    + match goal with
      | |- context [classify_image_result _ ?w1] =>
          destruct (classify_image_result_outcome currentTask w0 w1)
            as (a & w' & E & H1 & H2 & H3)
      end.
      { destruct Hw as (? & ? & ?). unfold only_polled; run.
        repeat split; quiet; auto. }
      rewrite E. exists (Return a), w'. split; [reflexivity|].
      repeat split; try assumption. destruct a; [|exact H3].
      exists currentTask. repeat split; [lia | exact H3].
    + destruct Hw as (? & ? & ?). finish_tick.
  - destruct Hw as (? & Hbag & ?). finish_tick. rewrite Hbag. eauto.
Qed.

Lemma StepCreateImage_Run_outcome answer ticks w c application :
  bag w !! "ui" = Some VUi →
  bag w !! "api_client" = Some (VClient c) →
  bag w !! "application" = Some (VApplication application) →
  ∃ a w', StepCreateImage_Run answer ticks w = Some (a, w') ∧
    step_outcome w a w' (λ b, ∃ task, b = with_image task (bag w)).
Proof.
  intros Hui Hc Ha. unfold StepCreateImage_Run. run. rewrite Hui, Hc, Ha. run.
  destruct answer as [createdTask|err]; run; [|finish_step].
  unfold StepCreateImage_loop.
  apply (poll_outcome (λ _, True) (only_polled w)).
  - intros w1 (Hcfg & Hbag & Hcalls). run.
    eexists _, _; split; [reflexivity|]. unfold step_outcome; run.
    rewrite Hbag. eauto.
  - intros tick vars w1 _ H1.
    destruct (StepCreateImage_tick_outcome createdTask tick vars w w1 H1)
      as (it & w' & E & H).
    exists it, w'. split; [exact E|]. destruct it as [|a]; [exact H|].
    destruct H as (? & ? & H). repeat split; try assumption.
    destruct a; [|exact H]. destruct H as (task & ? & ? & ?). eauto.
  - apply Forall_forall. auto.
  - unfold only_polled. run. repeat split; quiet.
Qed.

(** The cleanup action only prints and sends requests. *)
Lemma StepCleanup_wait_run application ticks w :
  ∃ w', StepCleanup_wait application ticks w = Some (tt, w') ∧ only_polled w w'.
Proof.
  unfold StepCleanup_wait.
  destruct (poll_outcome (λ _, True) (only_polled w)
              (λ (_ : unit) w', only_polled w w')
              (print (Say "Deallocation timeout reached, but continuing..." []))
              (StepCleanup_tick application)) with (ticks := ticks) (vars := tt) (w := w)
    as ([] & w' & E & H).
  - intros w1 (? & ? & ?). eexists _, _; split; [reflexivity|].
    unfold only_polled; run. auto.
  - intros answer [] w1 _ (? & ? & ?). unfold StepCleanup_tick.
    branch; eexists _, _; (split; [reflexivity|]); unfold only_polled; run;
      repeat split; quiet; auto.
  - apply Forall_forall. auto.
  - unfold only_polled. auto.
  - eauto.
Qed.

Lemma StepCleanup_Cleanup_skips answer ticks w :
  bag w !! "ui" = Some VUi →
  bag w !! "api_client" = None
  ∨ (∃ c, bag w !! "api_client" = Some (VClient c)) ∧ bag w !! "application" = None →
  ∃ w', StepCleanup_Cleanup answer ticks w = Some (tt, w') ∧
    config w' = config w ∧ bag w' = bag w ∧ calls w' = calls w.
Proof.
  intros Hui H. unfold StepCleanup_Cleanup. run. rewrite Hui. run.
  destruct H as [Hc|[[c Hc] Ha]]; rewrite Hc; run; rewrite ?Ha; run;
    eexists; split; try reflexivity; run; auto.
Qed.

Lemma StepCleanup_Cleanup_deallocates answer ticks w c application :
  bag w !! "ui" = Some VUi →
  bag w !! "api_client" = Some (VClient c) →
  bag w !! "application" = Some (VApplication application) →
  ∃ w', StepCleanup_Cleanup answer ticks w = Some (tt, w') ∧
    config w' = config w ∧ bag w' = bag w ∧
    lifecycle (calls w') =
      lifecycle (calls w) ++ [DeallocateApplication (Application_UID application)].
Proof.
  intros Hui Hc Ha. unfold StepCleanup_Cleanup. run. rewrite Hui, Hc, Ha. run.
  destruct answer as [[]|err]; run.
  - match goal with
    | |- context [StepCleanup_wait _ _ ?w1] =>
        destruct (StepCleanup_wait_run application ticks w1)
          as (w' & E & Hcfg & Hbag & Hcalls)
    end.
    rewrite E. exists w'. split; [reflexivity|].
    revert Hcfg Hbag Hcalls. run. rewrite lifecycle_app. auto.
  - eexists; split; [reflexivity|]. run. rewrite lifecycle_app. auto.
Qed.

(** ** The runner and the driver *)

Lemma run_steps_cons_quiet run later w :
  run_steps ({| Run := run; Cleanup := nothing_to_clean |} :: later) w
  = match run w with
    | Some (ActionContinue, w') => run_steps later w'
    | Some (ActionHalt, w') => Some (tt, w')
    | None => None
    end.
Proof.
  cbn [run_steps Run Cleanup]. unfold nothing_to_clean. run.
  destruct (run w) as [[[] w']|]; try reflexivity.
  destruct (run_steps later w') as [[[] w'']|]; reflexivity.
Qed.

Lemma Builder_Run_ending env cfg :
  Builder_Run env (new_world cfg)
  = match run_steps (Builder_later_steps env)
            {| config := cfg; bag := initial_bag; calls := []; ui := [] |} with
    | Some (_, w) => Builder_ending env w
    | None => None
    end.
Proof.
  unfold Builder_Run, Builder_ending, new_world.
  change (Builder_steps env)
    with ({| Run := StepCleanup_Run;
             Cleanup := StepCleanup_Cleanup (env_deallocate env)
                          (env_deallocation env) |}
          :: Builder_later_steps env).
  cbn [run_steps Run Cleanup]. unfold StepCleanup_Run. run. fold initial_bag.
  destruct (run_steps _ _) as [[[] w]|]; [|reflexivity].
  destruct (StepCleanup_Cleanup _ _ w) as [[[] w']|]; reflexivity.
Qed.

Section ending.
Context (env : Environment) (w : World).
Hypothesis Hui : bag w !! "ui" = Some VUi.

Lemma ending_without_application e :
  bag w !! "error" = Some (VError e) →
  bag w !! "api_client" = None
  ∨ (∃ c, bag w !! "api_client" = Some (VClient c))
    ∧ bag w !! "application" = None →
  ∃ w', Builder_ending env w = Some (Err e, w') ∧
    bag w' = bag w ∧ calls w' = calls w.
Proof.
  intros He Hskip. unfold Builder_ending.
  destruct (StepCleanup_Cleanup_skips (env_deallocate env)
              (env_deallocation env) w Hui Hskip) as (w' & E & _ & Hbag & Hcalls).
  rewrite (run_bind_Some _ _ _ _ _ E). run. rewrite Hbag, He. run. eauto.
Qed.

Lemma ending_with_application c app :
  bag w !! "api_client" = Some (VClient c) →
  bag w !! "application" = Some (VApplication app) →
  (∃ e, bag w !! "error" = Some (VError e))
  ∨ bag w !! "error" = None ∧ (∃ g, bag w !! "generated_data" = Some (VGenerated g)) →
  ∃ r w', Builder_ending env w = Some (r, w') ∧
    bag w' = bag w ∧
    lifecycle (calls w') =
      lifecycle (calls w) ++ [DeallocateApplication (Application_UID app)] ∧
    match bag w !! "error" with
    | Some (VError e) => r = Err e
    | _ => ∀ g, bag w !! "generated_data" = Some (VGenerated g) →
        r = Ok {| StateData := {[ "generated_data" := VGenerated g ]} |}
    end.
Proof.
  intros Hc Ha He. unfold Builder_ending.
  destruct (StepCleanup_Cleanup_deallocates (env_deallocate env)
              (env_deallocation env) w c app Hui Hc Ha)
    as (w' & E & _ & Hbag & Hcalls).
  rewrite (run_bind_Some _ _ _ _ _ E). run. rewrite Hbag.
  destruct He as [[e He]|[He [g Hg]]]; rewrite He; run.
  - eauto 10.
  - rewrite Hbag, Hg. run. eexists _, w'.
    split; [reflexivity|]. repeat split; try assumption.
    intros g' [= <-]. reflexivity.
Qed.
End ending.

(** Reads the state bag of a later world through the equations that relate
    it to the earlier ones. *)
Ltac read_bag :=
  repeat match goal with
         | H : bag ?w = _ |- context [bag ?w] => rewrite H
         end;
  cbn [id]; look; try eassumption; try reflexivity.

Section after_connect.
Context (cfg : Config) (env : Environment) (w1 : World) (c : APIClient).
Hypothesis Hc1 : config w1 = cfg.
Hypothesis Hl1 : lifecycle (calls w1) = [].
Hypothesis Hui : bag w1 !! "ui" = Some VUi.
Hypothesis Hclient : bag w1 !! "api_client" = Some (VClient c).
Hypothesis Hgen : bag w1 !! "generated_data" = Some (VGenerated ∅).
Hypothesis Herr : bag w1 !! "error" = None.
Hypothesis Happ : bag w1 !! "application" = None.

Lemma Builder_Run_after_connect :
  Run_outcome cfg env
    match run_steps (tail (Builder_later_steps env)) w1 with
    | Some (_, w) => Builder_ending env w
    | None => None
    end.
Proof.
  unfold Builder_later_steps, Builder_steps. cbn [tail].
  (* Find-Template *)
  rewrite run_steps_cons_quiet.
  destruct (StepFindLabel_Run_outcome (env_labels env) w1 c)
    as (a & w2 & E & Hc2 & Hl2 & H2); [read_bag..|]. rewrite E; clear E.
  destruct a.
  2: { destruct H2 as (e & Hb2).
       destruct (ending_without_application env w2) with (e := e)
         as (w' & E & Hb' & Hl'); [read_bag | read_bag | right; split; [eexists|]; read_bag |].
       rewrite E.
       apply failed_before_creation; [congruence | rewrite Hb'; read_bag]. }
  destruct H2 as (label & Hb2).
  (* Create-Allocation *)
  rewrite run_steps_cons_quiet.
  destruct (StepCreateApplication_Run_outcome (env_now env) (env_created env)
              w2 c label ∅)
    as (a & w3 & E & Hc3 & Hl3 & H3); [read_bag..|]. rewrite E; clear E.
  rewrite Hl2, Hl1, Hc2, Hc1 in Hl3. cbn [app] in Hl3.
  fold (creation_request cfg env label) in Hl3.
  destruct a.
  2: { destruct H3 as (err & Hcreated & e & Hb3).
       destruct (ending_without_application env w3) with (e := e)
         as (w' & E & Hb' & Hl'); [read_bag | read_bag | right; split; [eexists|]; read_bag |].
       rewrite E.
       eapply failed_creation; [eassumption | rewrite Hl'; eassumption | rewrite Hb'; read_bag]. }
  destruct H3 as (app & Hcreated & Hb3).
  (* From here on the application is in the state bag. *)
  assert (Hfail : ∀ w e,
    bag w !! "ui" = Some VUi →
    bag w !! "api_client" = Some (VClient c) →
    bag w !! "application" = Some (VApplication app) →
    bag w !! "error" = Some (VError e) →
    lifecycle (calls w) = [creation_request cfg env label] →
    Run_outcome cfg env (Builder_ending env w)).
  { intros w e ? ? ? He Hl.
    destruct (ending_with_application env w) with (c := c) (app := app)
      as (r & w' & E & Hb' & Hl' & Hr); [assumption..|eauto|].
    rewrite He in Hr. subst r. rewrite E.
    eapply failed_after_creation;
      [eassumption | rewrite Hl', Hl; reflexivity | rewrite Hb'; assumption]. }
  (* Wait-For-Ready *)
  rewrite run_steps_cons_quiet.
  pose proof (StepWaitForAllocation_Run_outcome (env_allocation env) w3 c app
                (<["ApplicationUID" := any_string (Application_UID app)]> ∅))
    as H4.
  destruct (StepWaitForAllocation_Run (env_allocation env) w3)
    as [[a w4]|]; [|right; apply H4; read_bag].
  destruct H4 as (Hc4 & Hl4 & H4); [read_bag..|].
  rewrite Hl3 in Hl4.
  destruct a.
  2: { destruct H4 as (e & Hb4). apply (Hfail w4 e); auto; read_bag. }
  destruct H4 as (tick & resource & Htick & Hresource & Hb4).
  unfold with_resource in Hb4.
  (* Setup-Remote-Access *)
  rewrite run_steps_cons_quiet.
  destruct (StepSetupSSH_Run_outcome (env_access env) w4 c resource
              (<["ResourceUID" := any_string (Resource_UID resource)]>
                 (<["ApplicationUID" := any_string (Application_UID app)]> ∅)))
    as (a & w5 & E & Hl5 & H5); [read_bag..|]. rewrite E; clear E.
  rewrite Hl4 in Hl5. rewrite Hc4, Hc3, Hc2, Hc1 in H5.
  destruct (env_access env) as [access|err] eqn:Haccess;
    destruct H5 as [-> Hb5].
  2: { eapply (Hfail w5); auto; read_bag. }
  unfold with_ssh in Hb5.
  (* Remote shell *)
  rewrite run_steps_cons_quiet.
  destruct (sdk_step_Run_outcome (env_connect_ssh env) w5)
    as (a & w6 & E & _ & Hl6 & H6). rewrite E; clear E.
  rewrite Hl5 in Hl6.
  destruct a.
  2: { destruct H6 as (e & Hb6). apply (Hfail w6 e); auto; read_bag. }
  (* Provisioning hook *)
  rewrite run_steps_cons_quiet.
  destruct (sdk_step_Run_outcome (env_provision env) w6)
    as (a & w7 & E & _ & Hl7 & H7). rewrite E; clear E.
  rewrite Hl6 in Hl7.
  destruct a.
  2: { destruct H7 as (e & Hb7). apply (Hfail w7 e); auto; read_bag. }
  (* Create-Output-Artifact *)
  rewrite run_steps_cons_quiet.
  destruct (StepCreateImage_Run_outcome (env_image_task env)
              (env_image_ticks env) w7 c app)
    as (a & w8 & E & _ & Hl8 & H8); [read_bag..|]. rewrite E; clear E.
  rewrite Hl7 in Hl8.
  destruct a.
  2: { destruct H8 as (e & Hb8). apply (Hfail w8 e); auto; read_bag. }
  destruct H8 as (task & Hb8). unfold with_image in Hb8.
  (* The run succeeded. *)
  cbn [run_steps]. run.
  destruct (ending_with_application env w8) with (c := c) (app := app)
    as (r & w' & E & Hb' & Hl' & Hr); [read_bag..| |].
  { right. split; [read_bag|]. eexists. read_bag. }
  rewrite E.
  assert (He : bag w8 !! "error" = None) by read_bag.
  rewrite He in Hr. erewrite Hr by read_bag.
  eapply succeeded; try eassumption.
  - rewrite Hl', Hl8. reflexivity.
  - rewrite Hb'. read_bag.
Qed.
End after_connect.

Lemma Builder_Run_without_endpoint cfg env :
  env_endpointURL env = None → Builder_Run env (new_world cfg) = None.
Proof.
  intros Hu. rewrite Builder_Run_ending.
  change (Builder_later_steps env)
    with ({| Run := StepConnectAPI_Run (env_endpointURL env) (env_me env)
                      (env_stream env);
             Cleanup := nothing_to_clean |}
          :: tail (Builder_later_steps env)).
  rewrite Hu, run_steps_cons_quiet. reflexivity.
Qed.

Lemma Builder_Run_summary cfg env :
  Run_outcome cfg env (Builder_Run env (new_world cfg)).
Proof.
  destruct (env_endpointURL env) as [u|] eqn:Hu.
  2: { rewrite (Builder_Run_without_endpoint _ _ Hu). left. exact Hu. }
  rewrite Builder_Run_ending.
  set (w0 := {| config := cfg; bag := initial_bag; calls := []; ui := [] |}).
  assert (Hb0 : bag w0 = initial_bag) by reflexivity.
  assert (Hc0 : config w0 = cfg) by reflexivity.
  assert (Hl0 : lifecycle (calls w0) = []) by reflexivity.
  clearbody w0. unfold initial_bag in Hb0.
  change (Builder_later_steps env)
    with ({| Run := StepConnectAPI_Run (env_endpointURL env) (env_me env)
                      (env_stream env);
             Cleanup := nothing_to_clean |}
          :: tail (Builder_later_steps env)).
  rewrite Hu, run_steps_cons_quiet.
  destruct (StepConnectAPI_Run_outcome u (env_me env) (env_stream env) w0)
    as (a & w1 & E & Hc1 & Hl1 & H1); [read_bag|]. rewrite E; clear E.
  destruct a.
  2: { destruct H1 as (e & Hb1).
       destruct (ending_without_application env w1) with (e := e)
         as (w' & E & Hb' & Hl'); [read_bag | read_bag | left; read_bag |].
       rewrite E.
       apply failed_before_creation; [congruence | rewrite Hb'; read_bag]. }
  destruct H1 as (c & Hb1).
  apply (Builder_Run_after_connect cfg env w1 c); try congruence.
  all: rewrite Hb1; destruct (env_stream env); read_bag.
Qed.

(** A run that panics nowhere ends. *)
Lemma Builder_Run_ends cfg env :
  ¬ Run_panics env →
  ∃ r w, Builder_Run env (new_world cfg) = Some (r, w) ∧ Run_summary cfg env r w.
Proof.
  intros Hsafe. pose proof (Builder_Run_summary cfg env) as H.
  destruct (Builder_Run env (new_world cfg)) as [[r w]|]; [eauto|].
  contradiction.
Qed.

(** ** Deallocation *)

Lemma deallocations_lifecycle l : deallocations (lifecycle l) = deallocations l.
Proof.
  induction l as [|r l IH]; [reflexivity|].
  unfold lifecycle, deallocations in *. destruct r; cbn; rewrite ?IH; reflexivity.
Qed.

Lemma creation_in_lifecycle l request :
  CreateApplication request ∈ l ↔ CreateApplication request ∈ lifecycle l.
Proof.
  unfold lifecycle. rewrite !list_elem_of_In, List.filter_In. cbn. tauto.
Qed.

(** C2.  However a run of the builder ends, with the artifact or with the
    error of whatever step failed: if an allocation was created (the
    creation request went out and was answered with an application), the
    requests of the run contain exactly one deallocation request, for the id
    of that application; if none was created they contain none.  The run
    does end, unless it panics on one of its two nil dereferences: an
    endpoint that url.Parse rejects, or a state answer that carries no
    state.  The cleanup action on a state bag without API client or without
    application sends nothing, changes nothing in the state bag (so it
    records no error) and returns. *)
Theorem cleanup_deallocates_exactly_once cfg env :
  (¬ Run_panics env → ∃ r w, Builder_Run env (new_world cfg) = Some (r, w)) ∧
  (∀ r w, Builder_Run env (new_world cfg) = Some (r, w) →
     (∀ app, allocation_created env w app →
        deallocations (calls w) = [Application_UID app]) ∧
     ((∀ app, ¬ allocation_created env w app) → deallocations (calls w) = [])) ∧
  (∀ answer ticks w,
     bag w !! "ui" = Some VUi →
     bag w !! "api_client" = None
     ∨ (∃ c, bag w !! "api_client" = Some (VClient c))
       ∧ bag w !! "application" = None →
     ∃ w', StepCleanup_Cleanup answer ticks w = Some (tt, w') ∧
       calls w' = calls w ∧ bag w' = bag w).
Proof.
  split; [|split].
  - intros Hsafe. destruct (Builder_Run_ends cfg env Hsafe) as (r & w & E & _).
    eauto.
  - intros r w E. pose proof (Builder_Run_summary cfg env) as H.
    rewrite E in H. cbn [Run_outcome] in H. clear E.
    unfold allocation_created.
    destruct H as [e w Hl Ha | e label err w Hc Hl Ha
                  | e label app w Hc Hl Ha
                  | label app tick resource access w Hc _ _ _ Hl Ha].
    + split.
      * intros app [[request Hin] _]. apply creation_in_lifecycle in Hin.
        rewrite Hl in Hin. inversion Hin.
      * intros _. rewrite <- deallocations_lifecycle, Hl. reflexivity.
    + split.
      * intros app [_ Hok]. congruence.
      * intros _. rewrite <- deallocations_lifecycle, Hl. reflexivity.
    + split.
      * intros app' [_ Hok]. rewrite <- deallocations_lifecycle, Hl.
        cbn. congruence.
      * intros Hno. exfalso. apply (Hno app). split; [|exact Hc].
        eexists. apply creation_in_lifecycle. rewrite Hl. left.
    + split.
      * intros app' [_ Hok]. rewrite <- deallocations_lifecycle, Hl.
        cbn. congruence.
      * intros Hno. exfalso. apply (Hno app). split; [|exact Hc].
        eexists. apply creation_in_lifecycle. rewrite Hl. left.
  - intros answer ticks w Hui Hskip.
    destruct (StepCleanup_Cleanup_skips answer ticks w Hui Hskip)
      as (w' & E & _ & Hbag & Hcalls).
    eauto.
Qed.

Lemma cleanup_deallocates_exactly_once_witness :
  ¬ Run_panics (Sample.env "10.0.0.7:22") ∧
  ∃ r w,
    Builder_Run (Sample.env "10.0.0.7:22") (new_world Sample.cfg) = Some (r, w) ∧
    (allocation_created (Sample.env "10.0.0.7:22") w Sample.app →
     deallocations (calls w) = ["app-1"]).
Proof.
  assert (Hsafe : ¬ Run_panics (Sample.env "10.0.0.7:22")).
  { intros [Hu|(tick & Hin & Hnil)]; [discriminate|].
    cbn in Hin. rewrite !elem_of_cons, elem_of_nil in Hin.
    destruct Hin as [->|[->|[->|[]]]]; discriminate. }
  split; [exact Hsafe|].
  destruct (cleanup_deallocates_exactly_once Sample.cfg (Sample.env "10.0.0.7:22"))
    as (Hends & Hcleanup & _).
  destruct (Hends Hsafe) as (r & w & E).
  exists r, w. split; [exact E | exact (proj1 (Hcleanup r w E) Sample.app)].
Defined.

(** ** The output artifact *)

Lemma Itoa_nonempty n : Itoa n ≠ "".
Proof.
  unfold Itoa, NilZero.string_of_int, NilZero.string_of_uint.
  destruct (Z.to_int n) as [d|d]; [|discriminate].
  destruct d; discriminate.
Qed.

(** C7, as the code has it.  The generated data of the artifact of a
    successful run has exactly the four keys ApplicationUID, ResourceUID,
    SSHHost and SSHPort, each bound to a string: the id of the created
    application, the id of the resource that the service returned, the
    resolved host, and the resolved port in decimal.  The port string is
    never empty; the other three are what the service and the configuration
    supplied, and no step checks that they are not empty. *)
Theorem successful_run_output cfg env artifact w :
  Builder_Run env (new_world cfg) = Some (Ok artifact, w) →
  ∃ app tick resource access g,
    env_created env = Ok app ∧
    tick ∈ env_allocation env ∧ tick_resource tick = Ok (Some resource) ∧
    env_access env = Ok access ∧
    StateData artifact = {[ "generated_data" := VGenerated g ]} ∧
    dom g = {[ "ApplicationUID"; "ResourceUID"; "SSHHost"; "SSHPort" ]} ∧
    g !! "ApplicationUID" = Some (any_string (Application_UID app)) ∧
    g !! "ResourceUID" = Some (any_string (Resource_UID resource)) ∧
    g !! "SSHHost"
      = Some (any_string (ssh_endpoint cfg (GetAddress access)).1) ∧
    g !! "SSHPort"
      = Some (any_string (Itoa (ssh_endpoint cfg (GetAddress access)).2)) ∧
    Itoa (ssh_endpoint cfg (GetAddress access)).2 ≠ "".
Proof.
  intros E. pose proof (Builder_Run_summary cfg env) as H.
  rewrite E in H. cbn [Run_outcome] in H.
  inversion H as [| | | label app tick resource access w0 Hc Ht Hr Ha Hl Hb Hart Hw];
    subst.
  exists app, tick, resource, access,
    (generated_data_of app resource (ssh_endpoint cfg (GetAddress access))).
  unfold generated_data_of, with_ssh_data.
  split; [assumption|]. split; [assumption|]. split; [assumption|].
  split; [assumption|]. split; [reflexivity|].
  split; [rewrite !dom_insert_L, dom_empty_L; set_solver|].
  repeat split; try (look; reflexivity). apply Itoa_nonempty.
Qed.

Lemma successful_run_output_witness :
  let run := Builder_Run (Sample.env "10.0.0.7:22") (new_world Sample.cfg) in
  run = Some (Ok (artifact_of run), world_of (new_world Sample.cfg) run) ∧
  ∃ g, StateData (artifact_of run) = {[ "generated_data" := VGenerated g ]} ∧
    dom g = {[ "ApplicationUID"; "ResourceUID"; "SSHHost"; "SSHPort" ]}.
Proof.
  intros run.
  assert (E : run = Some (Ok (artifact_of run), world_of (new_world Sample.cfg) run))
    by (vm_compute; reflexivity).
  split; [exact E|].
  destruct (successful_run_output Sample.cfg (Sample.env "10.0.0.7:22") _ _ E)
    as (_ & _ & _ & _ & g & _ & _ & _ & _ & Hart & Hdom & _).
  exists g. split; [exact Hart | exact Hdom].
Defined.

(** C7 as stated fails: a run in which every step succeeds and the service
    answers the remote access request with the address [":22"] ends with an
    artifact whose SSHHost is the empty string. *)
Lemma output_value_may_be_empty :
  published (Builder_Run (Sample.env ":22") (new_world Sample.cfg)) "SSHHost"
  = Some (any_string "").
Proof. vm_compute. reflexivity. Qed.

(** ** Wait-For-Ready: the treatment of a status *)

(** Settles a membership of a string in a list of literals. *)
Ltac members :=
  unfold not in *;
  repeat match goal with
         | H : context [_ ∈ _ :: _] |- _ => rewrite elem_of_cons in H
         | H : context [_ ∈ []] |- _ => rewrite elem_of_nil in H
         | |- context [_ ∈ _ :: _] => rewrite elem_of_cons
         | |- context [_ ∈ []] => rewrite elem_of_nil
         end;
  intuition (try discriminate; try congruence).

Ltac treat :=
  unfold treats; cbv zeta;
  intros application description answer lastStatus w;
  unfold polled, StepWaitForAllocation_tick,
    Legacy.StepWaitForAllocation_tick; run;
  cbn [tick_state tick_resource Status Description GetStatus GetDescription
       from_option];
  cbn [id]; repeat case_bool_decide; run; try reflexivity; try congruence;
  try solve [exfalso; members].

(** C1, as the code has it.  In both revisions of the loop NEW and ELECTED
    keep it waiting, ALLOCATED is the success path, ERROR and DEALLOCATED
    are terminal failures that halt the step, and a status that the switch
    does not name is logged as unknown and keeps the loop waiting.  The
    revisions differ on the other two statuses: the one on the RPC client
    treats DEALLOCATE as a terminal failure and has no case for RECALLED,
    which it logs as unknown; the earlier one on the REST client treats
    RECALLED as a terminal failure and DEALLOCATE as one more status to
    wait on. *)
Theorem wait_for_ready_treatment :
  (treats Status_String Some StepWaitForAllocation_tick NEW keep_waiting ∧
   treats Status_String Some StepWaitForAllocation_tick ELECTED keep_waiting ∧
   treats Status_String Some StepWaitForAllocation_tick ALLOCATED success_path ∧
   treats Status_String Some StepWaitForAllocation_tick ERROR terminal_failure ∧
   treats Status_String Some StepWaitForAllocation_tick DEALLOCATED terminal_failure ∧
   treats Status_String Some StepWaitForAllocation_tick DEALLOCATE terminal_failure ∧
   treats Status_String Some StepWaitForAllocation_tick RECALLED keep_waiting_logged ∧
   treats Status_String Some StepWaitForAllocation_tick UNSPECIFIED keep_waiting_logged ∧
   (∀ n, treats Status_String Some StepWaitForAllocation_tick (Status_number n)
           keep_waiting_logged)) ∧
  (treats id id Legacy.StepWaitForAllocation_tick "NEW" keep_waiting ∧
   treats id id Legacy.StepWaitForAllocation_tick "ELECTED" keep_waiting ∧
   treats id id Legacy.StepWaitForAllocation_tick "DEALLOCATE" keep_waiting ∧
   treats id id Legacy.StepWaitForAllocation_tick "ALLOCATED" success_path ∧
   treats id id Legacy.StepWaitForAllocation_tick "ERROR" terminal_failure ∧
   treats id id Legacy.StepWaitForAllocation_tick "DEALLOCATED" terminal_failure ∧
   treats id id Legacy.StepWaitForAllocation_tick "RECALLED" terminal_failure ∧
   (∀ status,
      status ∉ ["NEW"; "ELECTED"; "ALLOCATED"; "ERROR"; "DEALLOCATED";
                "DEALLOCATE"; "RECALLED"] →
      treats id id Legacy.StepWaitForAllocation_tick status keep_waiting_logged)).
Proof.
  split.
  - repeat split; [treat.. | intros n; treat].
  - repeat split; [treat.. | intros status Hstatus; treat].
Qed.

Lemma wait_for_ready_treatment_witness :
  ("PAUSED" ∉ ["NEW"; "ELECTED"; "ALLOCATED"; "ERROR"; "DEALLOCATED";
               "DEALLOCATE"; "RECALLED"]) ∧
  treats id id Legacy.StepWaitForAllocation_tick "PAUSED" keep_waiting_logged.
Proof.
  assert (H : "PAUSED" ∉ ["NEW"; "ELECTED"; "ALLOCATED"; "ERROR"; "DEALLOCATED";
                          "DEALLOCATE"; "RECALLED"]).
  { apply (bool_decide_unpack _). vm_compute. exact I. }
  split; [exact H|].
  exact (proj2 (proj2 (proj2 (proj2 (proj2 (proj2 (proj2
           (proj2 wait_for_ready_treatment))))))) "PAUSED" H).
Defined.

(** C1 as stated fails in either revision.  The earlier loop observes
    DEALLOCATE, keeps polling, and the step then succeeds on ALLOCATED; the
    loop on the RPC client does the same after RECALLED. *)
Lemma failure_status_that_keeps_waiting :
  (fst <$> Legacy.StepWaitForAllocation_Run
             [Sample.observed id "DEALLOCATE"; Sample.observed id "ALLOCATED"]
             Sample.world)
  = Some ActionContinue ∧
  (fst <$> StepWaitForAllocation_Run
             [Sample.observed Some RECALLED; Sample.observed Some ALLOCATED]
             Sample.world)
  = Some ActionContinue.
Proof. split; vm_compute; reflexivity. Qed.

(** ** Wait-For-Ready: the deadline *)

Section deadline.
Context {St S : Type} (present : ApplicationState S → St)
  (waiting : S → Prop) (allocated : S) (application : Application)
  (on_tick : AllocationTick St → S → M (Iteration S StepAction)).
Hypothesis on_tick_cases : ∀ tick lastStatus w,
  not_yet present allocated tick →
  polls_or_fails present waiting application tick w (on_tick tick lastStatus w).

Lemma poll_deadline ticks :
  Forall (not_yet present allocated) ticks →
  ∀ lastStatus w,
    halts_at_deadline present waiting application ticks w
      (poll allocation_timeout on_tick ticks lastStatus w).
Proof.
  unfold halts_at_deadline.
  induction 1 as [|tick later Htick _ IH]; intros lastStatus w; cbn [poll].
  - unfold allocation_timeout. run. eexists _, _. split; [reflexivity|].
    split; [reflexivity|]. split; [reflexivity|].
    intros _. cbn. rewrite app_nil_r. reflexivity.
  - destruct (on_tick_cases tick lastStatus w Htick)
      as (w1 & [(vars & E & Hbag & Hcalls)|(e & E & Hbag & He & Hno)]);
      rewrite (run_bind_Some _ _ _ _ _ E).
    + destruct (IH vars w1) as (e & w' & E' & Hbag' & Htimeout & Hpolled).
      exists e, w'. split; [exact E'|]. split; [congruence|]. split.
      * intros Hall. inversion_clear Hall as [|? ? _ Hlater]. auto.
      * intros He. rewrite (Hpolled He), Hcalls, <- app_assoc. reflexivity.
    + exists e, w1. split; [reflexivity|]. split; [exact Hbag|]. split.
      * intros Hall. inversion_clear Hall as [|? ? Hfirst _]. contradiction.
      * intros Heq. contradiction.
Qed.
End deadline.

Ltac tick_continues :=
  eexists; left; eexists; split; [reflexivity|]; split; reflexivity.

Ltac tick_fails Hstate :=
  eexists; right; eexists; split; [reflexivity|]; split; [reflexivity|];
  split; [discriminate|];
  intros (appState' & Hobserved & Hwaiting); rewrite Hstate in Hobserved;
  try discriminate;
  injection Hobserved as <-; cbn [Status] in Hwaiting; members.

Lemma StepWaitForAllocation_tick_cases application tick lastStatus w :
  not_yet Some ALLOCATED tick →
  polls_or_fails Some (λ status, status ∉ [ERROR; DEALLOCATED; DEALLOCATE])
    application tick w
    (StepWaitForAllocation_tick application tick lastStatus w).
Proof.
  intros Htick. unfold polls_or_fails, StepWaitForAllocation_tick. run.
  destruct (tick_state tick) as [answer|err] eqn:Hstate; run.
  - destruct (Htick _ Hstate) as ([status description] & -> & Hstatus).
    cbn [GetStatus GetDescription from_option Status Description] in *.
    destruct (bool_decide (status ≠ lastStatus)); run;
      destruct status; try congruence; run;
      first [tick_continues | tick_fails Hstate].
  - tick_fails Hstate.
Qed.

Lemma Legacy_StepWaitForAllocation_tick_cases application tick lastStatus w :
  not_yet id "ALLOCATED" tick →
  polls_or_fails id (λ status, status ∉ ["ERROR"; "DEALLOCATED"; "RECALLED"])
    application tick w
    (Legacy.StepWaitForAllocation_tick application tick lastStatus w).
Proof.
  intros Htick. unfold polls_or_fails, Legacy.StepWaitForAllocation_tick. run.
  destruct (tick_state tick) as [answer|err] eqn:Hstate; run.
  - destruct (Htick _ Hstate) as ([status description] & -> & Hstatus).
    cbn [id Status Description] in *.
    destruct (bool_decide (status ≠ lastStatus)); run;
      repeat case_bool_decide; try congruence; run;
      first [tick_continues | tick_fails Hstate].
  - tick_fails Hstate.
Qed.

(** C9.  In both revisions of the Wait-For-Ready loop: if no tick before
    the deadline observes ALLOCATED (each state request fails or is answered
    with a state of another status), the loop ends, and it ends by halting
    the step with an error recorded.  If every one of those ticks kept the
    loop polling (its state request was answered, with a status that is not
    a terminal failure), the recorded error is the allocation timeout.  That
    error is distinct: the loop records it only at the deadline, after one
    state request per tick. *)
Theorem allocation_timeout_halts application w :
  (∀ ticks lastStatus,
     Forall (not_yet Some ALLOCATED) ticks →
     halts_at_deadline Some
       (λ status, status ∉ [ERROR; DEALLOCATED; DEALLOCATE])
       application ticks w
       (StepWaitForAllocation_loop application ticks lastStatus w)) ∧
  (∀ ticks lastStatus,
     Forall (not_yet id "ALLOCATED") ticks →
     halts_at_deadline id
       (λ status, status ∉ ["ERROR"; "DEALLOCATED"; "RECALLED"])
       application ticks w
       (Legacy.StepWaitForAllocation_loop application ticks lastStatus w)).
Proof.
  split; intros ticks lastStatus Hticks.
  - apply (poll_deadline Some _ ALLOCATED); [|exact Hticks].
    apply StepWaitForAllocation_tick_cases.
  - apply (poll_deadline id _ "ALLOCATED"); [|exact Hticks].
    apply Legacy_StepWaitForAllocation_tick_cases.
Qed.

Lemma allocation_timeout_halts_witness :
  Forall (not_yet Some ALLOCATED)
    [Sample.observed Some NEW; Sample.observed Some ELECTED] ∧
  halts_at_deadline Some (λ status, status ∉ [ERROR; DEALLOCATED; DEALLOCATE])
    Sample.app [Sample.observed Some NEW; Sample.observed Some ELECTED]
    Sample.world
    (StepWaitForAllocation_loop Sample.app
       [Sample.observed Some NEW; Sample.observed Some ELECTED] UNSPECIFIED
       Sample.world).
Proof.
  assert (H : Forall (not_yet Some ALLOCATED)
                [Sample.observed Some NEW; Sample.observed Some ELECTED]).
  { repeat constructor; intros answer [= <-]; eexists;
      (split; [reflexivity | discriminate]). }
  split; [exact H|].
  exact (proj1 (allocation_timeout_halts Sample.app Sample.world) _ UNSPECIFIED H).
Defined.

(** ** Create-Output-Artifact: the result of the task *)

Lemma any_eq_string_true v s : any_eq_string v s = true ↔ v = any_string s.
Proof.
  destruct v; cbn; try (split; [discriminate|congruence]).
  rewrite bool_decide_eq_true. split; congruence.
Qed.

Lemma success_marker_test status :
  any_eq_string status "success" || any_eq_string status "completed" = true
  ↔ success_marker status.
Proof.
  unfold success_marker. rewrite orb_true_iff, !any_eq_string_true. tauto.
Qed.

Lemma failure_marker_test status :
  any_eq_string status "failed" || any_eq_string status "error" = true
  ↔ failure_marker status.
Proof.
  unfold failure_marker. rewrite orb_true_iff, !any_eq_string_true. tauto.
Qed.

(** C4.  On the first tick on which the result of the task is not empty the
    capture step ends, whatever ticks would follow: it halts with the error
    "image creation failed" if the ["status"] field is a failure marker
    ("failed" or "error"), and in every other case it ends successfully
    with the task and its result stored: when the field is a success marker
    ("success" or "completed"), when it is present and neither, and when it
    is absent. *)
Theorem image_result_classification createdTask currentTask later w :
  (0 < size (Task_Result currentTask))%nat →
  let outcome :=
    StepCreateImage_loop createdTask (Ok currentTask :: later) w in
  match Task_Result currentTask !! "status" with
  | Some status =>
      (success_marker status → image_accepted currentTask w outcome) ∧
      (failure_marker status → image_rejected w outcome) ∧
      (¬ success_marker status → ¬ failure_marker status →
       image_accepted currentTask w outcome)
  | None => image_accepted currentTask w outcome
  end.
Proof.
  intros Hsize outcome. subst outcome.
  unfold StepCreateImage_loop, image_accepted, image_rejected, with_image.
  cbn [poll]. unfold StepCreateImage_tick. run.
  rewrite bool_decide_eq_true_2 by exact Hsize.
  unfold classify_image_result, store_image_task. run.
  destruct (Task_Result currentTask !! "status") as [status|] eqn:Hstatus.
  - destruct (any_eq_string status "success" || any_eq_string status "completed")
      eqn:Hsuccess.
    + apply success_marker_test in Hsuccess.
      assert (Hnot : ¬ failure_marker status).
      { destruct Hsuccess as [->| ->]; intros [?|?]; discriminate. }
      split; [|split; [intros ?; contradiction | intros ?; contradiction]].
      intros _. branch; eexists; split; reflexivity.
    + assert (Hnot : ¬ success_marker status).
      { rewrite <- success_marker_test, Hsuccess. discriminate. }
      destruct (any_eq_string status "failed" || any_eq_string status "error")
        eqn:Hfailure; run.
      * split; [contradiction|]. split.
        -- intros _. eexists. split; reflexivity.
        -- intros _ Hno. exfalso. apply Hno, failure_marker_test, Hfailure.
      * split; [contradiction|]. split.
        -- intros Hyes. apply failure_marker_test in Hyes. congruence.
        -- intros _ _. eexists. split; reflexivity.
  - eexists. split; reflexivity.
Qed.

(** ** Setup-Remote-Access: the address *)

Lemma ParseSSHAddress_fields address :
  length (Split address ":"%char) ≠ 2%nat →
  ParseSSHAddress address
  = Err (Errorf "invalid SSH address format: %s" [arg_s address]).
Proof.
  unfold ParseSSHAddress.
  destruct (Split address ":"%char) as [|host [|port_text [|]]]; cbn;
    intros H; try reflexivity; contradiction.
Qed.

Lemma Legacy_StepSetupSSH_tick_access resource maxRetries access retryCount w g :
  retryCount + 1 ≤ maxRetries →
  bag w !! "generated_data" = Some (VGenerated g) →
  ∃ w', Legacy.StepSetupSSH_tick resource maxRetries (Ok (Some access)) retryCount w
        = Some (Return ActionContinue, w') ∧
    bag w' = with_ssh_polled (ssh_endpoint (config w) (Access_Address access))
               g (bag w) ∧
    calls w' = calls w ++ [GetApplicationResourceAccess (Resource_UID resource)].
Proof.
  intros Hretry Hg. unfold Legacy.StepSetupSSH_tick.
  destruct (Z.ltb_spec maxRetries (retryCount + 1)) as [|_]; [lia|]. run.
  match goal with
  | |- context [resolve_ssh_endpoint ?address ?w1] =>
      destruct (resolve_ssh_endpoint_run address w1) as (w2 & E & Hcfg & Hbag & Hcalls);
      rewrite E; revert Hcfg Hbag Hcalls; run; intros Hcfg Hbag Hcalls
  end.
  look. rewrite Hbag, Hg. run. eexists. split; [reflexivity|]. run.
  rewrite Hbag, Hcalls. split; reflexivity.
Qed.

(** C8.  An address that does not split into exactly two fields at its
    colons is rejected by ParseSSHAddress, and the Setup-Remote-Access step
    then continues with the host and port of the communicator settings: it
    stores and publishes them and records no error.  This holds for the
    step on the RPC client and for the ticker case of the earlier polling
    revision. *)
Theorem unparsable_address_falls_back address w c resource g :
  length (Split address ":"%char) ≠ 2%nat →
  bag w !! "ui" = Some VUi →
  bag w !! "api_client" = Some (VClient c) →
  bag w !! "application_resource" = Some (VResource resource) →
  bag w !! "generated_data" = Some (VGenerated g) →
  ParseSSHAddress address
    = Err (Errorf "invalid SSH address format: %s" [arg_s address]) ∧
  (∀ access, GetAddress access = address →
     ∃ w', StepSetupSSH_Run (Ok access) w = Some (ActionContinue, w') ∧
       bag w' = with_ssh (configured_endpoint (config w)) access g (bag w) ∧
       bag w' !! "error" = bag w !! "error") ∧
  (∀ access maxRetries retryCount,
     Access_Address access = address →
     retryCount + 1 ≤ maxRetries →
     ∃ w', Legacy.StepSetupSSH_tick resource maxRetries (Ok (Some access))
             retryCount w
           = Some (Return ActionContinue, w') ∧
       bag w' = with_ssh_polled (configured_endpoint (config w)) g (bag w) ∧
       bag w' !! "error" = bag w !! "error").
Proof.
  intros Hfields Hui Hc Hr Hg.
  pose proof (ParseSSHAddress_fields address Hfields) as Hparse.
  assert (Hendpoint : ∀ cfg, ssh_endpoint cfg address = configured_endpoint cfg).
  { intros cfg. unfold ssh_endpoint. rewrite Hparse. reflexivity. }
  split; [exact Hparse|]. split.
  - intros access Haddress.
    destruct (StepSetupSSH_Run_outcome (Ok access) w c resource g Hui Hc Hr Hg)
      as (a & w' & E & _ & -> & Hbag).
    rewrite Haddress, Hendpoint in Hbag.
    exists w'. split; [exact E|]. split; [exact Hbag|].
    rewrite Hbag. unfold with_ssh. look. reflexivity.
  - intros access maxRetries retryCount Haddress Hretry.
    destruct (Legacy_StepSetupSSH_tick_access resource maxRetries access
                retryCount w g Hretry Hg) as (w' & E & Hbag & _).
    rewrite Haddress, Hendpoint in Hbag.
    exists w'. split; [exact E|]. split; [exact Hbag|].
    rewrite Hbag. unfold with_ssh_polled. look. reflexivity.
Qed.

Lemma unparsable_address_falls_back_witness :
  let w := put "application_resource" (VResource Sample.resource) Sample.world in
  length (Split "not-an-address" ":"%char) ≠ 2%nat ∧
  ∃ w', StepSetupSSH_Run (Ok (Some (Sample.access "not-an-address"))) w
        = Some (ActionContinue, w') ∧
    bag w' = with_ssh ("bastion.example", 2200)
               (Some (Sample.access "not-an-address")) ∅ (bag w).
Proof.
  intros w.
  assert (Hfields : length (Split "not-an-address" ":"%char) ≠ 2%nat)
    by (vm_compute; discriminate).
  split; [exact Hfields|].
  destruct (unparsable_address_falls_back "not-an-address" w
              (NewAPIClient "https://fish.example:8001/grpc" "packer" "secret")
              Sample.resource ∅ Hfields)
    as (_ & Hstep & _); try (vm_compute; reflexivity).
  destruct (Hstep (Some (Sample.access "not-an-address")) eq_refl)
    as (w' & E & Hbag & _).
  exists w'. split; [exact E | exact Hbag].
Defined.

(** ** Setup-Remote-Access: the polling revision *)

Section access_polling.
Context (resource : ApplicationResource) (maxRetries : Z).

Lemma Legacy_StepSetupSSH_tick_exhausted answer retryCount w :
  maxRetries < retryCount + 1 →
  Legacy.StepSetupSSH_tick resource maxRetries answer retryCount w
  = Some (Return ActionHalt,
          put "error"
            (VError (Errorf "SSH access availability retry limit exceeded" []))
            (printed (Error "Maximum SSH access availability retries reached (%d)"
                        [arg_d maxRetries]) w)).
Proof.
  intros H. unfold Legacy.StepSetupSSH_tick.
  destruct (Z.ltb_spec maxRetries (retryCount + 1)) as [_|]; [|lia].
  reflexivity.
Qed.

Lemma Legacy_StepSetupSSH_tick_absent retryCount w :
  retryCount + 1 ≤ maxRetries →
  ∃ w1, Legacy.StepSetupSSH_tick resource maxRetries (Ok None) retryCount w
        = Some (Continue (retryCount + 1), w1) ∧
    config w1 = config w ∧ bag w1 = bag w ∧
    calls w1 = calls w ++ [GetApplicationResourceAccess (Resource_UID resource)].
Proof.
  intros H. unfold Legacy.StepSetupSSH_tick.
  destruct (Z.ltb_spec maxRetries (retryCount + 1)) as [|_]; [lia|].
  run. eexists. split; [reflexivity|]. run. auto.
Qed.

Lemma Legacy_StepSetupSSH_tick_error err retryCount w :
  retryCount + 1 ≤ maxRetries →
  ∃ w1, Legacy.StepSetupSSH_tick resource maxRetries (Err err) retryCount w
        = Some (Return ActionHalt, w1) ∧
    bag w1 = <["error" := VError (Errorf "failed to get SSH access credentials: %v"
                                    [arg_err err])]> (bag w) ∧
    calls w1 = calls w ++ [GetApplicationResourceAccess (Resource_UID resource)].
Proof.
  intros H. unfold Legacy.StepSetupSSH_tick.
  destruct (Z.ltb_spec maxRetries (retryCount + 1)) as [|_]; [lia|].
  run. eexists. split; [reflexivity|]. run. auto.
Qed.

(** The loop sends at most one access request per tick and at most as
    many as the retry count allows. *)
Lemma Legacy_StepSetupSSH_loop_bounded g ticks :
  ∀ retryCount w,
    bag w !! "generated_data" = Some (VGenerated g) →
    ∃ a w' n,
      Legacy.StepSetupSSH_loop resource maxRetries ticks retryCount w
      = Some (a, w') ∧
      calls w' = calls w ++ replicate n (GetApplicationResourceAccess (Resource_UID resource)) ∧
      (n ≤ length ticks)%nat ∧
      Z.of_nat n ≤ Z.max 0 (maxRetries - retryCount).
Proof.
  unfold Legacy.StepSetupSSH_loop.
  induction ticks as [|answer later IH]; intros retryCount w Hg; cbn [poll].
  - unfold Legacy.ssh_access_timeout. run. eexists _, _, 0%nat.
    split; [reflexivity|]. run. rewrite app_nil_r. repeat split; lia.
  - destruct (Z.lt_ge_cases maxRetries (retryCount + 1)) as [Hout|Hin].
    + rewrite (run_bind_Some _ _ _ _ _
                 (Legacy_StepSetupSSH_tick_exhausted answer retryCount w Hout)).
      eexists _, _, 0%nat. split; [reflexivity|]. run. rewrite app_nil_r.
      repeat split; lia.
    + destruct answer as [[access|]|err].
      * destruct (Legacy_StepSetupSSH_tick_access resource maxRetries access
                    retryCount w g Hin Hg) as (w1 & E & _ & Hcalls).
        rewrite (run_bind_Some _ _ _ _ _ E).
        eexists _, _, 1%nat. split; [reflexivity|].
        split; [exact Hcalls|]. cbn [length]. split; lia.
      * destruct (Legacy_StepSetupSSH_tick_absent retryCount w Hin)
          as (w1 & E & _ & Hbag & Hcalls).
        rewrite (run_bind_Some _ _ _ _ _ E).
        destruct (IH (retryCount + 1) w1) as (a & w' & n & E' & Hcalls' & Hn & Hr).
        { rewrite Hbag. exact Hg. }
        exists a, w', (S n). split; [exact E'|].
        rewrite Hcalls', Hcalls, <- app_assoc. split; [reflexivity|].
        cbn [length]. split; lia.
      * destruct (Legacy_StepSetupSSH_tick_error err retryCount w Hin)
          as (w1 & E & _ & Hcalls).
        rewrite (run_bind_Some _ _ _ _ _ E).
        eexists _, _, 1%nat. split; [reflexivity|].
        split; [exact Hcalls|]. cbn [length]. split; lia.
Qed.
End access_polling.

(** ** Find-Template: the selection *)

Lemma latest_label_cases labels :
  ∀ maxVersion selectedLabel,
    (latest_label labels maxVersion selectedLabel = selectedLabel ∧
     ∀ l, l ∈ labels → Label_Version l ≤ maxVersion)
    ∨ (∃ label, latest_label labels maxVersion selectedLabel = Some label ∧
         first_maximum labels label ∧ maxVersion < Label_Version label).
Proof.
  induction labels as [|label later IH]; intros maxVersion selectedLabel;
    cbn [latest_label].
  - left. split; [reflexivity|]. intros l Hl. inversion Hl.
  - destruct (Z.ltb_spec maxVersion (Label_Version label)) as [Hlt|Hge].
    + right.
      destruct (IH (Label_Version label) (Some label))
        as [[-> Hall]|(best & -> & (before & after & -> & Hb & Ha) & Hbest)].
      * exists label. split; [reflexivity|]. split; [|exact Hlt].
        exists [], later. split; [reflexivity|]. split; [|exact Hall].
        intros l Hl. inversion Hl.
      * exists best. split; [reflexivity|]. split; [|lia].
        exists (label :: before), after. split; [reflexivity|]. split; [|exact Ha].
        intros l Hl. apply elem_of_cons in Hl as [->|Hl]; [lia|auto].
    + destruct (IH maxVersion selectedLabel)
        as [[-> Hall]|(best & -> & (before & after & -> & Hb & Ha) & Hbest)].
      * left. split; [reflexivity|].
        intros l Hl. apply elem_of_cons in Hl as [->|Hl]; [lia|auto].
      * right. exists best. split; [reflexivity|]. split; [|exact Hbest].
        exists (label :: before), after. split; [reflexivity|]. split; [|exact Ha].
        intros l Hl. apply elem_of_cons in Hl as [->|Hl]; [lia|auto].
Qed.

Lemma label_of_version_cases labels requestedVersion :
  (label_of_version labels requestedVersion = None ∧
   ∀ l, l ∈ labels → Label_Version l ≠ requestedVersion)
  ∨ (∃ label, label_of_version labels requestedVersion = Some label ∧
       first_of_version labels requestedVersion label).
Proof.
  induction labels as [|label later IH]; cbn [label_of_version].
  - left. split; [reflexivity|]. intros l Hl. inversion Hl.
  - case_bool_decide as Hversion.
    + right. exists label. split; [reflexivity|].
      exists [], later. split; [reflexivity|]. split; [exact Hversion|].
      intros l Hl. inversion Hl.
    + destruct IH as [[-> Hall]|(found & -> & before & after & -> & Hf & Hb)].
      * left. split; [reflexivity|].
        intros l Hl. apply elem_of_cons in Hl as [->|Hl]; auto.
      * right. exists found. split; [reflexivity|].
        exists (label :: before), after. split; [reflexivity|]. split; [exact Hf|].
        intros l Hl. apply elem_of_cons in Hl as [->|Hl]; auto.
Qed.

Lemma store_selected_label_settles cfg query label w w1 :
  bag w1 = bag w → calls w1 = calls w ++ [query] →
  settles_on query label w (store_selected_label cfg (Some label) w1).
Proof.
  intros Hbag Hcalls. unfold settles_on, store_selected_label. run.
  destruct (Label_Definitions label) as [|definition definitions] eqn:Hd;
    cbn [length]; [rewrite bool_decide_eq_true_2 by reflexivity
                  |rewrite bool_decide_eq_false_2 by discriminate]; run.
  all: eexists; split; [|split; [reflexivity|]]; run;
    rewrite ?Hbag, ?Hcalls; reflexivity.
Qed.

Lemma first_of_version_unique labels version label label' :
  first_of_version labels version label →
  first_of_version labels version label' → label = label'.
Proof.
  intros (before & after & -> & Hv & Hb) (before' & after' & E & Hv' & Hb').
  revert before' E Hb'.
  induction before as [|l before IH]; intros [|l' before'] E Hb';
    cbn in E; injection E as E1 E2.
  - exact E1.
  - exfalso. apply (Hb' l'); [left|congruence].
  - exfalso. apply (Hb l); [left|congruence].
  - apply (IH (λ x Hx, Hb x (list_elem_of_further _ _ _ Hx)) before' E2).
    intros x Hx. apply Hb'. right. exact Hx.
Qed.

(** C5, as the code has it.  When no version is requested and the service
    returned labels: if at least one has a version of 0 or more, the step
    settles on the first label of the highest version (it stores it when
    it has a definition, and halts otherwise); if every version is
    negative, nothing is selected and the step halts with "no suitable
    label found", because the scan starts from -1. *)
Theorem latest_version_is_selected labels w c :
  bag w !! "ui" = Some VUi →
  bag w !! "api_client" = Some (VClient c) →
  LabelVersion (config w) = "" →
  labels ≠ [] →
  let query := GetLabels (LabelName (config w)) "last" in
  let outcome := StepFindLabel_Run (Ok labels) w in
  ((∃ l, l ∈ labels ∧ 0 ≤ Label_Version l) →
   ∃ label, first_maximum labels label ∧ settles_on query label w outcome) ∧
  ((∀ l, l ∈ labels → Label_Version l < 0) →
   halted_with (Errorf "no suitable label found" []) [query] w outcome).
Proof.
  intros Hui Hc Hversion Hlabels query outcome. subst query outcome.
  unfold StepFindLabel_Run. run. rewrite Hui, Hc, Hversion. run.
  rewrite bool_decide_eq_false_2 by (intros H; apply H; reflexivity). run.
  rewrite bool_decide_eq_false_2
    by (destruct labels; [contradiction|discriminate]).
  rewrite bool_decide_eq_true_2 by reflexivity.
  destruct (latest_label_cases labels (-1) None)
    as [[-> Hall]|(best & -> & Hbest & Hpositive)]; split.
  - intros (l & Hl & Hpos). specialize (Hall l Hl). lia.
  - intros _. unfold halted_with, store_selected_label. run.
    eexists. split; [reflexivity|]. run. auto.
  - intros _. exists best. split; [exact Hbest|].
    apply store_selected_label_settles; run; reflexivity.
  - intros Hall. destruct Hbest as (before & after & -> & _).
    specialize (Hall best). rewrite elem_of_app, elem_of_cons in Hall.
    assert (Label_Version best < 0) by auto. lia.
Qed.

Lemma latest_version_is_selected_witness :
  let labels := [Sample.label 1; Sample.label 3; Sample.label 2] in
  (∃ l, l ∈ labels ∧ 0 ≤ Label_Version l) ∧
  ∃ label, Label_Version label = 3 ∧
    settles_on (GetLabels "ubuntu" "last") label Sample.world
      (StepFindLabel_Run (Ok labels) Sample.world).
Proof.
  intros labels.
  assert (H : ∃ l, l ∈ labels ∧ 0 ≤ Label_Version l).
  { exists (Sample.label 1). split; [left|cbn; lia]. }
  split; [exact H|].
  destruct (latest_version_is_selected labels Sample.world
              (NewAPIClient "https://fish.example:8001/grpc" "packer" "secret"))
    as [Hsel _]; try reflexivity; [discriminate|].
  destruct (Hsel H) as (label & (before & after & E & Hb & Ha) & Hsettles).
  exists label. split; [|exact Hsettles].
  assert (Hin : ∀ l, l ∈ labels → Label_Version l ≤ Label_Version label).
  { intros l Hl. subst labels. rewrite E in Hl.
    rewrite elem_of_app, elem_of_cons in Hl.
    destruct Hl as [Hl|[->|Hl]]; [specialize (Hb l Hl); lia | lia | auto]. }
  assert (Hmem : label ∈ labels).
  { subst labels. rewrite E, elem_of_app, elem_of_cons. auto. }
  pose proof (Hin (Sample.label 3)) as H3.
  subst labels. rewrite !elem_of_cons, elem_of_nil in Hmem.
  destruct Hmem as [->|[->|[->|[]]]]; cbn in *;
    first [reflexivity | exfalso; apply Zle_not_lt in H3; [apply H3; lia|]];
    rewrite !elem_of_cons; auto.
Defined.

(** C5 as stated fails: when the only returned label has version -2 the
    step selects nothing and halts with "no suitable label found". *)
Lemma negative_version_is_not_selected :
  let outcome := StepFindLabel_Run (Ok [Sample.label (-2)]) Sample.world in
  (fst <$> outcome) = Some ActionHalt ∧
  bag (world_of Sample.world outcome) !! "selected_label" = None ∧
  bag (world_of Sample.world outcome) !! "error"
  = Some (VError (Errorf "no suitable label found" [])).
Proof. repeat split; vm_compute; reflexivity. Qed.

Ltac open_find Hui Hc Hversion :=
  unfold StepFindLabel_Run; run; rewrite Hui, Hc; run;
  rewrite !(bool_decide_eq_true_2 _ Hversion),
    ?(bool_decide_eq_false_2 _ Hversion); run.

(** C6.  When a version is requested, the step parses it with Atoi and
    looks for the first returned label of exactly that version.  If the
    string is not a number the step halts whatever the service answered,
    and on a non-empty list of labels the error is the configuration error
    "invalid version format".  If it is a number that no returned label
    carries, the step halts with a "not found" error ("label not found"
    on an empty list, "label version not found" otherwise).  A halt only
    adds the error to the state bag, so no label is selected.  If some
    label carries the number, the step settles on the first such label. *)
Theorem requested_version_must_match w c :
  bag w !! "ui" = Some VUi →
  bag w !! "api_client" = Some (VClient c) →
  LabelVersion (config w) ≠ "" →
  let query := GetLabels (LabelName (config w)) (LabelVersion (config w)) in
  (∀ err, Atoi (LabelVersion (config w)) = Err err →
     (∀ answer, ∃ e, halted_with e [query] w (StepFindLabel_Run answer w)) ∧
     (∀ labels, labels ≠ [] →
        halted_with (Errorf "invalid version format: %v" [arg_err err])
          [query] w (StepFindLabel_Run (Ok labels) w))) ∧
  (∀ requestedVersion labels,
     Atoi (LabelVersion (config w)) = Ok requestedVersion →
     ((∀ l, l ∈ labels → Label_Version l ≠ requestedVersion) →
        halted_with
          (match labels with
           | [] => Errorf "label not found: %s" [arg_s (LabelName (config w))]
           | _ :: _ => Errorf "label version not found" []
           end) [query] w (StepFindLabel_Run (Ok labels) w)) ∧
     (∀ label, first_of_version labels requestedVersion label →
        settles_on query label w (StepFindLabel_Run (Ok labels) w))).
Proof.
  intros Hui Hc Hversion query. subst query.
  unfold halted_with. split.
  - intros err Herr. split.
    + intros [labels|failure]; open_find Hui Hc Hversion.
      * case_bool_decide; run; [|rewrite Herr; run];
          eexists _, _; (split; [reflexivity|]); run; auto.
      * eexists _, _. split; [reflexivity|]. run. auto.
    + intros labels Hlabels. open_find Hui Hc Hversion.
      rewrite bool_decide_eq_false_2
        by (destruct labels; [contradiction|discriminate]).
      rewrite Herr. run. eexists. split; [reflexivity|]. run. auto.
  - intros requestedVersion labels Hnumber. split.
    + intros Hnone. open_find Hui Hc Hversion.
      destruct labels as [|first others]; cbn [length].
      * rewrite bool_decide_eq_true_2 by reflexivity. run.
        eexists. split; [reflexivity|]. run. auto.
      * rewrite bool_decide_eq_false_2 by discriminate. rewrite Hnumber. run.
        destruct (label_of_version_cases (first :: others) requestedVersion)
          as [[-> _]|(found & _ & before & after & E & Hv & _)].
        -- run. eexists. split; [reflexivity|]. run. auto.
        -- exfalso. apply (Hnone found); [|exact Hv].
           rewrite E, elem_of_app, elem_of_cons. auto.
    + intros label Hlabel. open_find Hui Hc Hversion.
      assert (Hlabels : labels ≠ []).
      { destruct Hlabel as (before & after & -> & _). destruct before; discriminate. }
      rewrite bool_decide_eq_false_2
        by (destruct labels; [contradiction|discriminate]).
      rewrite Hnumber. run.
      destruct (label_of_version_cases labels requestedVersion)
        as [[_ Hnone]|(found & -> & Hfound)].
      * exfalso. destruct Hlabel as (before & after & -> & Hv & _).
        apply (Hnone label); [|exact Hv]. rewrite elem_of_app, elem_of_cons. auto.
      * rewrite (first_of_version_unique _ _ _ _ Hlabel Hfound).
        apply store_selected_label_settles; run; reflexivity.
Qed.

Lemma requested_version_must_match_witness :
  let w version :=
    {| config := Sample.cfg_requesting version; bag := bag Sample.world;
       calls := []; ui := [] |} in
  LabelVersion (config (w "abc")) ≠ "" ∧
  halted_with
    (Errorf "invalid version format: %v"
       [arg_err (NumError "Atoi" "abc" "invalid syntax")])
    [GetLabels "ubuntu" "abc"] (w "abc")
    (StepFindLabel_Run (Ok [Sample.label 1; Sample.label 3; Sample.label 2]) (w "abc")) ∧
  halted_with (Errorf "label version not found" [])
    [GetLabels "ubuntu" "9"] (w "9")
    (StepFindLabel_Run (Ok [Sample.label 1; Sample.label 3; Sample.label 2]) (w "9")).
Proof.
  intros w. split; [discriminate|]. split.
  - destruct (requested_version_must_match (w "abc")
                (NewAPIClient "https://fish.example:8001/grpc" "packer" "secret"))
      as [Hsyntax _]; try reflexivity; [discriminate|].
    destruct (Hsyntax _ eq_refl) as [_ Hformat].
    apply Hformat. discriminate.
  - destruct (requested_version_must_match (w "9")
                (NewAPIClient "https://fish.example:8001/grpc" "packer" "secret"))
      as [_ Hnumber]; try reflexivity; [discriminate|].
    destruct (Hnumber 9 [Sample.label 1; Sample.label 3; Sample.label 2] eq_refl)
      as [Hnone _].
    apply Hnone. intros l Hl. rewrite !elem_of_cons, elem_of_nil in Hl.
    destruct Hl as [->|[->|[->|[]]]]; discriminate.
Defined.

Lemma image_result_classification_witness :
  let currentTask := Sample.task {[ "status" := any_string "partial" ]} in
  (0 < size (Task_Result currentTask))%nat ∧
  image_accepted currentTask Sample.world
    (StepCreateImage_loop (Sample.task ∅) [Ok currentTask] Sample.world).
Proof.
  intros currentTask.
  assert (Hsize : (0 < size (Task_Result currentTask))%nat).
  { subst currentTask. cbn [Task_Result Sample.task].
    rewrite map_size_singleton. lia. }
  split; [exact Hsize|].
  pose proof (image_result_classification (Sample.task ∅) currentTask []
                Sample.world Hsize) as H.
  cbv zeta in H. subst currentTask. cbn [Task_Result Sample.task] in H.
  rewrite lookup_singleton_eq in H. destruct H as (_ & _ & H).
  apply H; intros [E|E]; discriminate.
Defined.

(** ** Create-Allocation: the metadata *)

Lemma copied_metadata (m : gmap string any) :
  map_fold (λ k v metadata, <[k := v]> metadata) ∅ m = m.
Proof.
  apply (map_fold_weak_ind (λ r m, r = m)); [reflexivity|].
  intros k v m' r _ ->. reflexivity.
Qed.

(** C10.  The metadata of the creation request binds PACKER_BUILD to
    "true", PACKER_BUILDER to "aquarium" and PACKER_BUILD_TIME to the
    current time in RFC3339 format, whatever the user bound these keys to,
    and agrees with the user's metadata on every other key.  The step
    submits exactly one creation request, which carries this metadata and
    the id of the selected label. *)
Theorem packer_metadata_is_injected now answer w c label g :
  bag w !! "ui" = Some VUi →
  bag w !! "api_client" = Some (VClient c) →
  bag w !! "selected_label" = Some (VLabel label) →
  bag w !! "generated_data" = Some (VGenerated g) →
  let user := default ∅ (ApplicationMetadata (config w)) in
  let metadata := application_metadata (ApplicationMetadata (config w)) now in
  metadata !! "PACKER_BUILD" = Some (any_string "true") ∧
  metadata !! "PACKER_BUILDER" = Some (any_string "aquarium") ∧
  metadata !! "PACKER_BUILD_TIME" = Some (any_string now) ∧
  (∀ key, key ∉ ["PACKER_BUILD"; "PACKER_BUILDER"; "PACKER_BUILD_TIME"] →
     metadata !! key = user !! key) ∧
  ∃ a w', StepCreateApplication_Run now answer w = Some (a, w') ∧
    calls w' = calls w ++
      [CreateApplication {| Application_UID := "";
                            Application_LabelUID := Label_UID label;
                            Application_Metadata := metadata |}].
Proof.
  intros Hui Hc Hl Hg user metadata. subst user metadata.
  unfold application_metadata. repeat split; try (look; reflexivity).
  - intros key Hkey. rewrite !elem_of_cons, elem_of_nil in Hkey.
    rewrite !lookup_insert_ne by (intros <-; apply Hkey; auto).
    destruct (ApplicationMetadata (config w)) as [m|]; cbn [default];
      [rewrite copied_metadata|]; reflexivity.
  - unfold StepCreateApplication_Run, application_metadata. run.
    rewrite Hui, Hc, Hl. destruct answer as [createdApp|err]; run; look;
      rewrite ?Hg; run; eexists _, _; split; reflexivity.
Qed.

Lemma packer_metadata_is_injected_witness :
  let w := put "selected_label" (VLabel (Sample.label 3)) Sample.world in
  bag w !! "selected_label" = Some (VLabel (Sample.label 3)) ∧
  application_metadata (ApplicationMetadata (config w)) "2025-06-01T12:00:00Z"
    !! "PACKER_BUILD" = Some (any_string "true") ∧
  application_metadata (ApplicationMetadata (config w)) "2025-06-01T12:00:00Z"
    !! "team" = Some (any_string "ci").
Proof.
  intros w. split; [reflexivity|].
  destruct (packer_metadata_is_injected "2025-06-01T12:00:00Z" (Ok Sample.app) w
              (NewAPIClient "https://fish.example:8001/grpc" "packer" "secret")
              (Sample.label 3) ∅)
    as (Hbuild & _ & _ & Hother & _); try reflexivity.
  split; [exact Hbuild|].
  rewrite Hother; [reflexivity|].
  rewrite !elem_of_cons, elem_of_nil. intros [H|[H|[H|[]]]]; discriminate.
Defined.

(** * Further properties *)

(** ** Preparing the builder *)

Lemma Builder_Prepare_cases P decode_error b :
  let cfg := Builder_config b in
  match (Builder_Prepare P decode_error b).2 with
  | Ok vars =>
      decode_error = None ∧ required_settings cfg ∧
      ∃ connection allocation,
        P (effective_ConnectionTimeout cfg) = Ok connection ∧
        P (effective_AllocationTimeout cfg) = Ok allocation ∧
        Builder_Prepare P decode_error b
        = ({| Builder_config := prepared_config cfg;
              connectionTimeoutDuration := connection;
              allocationTimeoutDuration := allocation |},
           Ok (buildGeneratedData, []))
  | Err _ =>
      decode_error ≠ None
      ∨ (∃ err, P (effective_ConnectionTimeout cfg) = Err err)
      ∨ (∃ err, P (effective_AllocationTimeout cfg) = Err err)
      ∨ ¬ required_settings cfg
  end.
Proof.
  intros cfg. subst cfg. destruct b as [cfg connection allocation].
  destruct decode_error as [err|]; [left; discriminate|].
  destruct cfg as [e u p i ln lv ct cr at_ am comm].
  unfold Builder_Prepare, prepared_config, effective_ConnectionTimeout,
    effective_AllocationTimeout, effective_ConnectionRetries,
    required_settings.
  cbn [Builder_config allocationTimeoutDuration ConnectionTimeout
       ConnectionRetries AllocationTimeout].
  destruct (bool_decide_reflect (ct = "")); cbn;
    destruct (bool_decide_reflect (cr ≤ 0)); cbn;
    destruct (bool_decide_reflect (at_ = "")); cbn.
  all: destruct (P _) as [d1|err1] eqn:H1; cbn; [|right; left; eauto].
  all: match goal with
       | |- context [match ?x with Ok _ => _ | Err _ => _ end] =>
           lazymatch type of x with
           | result Z error =>
               destruct x as [d2|err2] eqn:H2; cbn;
               [|right; right; left; eauto]
           end
       end.
  all: repeat (case_bool_decide; cbn); try (right; right; right; tauto).
  all: split; [reflexivity|]; split; [tauto|]; exists d1, d2; repeat split;
    congruence.
Qed.

Lemma prepared_config_idempotent cfg :
  prepared_config (prepared_config cfg) = prepared_config cfg.
Proof.
  destruct cfg as [e u p i ln lv ct cr at_ am comm].
  unfold prepared_config, effective_ConnectionTimeout,
    effective_AllocationTimeout, effective_ConnectionRetries. cbn.
  destruct (bool_decide_reflect (ct = "")); cbn;
    destruct (bool_decide_reflect (cr ≤ 0)); cbn;
    destruct (bool_decide_reflect (at_ = "")); cbn;
    destruct (bool_decide_reflect (Type_ comm = "")); cbn.
  all: repeat (case_bool_decide; cbn); try reflexivity; try congruence; try lia.
Qed.

Lemma prepared_config_prepared P cfg connection allocation :
  required_settings cfg →
  P (effective_ConnectionTimeout cfg) = Ok connection →
  P (effective_AllocationTimeout cfg) = Ok allocation →
  prepared P {| Builder_config := prepared_config cfg;
                connectionTimeoutDuration := connection;
                allocationTimeoutDuration := allocation |}.
Proof.
  intros Hrequired Hconnection Hallocation.
  split; cbn [Builder_config connectionTimeoutDuration allocationTimeoutDuration
              prepared_config Endpoint Username Password LabelName
              ConnectionRetries ConnectionTimeout AllocationTimeout
              Communicator].
  - exact Hrequired.
  - unfold effective_ConnectionRetries. case_bool_decide; lia.
  - case_bool_decide; [discriminate|assumption].
  - split; [|exact Hconnection].
    unfold effective_ConnectionTimeout. case_bool_decide; [discriminate|assumption].
  - split; [|exact Hallocation].
    unfold effective_AllocationTimeout. case_bool_decide; [discriminate|assumption].
Qed.

(** X1.  Prepare accepts a configuration exactly when it was decoded without
    error, both timeouts parse as durations once an empty one is replaced by
    its default ("30m" for the connection, "10m" for the allocation), and
    the endpoint, the username, the password and the label name are all
    set. *)
Theorem Prepare_accepts_exactly P decode_error b :
  (∃ vars, (Builder_Prepare P decode_error b).2 = Ok vars) ↔
  decode_error = None ∧
  (∃ d, P (effective_ConnectionTimeout (Builder_config b)) = Ok d) ∧
  (∃ d, P (effective_AllocationTimeout (Builder_config b)) = Ok d) ∧
  required_settings (Builder_config b).
Proof.
  pose proof (Builder_Prepare_cases P decode_error b) as H. cbv zeta in H.
  destruct (Builder_Prepare P decode_error b).2 as [vars|err].
  - destruct H as (Hdecoded & Hrequired & d1 & d2 & H1 & H2 & _).
    split; [|eauto]. intros _. eauto 10.
  - split; [intros [vars Hvars]; discriminate|].
    intros (Hdecoded & [d1 H1] & [d2 H2] & Hrequired).
    destruct H as [H|[[e H]|[[e H]|H]]]; [contradiction|congruence..|contradiction].
Qed.

(** X2.  When Prepare accepts, it returns the four placeholders
    ApplicationUID, ResourceUID, SSHHost, SSHPort and no warning, and it
    leaves a configuration that differs from the decoded one only by the
    defaults: an empty connection timeout became "30m", a retry count of 0
    or less became 60, an empty allocation timeout became "10m" and an empty
    communicator type became "ssh".  In that configuration the four
    required settings and the communicator type are not empty, the retry
    count is at least 1, and the two stored durations are what the two
    timeouts parse to. *)
Theorem Prepare_establishes P decode_error b b' vars :
  Builder_Prepare P decode_error b = (b', Ok vars) →
  vars = (buildGeneratedData, []) ∧
  Builder_config b' = prepared_config (Builder_config b) ∧
  prepared P b'.
Proof.
  intros E. pose proof (Builder_Prepare_cases P decode_error b) as H.
  cbv zeta in H. rewrite E in H. cbn [snd] in H.
  destruct H as (_ & Hrequired & d1 & d2 & H1 & H2 & [= -> ->]).
  split; [reflexivity|]. split; [reflexivity|].
  apply prepared_config_prepared; assumption.
Qed.

Lemma Prepare_establishes_witness :
  let run := Builder_Prepare Fixture.ParseDuration None Fixture.decoded in
  run = (run.1, Ok (buildGeneratedData, [])) ∧
  ConnectionRetries (Builder_config run.1) = 60 ∧
  ConnectionTimeout (Builder_config run.1) = "30m" ∧
  prepared Fixture.ParseDuration run.1.
Proof.
  intros run.
  assert (E : run = (run.1, Ok (buildGeneratedData, []))) by reflexivity.
  split; [exact E|]. split; [reflexivity|]. split; [reflexivity|].
  exact (proj2 (proj2 (Prepare_establishes _ _ _ _ _ E))).
Defined.

(** X3.  Prepare is idempotent: a builder that Prepare accepted is accepted
    again, with the same answer, and is left as it is. *)
Theorem Prepare_is_idempotent P decode_error b b' vars :
  Builder_Prepare P decode_error b = (b', Ok vars) →
  Builder_Prepare P None b' = (b', Ok vars).
Proof.
  intros E. pose proof (Builder_Prepare_cases P decode_error b) as H.
  cbv zeta in H. rewrite E in H. cbn [snd] in H.
  destruct H as (_ & Hrequired & d1 & d2 & H1 & H2 & [= -> ->]).
  pose proof (prepared_config_prepared P _ _ _ Hrequired H1 H2) as Hp.
  pose proof (prepared_required _ _ Hp) as Hr.
  pose proof (prepared_connection _ _ Hp) as [Hc1 Hc2].
  pose proof (prepared_allocation _ _ Hp) as [Ha1 Ha2].
  cbn [Builder_config connectionTimeoutDuration allocationTimeoutDuration]
    in Hr, Hc1, Hc2, Ha1, Ha2. clear Hp.
  set (b' := {| Builder_config := prepared_config (Builder_config b);
                connectionTimeoutDuration := d1;
                allocationTimeoutDuration := d2 |}).
  pose proof (Builder_Prepare_cases P None b') as H. cbv zeta in H.
  assert (Hc : effective_ConnectionTimeout (Builder_config b')
               = ConnectionTimeout (prepared_config (Builder_config b))).
  { unfold effective_ConnectionTimeout. cbn [b' Builder_config].
    rewrite bool_decide_eq_false_2 by exact Hc1. reflexivity. }
  assert (Ha : effective_AllocationTimeout (Builder_config b')
               = AllocationTimeout (prepared_config (Builder_config b))).
  { unfold effective_AllocationTimeout. cbn [b' Builder_config].
    rewrite bool_decide_eq_false_2 by exact Ha1. reflexivity. }
  rewrite Hc, Ha in H.
  destruct (Builder_Prepare P None b').2 as [vars|err] eqn:E'.
  - destruct H as (_ & _ & d1' & d2' & H1' & H2' & ->).
    cbn [b' Builder_config]. rewrite prepared_config_idempotent.
    repeat f_equal; congruence.
  - destruct H as [H|[[e H]|[[e H]|H]]]; [contradiction|congruence..|].
    contradiction.
Qed.

Lemma Prepare_is_idempotent_witness :
  let run := Builder_Prepare Fixture.ParseDuration None Fixture.decoded in
  run = (run.1, Ok (buildGeneratedData, [])) ∧
  Builder_Prepare Fixture.ParseDuration None run.1
  = (run.1, Ok (buildGeneratedData, [])).
Proof.
  intros run.
  assert (E : run = (run.1, Ok (buildGeneratedData, []))) by reflexivity.
  split; [exact E|]. exact (Prepare_is_idempotent _ _ _ _ _ E).
Defined.

(** X4.  The placeholders that Prepare announces are exactly the keys of
    the generated data that a successful run of the prepared builder
    publishes in its artifact, each announced once. *)
Theorem Prepare_announces_the_generated_data
    P decode_error b b' vars warnings env artifact w :
  Builder_Prepare P decode_error b = (b', Ok (vars, warnings)) →
  Builder_Run env (new_world (Builder_config b')) = Some (Ok artifact, w) →
  NoDup vars ∧
  ∃ g, StateData artifact = {[ "generated_data" := VGenerated g ]} ∧
    dom g = list_to_set vars.
Proof.
  intros E Hrun. pose proof (Builder_Prepare_cases P decode_error b) as H.
  cbv zeta in H. rewrite E in H. cbn [snd] in H.
  destruct H as (_ & _ & d1 & d2 & _ & _ & [= -> -> ->]).
  split.
  { unfold buildGeneratedData. repeat constructor;
      rewrite ?elem_of_cons, ?elem_of_nil; intuition discriminate. }
  pose proof (Builder_Run_summary (prepared_config (Builder_config b)) env) as H.
  cbn [Builder_config] in Hrun. rewrite Hrun in H. cbn [Run_outcome] in H.
  inversion H as [| | | label app tick resource access w0 Hc Ht Hr Ha Hl Hb Hart Hw];
    subst.
  eexists. split; [reflexivity|].
  unfold generated_data_of, with_ssh_data, buildGeneratedData.
  rewrite !dom_insert_L, dom_empty_L. cbn [list_to_set]. set_solver.
Qed.

Lemma Prepare_announces_the_generated_data_witness :
  let prepare := Builder_Prepare Fixture.ParseDuration None Fixture.decoded in
  let run :=
    Builder_Run (Sample.env "10.0.0.7:22") (new_world (Builder_config prepare.1)) in
  prepare = (prepare.1, Ok (buildGeneratedData, [])) ∧
  run = Some (Ok (artifact_of run),
              world_of (new_world (Builder_config prepare.1)) run) ∧
  ∃ g, StateData (artifact_of run) = {[ "generated_data" := VGenerated g ]} ∧
    dom g = list_to_set buildGeneratedData.
Proof.
  intros prepare run.
  assert (E : prepare = (prepare.1, Ok (buildGeneratedData, []))) by reflexivity.
  assert (Hrun : run = Some (Ok (artifact_of run),
                             world_of (new_world (Builder_config prepare.1)) run))
    by (vm_compute; reflexivity).
  split; [exact E|]. split; [exact Hrun|].
  exact (proj2 (Prepare_announces_the_generated_data _ _ _ _ _ _ _ _ _ E Hrun)).
Defined.

(** ** The host of the remote shell *)

Lemma host_reads_ssh_host w sshHost :
  bag w !! "ssh_host" = Some (VString sshHost) →
  commFunc host w = Some (Ok sshHost, w).
Proof.
  intros H. unfold commFunc, host, as_string. run. rewrite H. reflexivity.
Qed.

(** X5.  The host function that the builder hands to the SDK's connect step
    returns the error "ssh_host not found in state" as long as no step
    stored a host, and changes nothing.  Once the Setup-Remote-Access step
    has succeeded, it returns the host that the step resolved, which is
    also the one published as SSHHost; this holds for the step on the RPC
    client and for the ticker case of the polling revision. *)
Theorem host_is_the_resolved_one w c resource g :
  bag w !! "ui" = Some VUi →
  bag w !! "api_client" = Some (VClient c) →
  bag w !! "application_resource" = Some (VResource resource) →
  bag w !! "generated_data" = Some (VGenerated g) →
  (bag w !! "ssh_host" = None →
   commFunc host w = Some (Err (Errorf "ssh_host not found in state" []), w)) ∧
  (∀ access,
     let sshHost := (ssh_endpoint (config w) (GetAddress access)).1 in
     ∃ w' g', StepSetupSSH_Run (Ok access) w = Some (ActionContinue, w') ∧
       commFunc host w' = Some (Ok sshHost, w') ∧
       bag w' !! "generated_data" = Some (VGenerated g') ∧
       g' !! "SSHHost" = Some (any_string sshHost)) ∧
  (∀ access maxRetries retryCount,
     retryCount + 1 ≤ maxRetries →
     let sshHost := (ssh_endpoint (config w) (Access_Address access)).1 in
     ∃ w' g',
       Legacy.StepSetupSSH_tick resource maxRetries (Ok (Some access)) retryCount w
       = Some (Return ActionContinue, w') ∧
       commFunc host w' = Some (Ok sshHost, w') ∧
       bag w' !! "generated_data" = Some (VGenerated g') ∧
       g' !! "SSHHost" = Some (any_string sshHost)).
Proof.
  intros Hui Hc Hr Hg. split; [|split].
  - intros Hnone. unfold commFunc, host. run. rewrite Hnone. reflexivity.
  - intros access sshHost. subst sshHost.
    destruct (StepSetupSSH_Run_outcome (Ok access) w c resource g Hui Hc Hr Hg)
      as (a & w' & E & _ & -> & Hbag).
    eexists w', _. split; [exact E|]. unfold with_ssh in Hbag.
    split; [apply host_reads_ssh_host; rewrite Hbag; look; reflexivity|].
    split; [rewrite Hbag; look; reflexivity|].
    unfold with_ssh_data. look. reflexivity.
  - intros access maxRetries retryCount Hretry sshHost. subst sshHost.
    destruct (Legacy_StepSetupSSH_tick_access resource maxRetries access
                retryCount w g Hretry Hg) as (w' & E & Hbag & _).
    eexists w', _. split; [exact E|]. unfold with_ssh_polled in Hbag.
    split; [apply host_reads_ssh_host; rewrite Hbag; look; reflexivity|].
    split; [rewrite Hbag; look; reflexivity|].
    unfold with_ssh_data. look. reflexivity.
Qed.

Lemma host_is_the_resolved_one_witness :
  let w := put "application_resource" (VResource Sample.resource) Sample.world in
  bag w !! "ssh_host" = None ∧
  commFunc host w = Some (Err (Errorf "ssh_host not found in state" []), w) ∧
  ∃ w', StepSetupSSH_Run (Ok (Some (Sample.access "10.0.0.7:22"))) w
        = Some (ActionContinue, w') ∧
    commFunc host w' = Some (Ok "10.0.0.7", w').
Proof.
  intros w.
  assert (Hnone : bag w !! "ssh_host" = None) by (vm_compute; reflexivity).
  destruct (host_is_the_resolved_one w
              (NewAPIClient "https://fish.example:8001/grpc" "packer" "secret")
              Sample.resource ∅) as (Hbefore & Hafter & _);
    try (vm_compute; reflexivity).
  split; [exact Hnone|]. split; [exact (Hbefore Hnone)|].
  destruct (Hafter (Some (Sample.access "10.0.0.7:22")))
    as (w' & g' & E & Hhost & _).
  exists w'. split; [exact E | exact Hhost].
Defined.

(** ** Splitting and parsing addresses *)

Lemma Split_nonempty s c : Split s c ≠ [].
Proof.
  destruct s as [|a rest]; cbn [Split]; [discriminate|].
  case_bool_decide; [discriminate|]. destruct (Split rest c); discriminate.
Qed.

Lemma Split_fields s c :
  Forall (free_of c) (Split s c) ∧ Join c (Split s c) = s.
Proof.
  induction s as [|a rest [IHfree IHjoin]]; cbn [Split].
  - split; [repeat constructor | reflexivity].
  - pose proof (Split_nonempty rest c) as Hne. case_bool_decide as Ha.
    + subst a. split; [constructor; [exact I | exact IHfree]|].
      destruct (Split rest c) as [|field fields]; [contradiction|].
      change (Join c ("" :: field :: fields))
        with ("" +:+ String c (Join c (field :: fields))).
      rewrite IHjoin. reflexivity.
    + destruct (Split rest c) as [|field fields]; [contradiction|].
      inversion_clear IHfree as [|? ? Hfield Hfields]. split.
      * constructor; [split; assumption | exact Hfields].
      * destruct fields as [|next fields].
        -- cbn [Join] in *. rewrite IHjoin. reflexivity.
        -- change (Join c (String a field :: next :: fields))
             with (String a (field +:+ String c (Join c (next :: fields)))).
           change (Join c (field :: next :: fields))
             with (field +:+ String c (Join c (next :: fields))) in IHjoin.
           rewrite IHjoin. reflexivity.
Qed.

Lemma Split_free s c : free_of c s → Split s c = [s].
Proof.
  induction s as [|a rest IH]; cbn [Split free_of]; [reflexivity|].
  intros [Ha Hrest]. rewrite bool_decide_eq_false_2 by exact Ha.
  rewrite (IH Hrest). reflexivity.
Qed.

Lemma Split_app a b c :
  free_of c a → Split (a +:+ String c b) c = a :: Split b c.
Proof.
  induction a as [|x rest IH]; cbn [free_of].
  - intros _. change ("" +:+ String c b) with (String c b). cbn [Split].
    rewrite bool_decide_eq_true_2 by reflexivity. reflexivity.
  - intros [Hx Hrest].
    change (String x rest +:+ String c b) with (String x (rest +:+ String c b)).
    cbn [Split]. rewrite bool_decide_eq_false_2 by exact Hx.
    rewrite (IH Hrest). reflexivity.
Qed.

(** X6.  ParseSSHAddress accepts exactly the addresses with one colon whose
    text after the colon Atoi reads as a number, and returns the text before
    the colon, which may be empty, and that number: it checks neither the
    host nor the range of the port. *)
Theorem ParseSSHAddress_accepts_exactly addr sshHost sshPort :
  ParseSSHAddress addr = Ok (sshHost, sshPort) ↔
  ∃ port_text,
    addr = sshHost +:+ ":" +:+ port_text ∧
    free_of ":" sshHost ∧ free_of ":" port_text ∧
    Atoi port_text = Ok sshPort.
Proof.
  unfold ParseSSHAddress. split.
  - pose proof (Split_fields addr ":") as [Hfree Hjoin].
    destruct (Split addr ":") as [|h [|t [|]]]; try discriminate.
    destruct (Atoi t) as [port|] eqn:Hport; [|discriminate].
    intros [= <- <-]. exists t.
    inversion_clear Hfree as [|? ? Hh Ht]. inversion_clear Ht as [|? ? Ht' _].
    cbn [Join] in Hjoin. auto.
  - intros (t & -> & Hh & Ht & Hport).
    change (sshHost +:+ ":" +:+ t) with (sshHost +:+ String ":" t).
    rewrite (Split_app _ _ _ Hh), (Split_free _ _ Ht), Hport. reflexivity.
Qed.

(** ** Printing and reading numbers *)

Lemma of_uint_acc_grows d : ∀ acc, (acc ≤ Pos.of_uint_acc d acc)%positive.
Proof.
  induction d; intros acc; cbn [Pos.of_uint_acc]; try lia;
    match goal with
    | |- (_ ≤ Pos.of_uint_acc _ ?acc')%positive => specialize (IHd acc'); lia
    end.
Qed.

Lemma ParseUint_loop_digits d :
  ∀ acc, Z.pos (Pos.of_uint_acc d acc) ≤ maxUint64 →
    ParseUint_loop (NilEmpty.string_of_uint d) (Z.pos acc)
    = Ok (Z.pos (Pos.of_uint_acc d acc)).
Proof.
  induction d; intros acc Hmax;
    cbn [NilEmpty.string_of_uint ParseUint_loop Pos.of_uint_acc] in *;
    [reflexivity|..];
    match goal with
    | H : Z.pos (Pos.of_uint_acc _ ?acc') ≤ _ |- _ =>
        pose proof (of_uint_acc_grows d acc') as Hgrows;
        match goal with
        | |- context [digit ?c] =>
            let v := eval vm_compute in (digit c) in change (digit c) with v
        end;
        cbv beta iota;
        match goal with
        | |- context [maxUint64 <? ?n] =>
            replace n with (Z.pos acc') by lia;
            destruct (Z.ltb_spec maxUint64 (Z.pos acc')); [lia|]
        end;
        apply IHd; assumption
    end.
Qed.

Lemma ParseUint_loop_uint d :
  Z.of_N (Pos.of_uint d) ≤ maxUint64 →
  ParseUint_loop (NilEmpty.string_of_uint d) 0 = Ok (Z.of_N (Pos.of_uint d)).
Proof.
  induction d; intros Hmax;
    cbn [NilEmpty.string_of_uint ParseUint_loop Pos.of_uint] in *;
    [reflexivity|..];
    match goal with
    | |- context [digit ?c] =>
        let v := eval vm_compute in (digit c) in change (digit c) with v
    end;
    cbv beta iota; cbn [Z.mul Z.add Z.of_N];
    match goal with
    | |- context [maxUint64 <? ?n] =>
        destruct (Z.ltb_spec maxUint64 n) as [Hover|_];
        [unfold maxUint64 in Hover; lia|]
    end;
    first [apply IHd; assumption | apply ParseUint_loop_digits; assumption].
Qed.

Lemma string_of_uint_free d : free_of ":" (NilEmpty.string_of_uint d).
Proof.
  induction d; cbn [NilEmpty.string_of_uint free_of]; [exact I|..];
    (split; [discriminate | assumption]).
Qed.

Lemma Itoa_free n : free_of ":" (Itoa n).
Proof.
  unfold Itoa, NilZero.string_of_int, NilZero.string_of_uint.
  destruct (Z.to_int n) as [d|d]; [|split; [discriminate|]];
    (destruct d; [repeat split; discriminate | apply string_of_uint_free ..]).
Qed.

(** [strconv.Atoi] reads back what [strconv.Itoa] prints. *)
Lemma Atoi_Itoa n : is_int n → Atoi (Itoa n) = Ok n.
Proof.
  unfold is_int. intros Hn. destruct n as [|p|p]; [reflexivity|..].
  all: pose proof (DecimalPos.Unsigned.of_to p) as Hp.
  all: pose proof (Unsigned.to_uint_nonnil p) as Hnil.
  all: assert (Hdigits : ParseUint_loop (NilEmpty.string_of_uint (Pos.to_uint p)) 0
                         = Ok (Z.pos p))
    by (rewrite ParseUint_loop_uint; rewrite Hp;
        [reflexivity | unfold maxUint64; cbn [Z.of_N]; lia]).
  all: unfold Itoa, Atoi; cbn [Z.to_int NilZero.string_of_int].
  all: unfold NilZero.string_of_uint.
  all: destruct (Pos.to_uint p) as [|d|d|d|d|d|d|d|d|d|d]; [contradiction|..].
  all: cbn [NilEmpty.string_of_uint] in *.
  all: repeat (rewrite bool_decide_eq_false_2 by discriminate);
    rewrite ?bool_decide_eq_true_2 by reflexivity;
    cbn [orb]; rewrite Hdigits.
  all: first [ destruct (Z.leb_spec (2 ^ 63) (Z.pos p)); [lia | reflexivity]
             | destruct (Z.ltb_spec (2 ^ 63) (Z.pos p)); [lia | reflexivity] ].
Qed.

(** X7.  An address printed as host, colon, port in decimal is read back by
    ParseSSHAddress as that host and that port, for every host without a
    colon (the empty one too) and every port that a Go int holds (a
    negative one too). *)
Theorem ParseSSHAddress_reads_back sshHost sshPort :
  free_of ":" sshHost → is_int sshPort →
  ParseSSHAddress (sshHost +:+ ":" +:+ Itoa sshPort) = Ok (sshHost, sshPort).
Proof.
  intros Hhost Hport. unfold ParseSSHAddress.
  change (sshHost +:+ ":" +:+ Itoa sshPort)
    with (sshHost +:+ String ":" (Itoa sshPort)).
  rewrite (Split_app _ _ _ Hhost), (Split_free _ _ (Itoa_free sshPort)).
  rewrite (Atoi_Itoa _ Hport). reflexivity.
Qed.

Lemma ParseSSHAddress_reads_back_witness :
  free_of ":" "build-7.fish.example" ∧ is_int 2222 ∧
  ParseSSHAddress "build-7.fish.example:2222" = Ok ("build-7.fish.example", 2222).
Proof.
  assert (Hhost : free_of ":" "build-7.fish.example")
    by (cbn; repeat split; discriminate).
  assert (Hport : is_int 2222) by (unfold is_int; lia).
  split; [exact Hhost|]. split; [exact Hport|].
  exact (ParseSSHAddress_reads_back _ _ Hhost Hport).
Defined.

(** ** Polling loops, tick by tick *)

(** A loop passes over the ticks on which its ticker case only continues. *)
Lemma poll_passes {T L A} (P : T → Prop) (sends : T → list Request)
    (on_deadline : M A) (on_tick : T → L → M (Iteration L A)) :
  (∀ t vars w, P t → ∃ vars' w',
     on_tick t vars w = Some (Continue vars', w') ∧
     config w' = config w ∧ bag w' = bag w ∧ calls w' = calls w ++ sends t) →
  ∀ prefix rest vars w, Forall P prefix →
    ∃ vars' w',
      poll on_deadline on_tick (prefix ++ rest) vars w
      = poll on_deadline on_tick rest vars' w' ∧
      config w' = config w ∧ bag w' = bag w ∧
      calls w' = calls w ++ concat (sends <$> prefix).
Proof.
  intros Htick prefix rest.
  induction prefix as [|t prefix IH]; intros vars w HP.
  - exists vars, w. cbn. rewrite app_nil_r. auto.
  - inversion_clear HP as [|? ? Ht Hprefix].
    destruct (Htick t vars w Ht) as (vars1 & w1 & E & Hcfg & Hbag & Hcalls).
    destruct (IH vars1 w1 Hprefix) as (vars' & w' & E' & Hcfg' & Hbag' & Hcalls').
    exists vars', w'. cbn [app poll]. rewrite (run_bind_Some _ _ _ _ _ E).
    split; [exact E'|]. split; [congruence|]. split; [congruence|].
    rewrite Hcalls', Hcalls, <- app_assoc. reflexivity.
Qed.

Lemma concat_singletons {A B} (x : B) (l : list A) :
  concat ((λ _, [x]) <$> l) = replicate (length l) x.
Proof. induction l as [|a l IH]; cbn; [|rewrite IH]; reflexivity. Qed.

(** ** Create-Output-Artifact: until a result arrives *)

Lemma StepCreateImage_tick_in_progress createdTask answer vars w :
  in_progress answer →
  ∃ vars' w', StepCreateImage_tick createdTask answer vars w
              = Some (Continue vars', w') ∧
    config w' = config w ∧ bag w' = bag w ∧
    calls w' = calls w ++ [GetApplicationTask (Task_UID createdTask)].
Proof.
  intros (task & -> & Hresult). unfold StepCreateImage_tick. run.
  rewrite Hresult, map_size_empty.
  rewrite bool_decide_eq_false_2 by lia. run.
  eexists _, _. split; [reflexivity|]. run. auto.
Qed.

(** X8.  The capture step first sends one task request: the task TaskImage,
    to run when the application reaches DEALLOCATE, for the id of the
    application.  If the service refuses it, the step halts with "image task
    creation failed" and asks nothing more.  Otherwise it asks for the
    created task once per tick: as long as the answers carry no result it
    goes on, until the deadline, where it halts with "image creation
    timeout"; and a failed task request halts it at once with "failed to get
    task status", whatever ticks would follow. *)
Theorem image_polling_ends application createdTask waiting w c :
  bag w !! "ui" = Some VUi →
  bag w !! "api_client" = Some (VClient c) →
  bag w !! "application" = Some (VApplication application) →
  Forall in_progress waiting →
  let create := image_task_request application in
  let ask := GetApplicationTask (Task_UID createdTask) in
  (∀ err ticks,
     halted_with (Errorf "image task creation failed: %v" [arg_err err])
       [create] w (StepCreateImage_Run (Err err) ticks w)) ∧
  halted_with (Errorf "image creation timeout" [])
    (create :: replicate (length waiting) ask) w
    (StepCreateImage_Run (Ok createdTask) waiting w) ∧
  (∀ err later,
     halted_with (Errorf "failed to get task status: %v" [arg_err err])
       (create :: replicate (length waiting) ask ++ [ask]) w
       (StepCreateImage_Run (Ok createdTask) (waiting ++ Err err :: later) w)).
Proof.
  intros Hui Hc Ha Hwaiting create ask. subst create ask.
  unfold halted_with, image_task_request, StepCreateImage_Run.
  run. rewrite Hui, Hc, Ha. run. split; [|split].
  - intros err ticks. eexists. split; [reflexivity|]. run. auto.
  - unfold StepCreateImage_loop.
    match goal with
    | |- context [poll ?d ?t waiting ?vars ?w1] =>
        destruct (poll_passes in_progress
                    (λ _, [GetApplicationTask (Task_UID createdTask)]) d t
                    (StepCreateImage_tick_in_progress createdTask)
                    waiting [] vars w1 Hwaiting)
          as (vars' & w' & E & Hcfg & Hbag & Hcalls)
    end.
    rewrite app_nil_r in E. rewrite E. cbn [poll]. run.
    eexists. split; [reflexivity|]. run. rewrite Hbag, Hcalls. run.
    rewrite concat_singletons, <- app_assoc. auto.
  - intros err later. unfold StepCreateImage_loop.
    match goal with
    | |- context [poll ?d ?t _ ?vars ?w1] =>
        destruct (poll_passes in_progress
                    (λ _, [GetApplicationTask (Task_UID createdTask)]) d t
                    (StepCreateImage_tick_in_progress createdTask)
                    waiting (Err err :: later) vars w1 Hwaiting)
          as (vars' & w' & E & Hcfg & Hbag & Hcalls)
    end.
    rewrite E. cbn [poll]. unfold StepCreateImage_tick. run.
    eexists. split; [reflexivity|]. run. rewrite Hbag, Hcalls. run.
    rewrite concat_singletons, <- !app_assoc. auto.
Qed.

Lemma image_polling_ends_witness :
  let waiting := [Ok (Sample.task ∅); Ok (Sample.task ∅)] in
  Forall in_progress waiting ∧
  halted_with (Errorf "image creation timeout" [])
    [image_task_request Sample.app; GetApplicationTask "task-1";
     GetApplicationTask "task-1"]
    Sample.world (StepCreateImage_Run (Ok (Sample.task ∅)) waiting Sample.world).
Proof.
  intros waiting.
  assert (H : Forall in_progress waiting)
    by (repeat constructor; eexists; split; reflexivity).
  split; [exact H|].
  destruct (image_polling_ends Sample.app (Sample.task ∅) waiting Sample.world
              (NewAPIClient "https://fish.example:8001/grpc" "packer" "secret"))
    as (_ & Htimeout & _); try reflexivity; [exact H|].
  exact Htimeout.
Defined.

(** ** Cleanup: the requests it sends *)

Lemma StepCleanup_tick_run application answer w :
  ∃ w', StepCleanup_tick application answer tt w
        = Some (if settled answer then Return tt else Continue tt, w') ∧
    config w' = config w ∧ bag w' = bag w ∧
    calls w' = calls w ++ [GetApplicationState (Application_UID application)].
Proof.
  unfold StepCleanup_tick. run.
  destruct answer as [[status description]|err]; cbn [settled Status Description];
    run.
  2: { eexists. split; [reflexivity|]. run. auto. }
  destruct (bool_decide (status = "DEALLOCATED")
            || bool_decide (status = "RECALLED")); cbn [orb]; run.
  { eexists. split; [reflexivity|]. run. auto. }
  destruct (bool_decide (status = "ERROR")); run.
  all: eexists; (split; [reflexivity|]); run; auto.
Qed.

Lemma StepCleanup_wait_polls application answers w :
  ∃ w', StepCleanup_wait application answers w = Some (tt, w') ∧
    config w' = config w ∧ bag w' = bag w ∧
    calls w' = calls w ++
      replicate (polls_until_settled answers)
        (GetApplicationState (Application_UID application)).
Proof.
  unfold StepCleanup_wait. revert w.
  induction answers as [|answer later IH]; intros w; cbn [poll polls_until_settled].
  - run. eexists. split; [reflexivity|]. run. rewrite app_nil_r. auto.
  - destruct (StepCleanup_tick_run application answer w)
      as (w1 & E & Hcfg & Hbag & Hcalls).
    rewrite (run_bind_Some _ _ _ _ _ E). destruct (settled answer).
    + exists w1. split; [reflexivity|]. auto.
    + destruct (IH w1) as (w' & E' & Hcfg' & Hbag' & Hcalls').
      exists w'. split; [exact E'|]. split; [congruence|]. split; [congruence|].
      rewrite Hcalls', Hcalls, <- app_assoc. reflexivity.
Qed.

(** X9.  With an API client and an application in the state bag, the
    cleanup sends the deallocation request for the id of the application
    first.  If the service refuses it, the cleanup sends nothing more.
    Otherwise it asks for the state of the application once per tick, up to
    the first answer that is a failure or carries DEALLOCATED, RECALLED or
    ERROR, or up to its deadline.  In every case it returns, and it leaves
    the state bag and the configuration as they were: it never records an
    error. *)
Theorem cleanup_sends answer answers w c application :
  bag w !! "ui" = Some VUi →
  bag w !! "api_client" = Some (VClient c) →
  bag w !! "application" = Some (VApplication application) →
  ∃ w', StepCleanup_Cleanup answer answers w = Some (tt, w') ∧
    config w' = config w ∧ bag w' = bag w ∧
    calls w' = calls w ++
      DeallocateApplication (Application_UID application)
      :: replicate (match answer with
                    | Ok _ => polls_until_settled answers
                    | Err _ => 0%nat
                    end) (GetApplicationState (Application_UID application)).
Proof.
  intros Hui Hc Ha. unfold StepCleanup_Cleanup. run. rewrite Hui, Hc, Ha. run.
  destruct answer as [[]|err]; run.
  - match goal with
    | |- context [StepCleanup_wait _ _ ?w1] =>
        destruct (StepCleanup_wait_polls application answers w1)
          as (w' & E & Hcfg & Hbag & Hcalls)
    end.
    exists w'. split; [exact E|]. revert Hcfg Hbag Hcalls. run.
    intros -> -> ->. rewrite <- app_assoc. auto.
  - eexists. split; [reflexivity|]. run. auto.
Qed.

Lemma cleanup_sends_witness :
  let answers :=
    [Ok {| Status := "DEALLOCATE"; Description := "" |};
     Ok {| Status := "DEALLOCATED"; Description := "" |};
     Ok {| Status := "DEALLOCATED"; Description := "" |}] in
  bag Sample.world !! "ui" = Some VUi ∧
  ∃ w', StepCleanup_Cleanup (Ok tt) answers Sample.world = Some (tt, w') ∧
    bag w' = bag Sample.world ∧
    calls w' = [DeallocateApplication "app-1"; GetApplicationState "app-1";
                GetApplicationState "app-1"].
Proof.
  intros answers. split; [reflexivity|].
  destruct (cleanup_sends (Ok tt) answers Sample.world
              (NewAPIClient "https://fish.example:8001/grpc" "packer" "secret")
              Sample.app) as (w' & E & _ & Hbag & Hcalls); try reflexivity.
  exists w'. split; [exact E|]. split; [exact Hbag | exact Hcalls].
Defined.

Lemma StepCleanup_Cleanup_leaves answer answers answer' answers' w :
  (λ r, (bag r.2, config r.2)) <$> StepCleanup_Cleanup answer answers w
  = (λ r, (bag r.2, config r.2)) <$> StepCleanup_Cleanup answer' answers' w.
Proof.
  unfold StepCleanup_Cleanup. run.
  destruct (bag w !! "ui") as [[]|]; run; try reflexivity.
  destruct (bag w !! "api_client") as [[]|]; run; try reflexivity.
  destruct (bag w !! "application") as [[]|]; run; try reflexivity.
  destruct answer as [[]|err], answer' as [[]|err']; run;
    repeat match goal with
           | |- context [StepCleanup_wait ?a ?l ?w1] =>
               let w' := fresh "w" in
               let Hcfg := fresh "Hcfg" in
               let Hbag := fresh "Hbag" in
               destruct (StepCleanup_wait_polls a l w1)
                 as (w' & -> & Hcfg & Hbag & _);
               revert Hcfg Hbag; run; intros Hcfg Hbag
           end;
    cbn [fmap option_fmap option_map snd]; run; congruence.
Qed.

(** X10.  What the service answers to the requests of the cleanup never
    changes what Builder.Run returns, artifact or error, nor the state bag
    and the configuration it leaves: a refused or unfinished deallocation is
    only printed. *)
Theorem cleanup_answers_do_not_change_the_result cfg env answer answers :
  returned (Builder_Run (with_deallocation answer answers env) (new_world cfg))
  = returned (Builder_Run env (new_world cfg)).
Proof.
  rewrite !Builder_Run_ending.
  change (Builder_later_steps (with_deallocation answer answers env))
    with (Builder_later_steps env).
  destruct (run_steps (Builder_later_steps env) _) as [[[] w]|]; [|reflexivity].
  unfold Builder_ending.
  pose proof (StepCleanup_Cleanup_leaves
                (env_deallocate (with_deallocation answer answers env))
                (env_deallocation (with_deallocation answer answers env))
                (env_deallocate env) (env_deallocation env) w) as H.
  rewrite !run_bind.
  destruct (StepCleanup_Cleanup _ _ w) as [[[] w1]|],
    (StepCleanup_Cleanup (env_deallocate env) _ w) as [[[] w2]|];
    cbn in H; try discriminate; [|reflexivity].
  injection H as Hbag Hcfg. unfold returned. run. rewrite Hbag.
  destruct (bag w2 !! "error") as [[]|]; run; rewrite ?Hbag;
    try reflexivity; try (cbn; congruence).
  destruct (bag w2 !! "generated_data") as [[]|]; run; try reflexivity.
  cbn. congruence.
Qed.

(** ** Wait-For-Ready: the allocation and its resource *)

(** The same, for the state bag and the configuration only. *)
Lemma poll_passes_quietly {T L A} (P : T → Prop)
    (on_deadline : M A) (on_tick : T → L → M (Iteration L A)) :
  (∀ t vars w, P t → ∃ vars' w',
     on_tick t vars w = Some (Continue vars', w') ∧
     config w' = config w ∧ bag w' = bag w) →
  ∀ prefix rest vars w, Forall P prefix →
    ∃ vars' w',
      poll on_deadline on_tick (prefix ++ rest) vars w
      = poll on_deadline on_tick rest vars' w' ∧
      config w' = config w ∧ bag w' = bag w.
Proof.
  intros Htick prefix rest.
  induction prefix as [|t prefix IH]; intros vars w HP.
  - exists vars, w. auto.
  - inversion_clear HP as [|? ? Ht Hprefix].
    destruct (Htick t vars w Ht) as (vars1 & w1 & E & Hcfg & Hbag).
    destruct (IH vars1 w1 Hprefix) as (vars' & w' & E' & Hcfg' & Hbag').
    exists vars', w'. cbn [app poll]. rewrite (run_bind_Some _ _ _ _ _ E).
    split; [exact E'|]. split; congruence.
Qed.

Lemma fetch_resource_run {S} application answer (lastStatus : S) w g :
  bag w !! "generated_data" = Some (VGenerated g) →
  ∃ w',
    fetch_resource application answer lastStatus w
    = Some (match answer with
            | Ok None => Continue lastStatus
            | Ok (Some _) => Return ActionContinue
            | Err _ => Return ActionHalt
            end, w') ∧
    config w' = config w ∧
    bag w' = match answer with
             | Ok None => bag w
             | Ok (Some resource) => with_resource resource g (bag w)
             | Err err =>
                 <["error" := VError (Errorf "failed to get application resource: %v"
                                        [arg_err err])]> (bag w)
             end.
Proof.
  intros Hg. unfold fetch_resource, with_resource.
  destruct answer as [[resource|]|err]; run; look; rewrite ?Hg; run;
    eexists; (split; [reflexivity|]); run; auto.
Qed.

Lemma StepWaitForAllocation_tick_allocated application tick answer lastStatus w :
  allocated_with Some ALLOCATED answer tick →
  ∃ lastStatus' w1,
    StepWaitForAllocation_tick application tick lastStatus w
    = fetch_resource application answer lastStatus' w1 ∧
    config w1 = config w ∧ bag w1 = bag w.
Proof.
  intros ([status description] & Hstate & Hstatus & Hanswer).
  cbn [Status] in Hstatus. subst status.
  unfold StepWaitForAllocation_tick. run. rewrite Hstate, Hanswer.
  cbn [GetStatus GetDescription from_option Status Description].
  destruct (bool_decide (ALLOCATED ≠ lastStatus)); run;
    eexists _, _; (split; [reflexivity|]); run; auto.
Qed.

Lemma Legacy_StepWaitForAllocation_tick_allocated
    application tick answer lastStatus w :
  allocated_with id "ALLOCATED" answer tick →
  ∃ lastStatus' w1,
    Legacy.StepWaitForAllocation_tick application tick lastStatus w
    = fetch_resource application answer lastStatus' w1 ∧
    config w1 = config w ∧ bag w1 = bag w.
Proof.
  intros ([status description] & Hstate & Hstatus & Hanswer).
  cbn [Status] in Hstatus. subst status.
  unfold Legacy.StepWaitForAllocation_tick. run. rewrite Hstate, Hanswer.
  cbn [id Status Description].
  rewrite (bool_decide_eq_true_2 ("ALLOCATED" = "ALLOCATED")) by reflexivity.
  destruct (bool_decide ("ALLOCATED" ≠ lastStatus)); run;
    eexists _, _; (split; [reflexivity|]); run; auto.
Qed.

Lemma StepWaitForAllocation_tick_waiting application tick lastStatus w :
  still_waiting Some ALLOCATED [ERROR; DEALLOCATED; DEALLOCATE] tick →
  ∃ lastStatus' w',
    StepWaitForAllocation_tick application tick lastStatus w
    = Some (Continue lastStatus', w') ∧
    config w' = config w ∧ bag w' = bag w.
Proof.
  intros ([status description] & Hstate & Hstatus & Hresource).
  cbn [Status] in Hstatus, Hresource.
  unfold StepWaitForAllocation_tick. run. rewrite Hstate.
  cbn [GetStatus GetDescription from_option Status Description].
  destruct (bool_decide (status ≠ lastStatus)); run;
    destruct status; try (exfalso; members; fail);
    rewrite ?(Hresource eq_refl); unfold fetch_resource; run;
    eexists _, _; (split; [reflexivity|]); run; auto.
Qed.

Lemma Legacy_StepWaitForAllocation_tick_waiting application tick lastStatus w :
  still_waiting id "ALLOCATED" ["ERROR"; "DEALLOCATED"; "RECALLED"] tick →
  ∃ lastStatus' w',
    Legacy.StepWaitForAllocation_tick application tick lastStatus w
    = Some (Continue lastStatus', w') ∧
    config w' = config w ∧ bag w' = bag w.
Proof.
  intros ([status description] & Hstate & Hstatus & Hresource).
  cbn [Status] in Hstatus, Hresource.
  unfold Legacy.StepWaitForAllocation_tick. run. rewrite Hstate.
  cbn [id Status Description].
  destruct (bool_decide (status ≠ lastStatus)); run;
    repeat case_bool_decide; try contradiction;
    rewrite ?(Hresource ltac:(assumption)); unfold fetch_resource; run;
    eexists _, _; (split; [reflexivity|]); run; auto.
Qed.

Lemma fetch_resource_without {S} application answer (lastStatus : S) w :
  (∀ resource, answer ≠ Ok (Some resource)) →
  ∃ w',
    fetch_resource application answer lastStatus w
    = Some (match answer with
            | Ok _ => Continue lastStatus
            | Err _ => Return ActionHalt
            end, w') ∧
    config w' = config w ∧
    bag w' = match answer with
             | Ok _ => bag w
             | Err err =>
                 <["error" := VError (Errorf "failed to get application resource: %v"
                                        [arg_err err])]> (bag w)
             end.
Proof.
  intros Hnone. unfold fetch_resource.
  destruct answer as [[resource|]|err]; [destruct (Hnone resource eq_refl)|..];
    run; eexists; (split; [reflexivity|]); run; auto.
Qed.

Section allocation.
Context {St S : Type} (present : ApplicationState S → St)
  (allocated : S) (failures : list S) (application : Application)
  (on_tick : AllocationTick St → S → M (Iteration S StepAction)).
Hypothesis on_waiting : ∀ tick lastStatus w,
  still_waiting present allocated failures tick →
  ∃ lastStatus' w',
    on_tick tick lastStatus w = Some (Continue lastStatus', w') ∧
    config w' = config w ∧ bag w' = bag w.
Hypothesis on_allocated : ∀ tick answer lastStatus w,
  allocated_with present allocated answer tick →
  ∃ lastStatus' w1,
    on_tick tick lastStatus w = fetch_resource application answer lastStatus' w1 ∧
    config w1 = config w ∧ bag w1 = bag w.

Lemma poll_times_out waiting lastStatus w :
  Forall (still_waiting present allocated failures) waiting →
  ∃ w', poll allocation_timeout on_tick waiting lastStatus w
        = Some (ActionHalt, w') ∧
    bag w' = <["error" := VError (Errorf "allocation timeout" [])]> (bag w).
Proof.
  intros Hwaiting.
  destruct (poll_passes_quietly _ allocation_timeout on_tick on_waiting
              waiting [] lastStatus w Hwaiting) as (vars' & w' & E & _ & Hbag).
  rewrite app_nil_r in E. rewrite E. cbn [poll]. unfold allocation_timeout. run.
  eexists. split; [reflexivity|]. run. rewrite Hbag. reflexivity.
Qed.

Lemma poll_resource_fails waiting tick err later lastStatus w :
  Forall (still_waiting present allocated failures) waiting →
  allocated_with present allocated (Err err) tick →
  ∃ w', poll allocation_timeout on_tick (waiting ++ tick :: later) lastStatus w
        = Some (ActionHalt, w') ∧
    bag w' = <["error" := VError (Errorf "failed to get application resource: %v"
                                    [arg_err err])]> (bag w).
Proof.
  intros Hwaiting Htick.
  destruct (poll_passes_quietly _ allocation_timeout on_tick on_waiting
              waiting (tick :: later) lastStatus w Hwaiting)
    as (vars' & w' & E & _ & Hbag).
  rewrite E. cbn [poll].
  destruct (on_allocated tick (Err err) vars' w' Htick)
    as (lastStatus' & w1 & E1 & _ & Hbag1).
  destruct (fetch_resource_without application (Err err) lastStatus' w1)
    as (w2 & E2 & _ & Hbag2); [discriminate|].
  rewrite run_bind, E1, E2. eexists. split; [reflexivity|]. congruence.
Qed.

Lemma poll_finds_resource waiting tick resource later lastStatus w g :
  bag w !! "generated_data" = Some (VGenerated g) →
  Forall (still_waiting present allocated failures) waiting →
  allocated_with present allocated (Ok (Some resource)) tick →
  ∃ w', poll allocation_timeout on_tick (waiting ++ tick :: later) lastStatus w
        = Some (ActionContinue, w') ∧
    bag w' = with_resource resource g (bag w).
Proof.
  intros Hg Hwaiting Htick.
  destruct (poll_passes_quietly _ allocation_timeout on_tick on_waiting
              waiting (tick :: later) lastStatus w Hwaiting)
    as (vars' & w' & E & _ & Hbag).
  rewrite E. cbn [poll].
  destruct (on_allocated tick (Ok (Some resource)) vars' w' Htick)
    as (lastStatus' & w1 & E1 & _ & Hbag1).
  destruct (fetch_resource_run application (Ok (Some resource)) lastStatus' w1 g)
    as (w2 & E2 & _ & Hbag2); [congruence|].
  rewrite run_bind, E1, E2. eexists. split; [reflexivity|]. congruence.
Qed.
End allocation.

(** X11.  In both revisions of the Wait-For-Ready loop the status ALLOCATED
    alone does not end the wait: a tick that observes ALLOCATED while the
    resource request finds no resource keeps the loop polling, like a tick
    that observes a status that is not a terminal failure.  If every tick
    before the deadline is of these kinds, the step halts with "allocation
    timeout"; and if after such ticks the resource request of an ALLOCATED
    tick fails, the step halts with "failed to get application resource",
    whatever ticks would follow. *)
Theorem allocation_without_resource_keeps_waiting application w :
  (∀ waiting lastStatus,
     Forall (still_waiting Some ALLOCATED [ERROR; DEALLOCATED; DEALLOCATE]) waiting →
     (∃ w', StepWaitForAllocation_loop application waiting lastStatus w
            = Some (ActionHalt, w') ∧
        bag w' = <["error" := VError (Errorf "allocation timeout" [])]> (bag w)) ∧
     (∀ tick err later,
        allocated_with Some ALLOCATED (Err err) tick →
        ∃ w', StepWaitForAllocation_loop application
                (waiting ++ tick :: later) lastStatus w
              = Some (ActionHalt, w') ∧
          bag w' = <["error" :=
                       VError (Errorf "failed to get application resource: %v"
                                 [arg_err err])]> (bag w))) ∧
  (∀ waiting lastStatus,
     Forall (still_waiting id "ALLOCATED" ["ERROR"; "DEALLOCATED"; "RECALLED"])
       waiting →
     (∃ w', Legacy.StepWaitForAllocation_loop application waiting lastStatus w
            = Some (ActionHalt, w') ∧
        bag w' = <["error" := VError (Errorf "allocation timeout" [])]> (bag w)) ∧
     (∀ tick err later,
        allocated_with id "ALLOCATED" (Err err) tick →
        ∃ w', Legacy.StepWaitForAllocation_loop application
                (waiting ++ tick :: later) lastStatus w
              = Some (ActionHalt, w') ∧
          bag w' = <["error" :=
                       VError (Errorf "failed to get application resource: %v"
                                 [arg_err err])]> (bag w))).
Proof.
  split; intros waiting lastStatus Hwaiting; split.
  - apply (poll_times_out Some ALLOCATED _ _
             (StepWaitForAllocation_tick_waiting application)), Hwaiting.
  - intros tick err later Htick.
    apply (poll_resource_fails Some ALLOCATED _ application _
             (StepWaitForAllocation_tick_waiting application)
             (StepWaitForAllocation_tick_allocated application));
      assumption.
  - apply (poll_times_out id "ALLOCATED" _ _
             (Legacy_StepWaitForAllocation_tick_waiting application)), Hwaiting.
  - intros tick err later Htick.
    apply (poll_resource_fails id "ALLOCATED" _ application _
             (Legacy_StepWaitForAllocation_tick_waiting application)
             (Legacy_StepWaitForAllocation_tick_allocated application));
      assumption.
Qed.

(** X12.  In both revisions of the Wait-For-Ready loop, after any number of
    ticks that keep it polling, the first tick that observes ALLOCATED
    together with a resource ends the step successfully, whatever ticks
    would follow: that resource is stored in the state bag and its id is
    published as ResourceUID. *)
Theorem first_resource_is_stored application w g :
  bag w !! "generated_data" = Some (VGenerated g) →
  (∀ waiting tick resource later lastStatus,
     Forall (still_waiting Some ALLOCATED [ERROR; DEALLOCATED; DEALLOCATE]) waiting →
     allocated_with Some ALLOCATED (Ok (Some resource)) tick →
     ∃ w', StepWaitForAllocation_loop application
             (waiting ++ tick :: later) lastStatus w
           = Some (ActionContinue, w') ∧
       bag w' = with_resource resource g (bag w)) ∧
  (∀ waiting tick resource later lastStatus,
     Forall (still_waiting id "ALLOCATED" ["ERROR"; "DEALLOCATED"; "RECALLED"])
       waiting →
     allocated_with id "ALLOCATED" (Ok (Some resource)) tick →
     ∃ w', Legacy.StepWaitForAllocation_loop application
             (waiting ++ tick :: later) lastStatus w
           = Some (ActionContinue, w') ∧
       bag w' = with_resource resource g (bag w)).
Proof.
  intros Hg. split; intros waiting tick resource later lastStatus Hwaiting Htick.
  - apply (poll_finds_resource Some ALLOCATED _ application _
             (StepWaitForAllocation_tick_waiting application)
             (StepWaitForAllocation_tick_allocated application));
      assumption.
  - apply (poll_finds_resource id "ALLOCATED" _ application _
             (Legacy_StepWaitForAllocation_tick_waiting application)
             (Legacy_StepWaitForAllocation_tick_allocated application));
      assumption.
Qed.

Lemma allocation_without_resource_keeps_waiting_witness :
  let waiting := [Fixture.pending Some NEW; Fixture.pending Some ALLOCATED] in
  Forall (still_waiting Some ALLOCATED [ERROR; DEALLOCATED; DEALLOCATE]) waiting ∧
  ∃ w', StepWaitForAllocation_loop Sample.app waiting UNSPECIFIED Sample.world
        = Some (ActionHalt, w') ∧
    bag w' = <["error" := VError (Errorf "allocation timeout" [])]>
               (bag Sample.world).
Proof.
  intros waiting.
  assert (H : Forall (still_waiting Some ALLOCATED [ERROR; DEALLOCATED; DEALLOCATE])
                waiting).
  { repeat constructor; eexists; (split; [reflexivity|]);
      (split; [members | reflexivity]). }
  split; [exact H|].
  exact (proj1 (proj1 (allocation_without_resource_keeps_waiting
                         Sample.app Sample.world) waiting UNSPECIFIED H)).
Defined.

Lemma first_resource_is_stored_witness :
  let waiting := [Fixture.pending id "ALLOCATED"] in
  bag Sample.world !! "generated_data" = Some (VGenerated ∅) ∧
  Forall (still_waiting id "ALLOCATED" ["ERROR"; "DEALLOCATED"; "RECALLED"])
    waiting ∧
  ∃ w', Legacy.StepWaitForAllocation_loop Sample.app
          (waiting ++ [Sample.observed id "ALLOCATED"]) "" Sample.world
        = Some (ActionContinue, w') ∧
    bag w' = with_resource Sample.resource ∅ (bag Sample.world).
Proof.
  intros waiting.
  assert (Hg : bag Sample.world !! "generated_data" = Some (VGenerated ∅))
    by reflexivity.
  assert (H : Forall (still_waiting id "ALLOCATED"
                        ["ERROR"; "DEALLOCATED"; "RECALLED"]) waiting).
  { repeat constructor; eexists; (split; [reflexivity|]);
      (split; [members | reflexivity]). }
  split; [exact Hg|]. split; [exact H|].
  apply (proj2 (first_resource_is_stored Sample.app Sample.world ∅ Hg)
           waiting (Sample.observed id "ALLOCATED") Sample.resource [] "" H).
  eexists. split; [reflexivity|]. split; reflexivity.
Defined.

(** ** Find-Template: what the later steps can rely on *)

Lemma store_selected_label_run cfg selectedLabel w :
  ∃ a w', store_selected_label cfg selectedLabel w = Some (a, w') ∧
    config w' = config w ∧ calls w' = calls w ∧
    match a with
    | ActionContinue =>
        ∃ label, selectedLabel = Some label ∧ Label_Definitions label ≠ [] ∧
          bag w' = <["selected_label" := VLabel label]> (bag w)
    | ActionHalt => ∃ e, bag w' = <["error" := VError e]> (bag w)
    end.
Proof.
  unfold store_selected_label. destruct selectedLabel as [label|]; run.
  2: { eexists _, _. split; [reflexivity|]. run. eauto. }
  destruct (Label_Definitions label) as [|definition definitions] eqn:Hd;
    cbn [length]; [rewrite bool_decide_eq_true_2 by reflexivity
                  |rewrite bool_decide_eq_false_2 by discriminate]; run.
  all: eexists _, _; (split; [reflexivity|]); run; repeat split; eauto.
  exists label. rewrite Hd. repeat split. discriminate.
Qed.

(** X13.  The Find-Template step sends one label query, for the configured
    name and a version filter that is never empty ("last" when no version
    is configured).  A failed query halts the step with "label retrieval
    failed", and an empty answer with "label not found", before the
    configured version is even parsed.  Whenever the step continues, the
    label it stored is one of the returned labels, has at least one
    definition, and carries the configured version if one is configured or
    else a version that is the highest returned and not negative; whenever
    it halts, it only added an error to the state bag. *)
Theorem selected_label_is_usable answer w c :
  bag w !! "ui" = Some VUi →
  bag w !! "api_client" = Some (VClient c) →
  let cfg := config w in
  ∃ a w' version,
    StepFindLabel_Run answer w = Some (a, w') ∧
    config w' = cfg ∧ version ≠ "" ∧
    calls w' = calls w ++ [GetLabels (LabelName cfg) version] ∧
    (∀ err, answer = Err err →
       a = ActionHalt ∧
       bag w' = <["error" := VError (Errorf "label retrieval failed: %v"
                                       [arg_err err])]> (bag w)) ∧
    (answer = Ok [] →
       a = ActionHalt ∧
       bag w' = <["error" := VError (Errorf "label not found: %s"
                                       [arg_s (LabelName cfg)])]> (bag w)) ∧
    match a with
    | ActionContinue =>
        ∃ labels label,
          answer = Ok labels ∧ label ∈ labels ∧ Label_Definitions label ≠ [] ∧
          bag w' = <["selected_label" := VLabel label]> (bag w) ∧
          (LabelVersion cfg = "" →
           0 ≤ Label_Version label ∧
           ∀ l, l ∈ labels → Label_Version l ≤ Label_Version label) ∧
          (LabelVersion cfg ≠ "" →
           Atoi (LabelVersion cfg) = Ok (Label_Version label))
    | ActionHalt => ∃ e, bag w' = <["error" := VError e]> (bag w)
    end.
Proof.
  intros Hui Hc cfg. subst cfg. unfold StepFindLabel_Run. run.
  rewrite Hui, Hc. run.
  set (version := if bool_decide (LabelVersion (config w) ≠ "")
                  then LabelVersion (config w) else "last").
  assert (Hversion : version ≠ "").
  { subst version. case_bool_decide; [assumption|discriminate]. }
  assert (Hprint : ∀ w0 : World,
    (if bool_decide (LabelVersion (config w) ≠ "")
     then print (Say "Searching for specific version: %s" [arg_s version])
     else print (Say "No version specified, will use the latest version" [])) w0
    = Some (tt, printed
                  (if bool_decide (LabelVersion (config w) ≠ "")
                   then Say "Searching for specific version: %s" [arg_s version]
                   else Say "No version specified, will use the latest version" [])
                  w0)).
  { intros w0. case_bool_decide; reflexivity. }
  rewrite Hprint. clear Hprint.
  destruct answer as [labels|err]; run.
  2: { eexists _, _, version. split; [reflexivity|]. run.
       split; [reflexivity|]. split; [exact Hversion|]. split; [reflexivity|].
       split; [intros err' [= <-]; auto|]. split; [discriminate|]. eauto. }
  destruct labels as [|first others] eqn:Hlabels; cbn [length].
  { rewrite bool_decide_eq_true_2 by reflexivity. run.
    eexists _, _, version. split; [reflexivity|]. run.
    split; [reflexivity|]. split; [exact Hversion|]. split; [reflexivity|].
    split; [discriminate|]. split; [auto|]. eauto. }
  rewrite bool_decide_eq_false_2 by discriminate. rewrite <- Hlabels.
  assert (Hnone : labels ≠ []) by (subst labels; discriminate).
  clear first others Hlabels.
  match goal with
  | |- ∃ a w' v, ?f ?w1 = Some (a, w') ∧ @?rest a w' v =>
      assert (Hstore : ∀ selectedLabel,
        (∀ label, selectedLabel = Some label →
           label ∈ labels ∧
           (LabelVersion (config w) = "" →
            0 ≤ Label_Version label ∧
            ∀ l, l ∈ labels → Label_Version l ≤ Label_Version label) ∧
           (LabelVersion (config w) ≠ "" →
            Atoi (LabelVersion (config w)) = Ok (Label_Version label))) →
        ∃ a w' v,
          store_selected_label (config w) selectedLabel w1 = Some (a, w') ∧
          rest a w' v);
      [|assert (Hhalt : ∀ e l,
          ∃ a w' v,
            Some (ActionHalt, put "error" (VError e) (printed l w1))
            = Some (a, w') ∧ rest a w' v)]
  end; cbv beta.
  { intros selectedLabel Hselected.
    match goal with
    | |- context [store_selected_label _ _ ?w1] =>
        destruct (store_selected_label_run (config w) selectedLabel w1)
          as (a & w' & E & Hcfg' & Hcalls' & H)
    end.
    revert Hcfg' Hcalls' H. run. intros Hcfg' Hcalls' H.
    exists a, w', version. split; [exact E|]. split; [exact Hcfg'|].
    split; [exact Hversion|]. split; [exact Hcalls'|].
    split; [discriminate|]. split; [intros [= ->]; contradiction|].
    destruct a; [|exact H].
    destruct H as (label & -> & Hd & Hb).
    destruct (Hselected label eq_refl) as (Hin & Hlatest & Hrequested).
    exists labels, label. auto 10. }
  { intros e l. eexists _, _, version. split; [reflexivity|]. run.
    split; [reflexivity|]. split; [exact Hversion|]. split; [reflexivity|].
    split; [discriminate|]. split; [intros [= ->]; contradiction|]. eauto. }
  destruct (decide (LabelVersion (config w) = "")) as [Hrequested|Hrequested];
    [rewrite (bool_decide_eq_true_2 _ Hrequested)
    |rewrite (bool_decide_eq_false_2 (LabelVersion (config w) = "") Hrequested)].
  - apply Hstore. intros label Hlabel.
    destruct (latest_label_cases labels (-1) None)
      as [[E _]|(best & E & (before & after & -> & Hb & Ha) & Hbest)];
      rewrite E in Hlabel; [discriminate|]. injection Hlabel as <-.
    split; [rewrite elem_of_app, elem_of_cons; auto|].
    split; [|contradiction]. intros _. split; [lia|].
    intros l Hl. rewrite elem_of_app, elem_of_cons in Hl.
    destruct Hl as [Hl|[->|Hl]]; [specialize (Hb l Hl); lia | lia | auto].
  - destruct (Atoi (LabelVersion (config w))) as [requestedVersion|err] eqn:Hatoi;
      [|apply Hhalt].
    destruct (label_of_version_cases labels requestedVersion)
      as [[E _]|(found & E & before & after & -> & Hv & _)]; rewrite E;
      [apply Hhalt|].
    apply Hstore. intros label [= <-].
    split; [rewrite elem_of_app, elem_of_cons; auto|].
    split; [contradiction|]. intros _. congruence.
Qed.

Lemma selected_label_is_usable_witness :
  bag Sample.world !! "ui" = Some VUi ∧
  ∃ w' label,
    StepFindLabel_Run (Ok [Sample.label 1; Sample.label 3; Sample.label 2])
      Sample.world = Some (ActionContinue, w') ∧
    bag w' = <["selected_label" := VLabel label]> (bag Sample.world) ∧
    Label_Definitions label ≠ [].
Proof.
  split; [reflexivity|].
  destruct (selected_label_is_usable
              (Ok [Sample.label 1; Sample.label 3; Sample.label 2]) Sample.world
              (NewAPIClient "https://fish.example:8001/grpc" "packer" "secret"))
    as (a & w' & version & E & _ & _ & _ & _ & _ & H); try reflexivity.
  assert (Ha : a = ActionContinue).
  { assert (Hrun : fst <$> StepFindLabel_Run
                     (Ok [Sample.label 1; Sample.label 3; Sample.label 2])
                     Sample.world = Some ActionContinue)
      by (vm_compute; reflexivity).
    rewrite E in Hrun. injection Hrun as ->. reflexivity. }
  subst a. destruct H as (labels & label & _ & _ & Hd & Hbag & _).
  exists w', label. split; [exact E|]. split; [exact Hbag | exact Hd].
Defined.

(** ** Setup-Remote-Access: the credentials *)

Lemma with_Communicator_twice c c' cfg :
  with_Communicator c (with_Communicator c' cfg) = with_Communicator c cfg.
Proof. reflexivity. Qed.

Lemma StepSetupSSH_Run_config access w c resource g :
  bag w !! "ui" = Some VUi →
  bag w !! "api_client" = Some (VClient c) →
  bag w !! "application_resource" = Some (VResource resource) →
  bag w !! "generated_data" = Some (VGenerated g) →
  let endpoint := ssh_endpoint (config w) (GetAddress access) in
  ∃ w', StepSetupSSH_Run (Ok access) w = Some (ActionContinue, w') ∧
    config w'
    = with_Communicator (with_access access endpoint.2 (Communicator (config w)))
        (config w) ∧
    bag w' = with_ssh endpoint access g (bag w) ∧
    calls w' = calls w ++ [GetApplicationResourceAccess (Resource_UID resource)].
Proof.
  intros Hui Hc Hr Hg endpoint. subst endpoint.
  unfold StepSetupSSH_Run. run. rewrite Hui, Hc, Hr. run.
  match goal with
  | |- context [resolve_ssh_endpoint ?address ?w1] =>
      destruct (resolve_ssh_endpoint_run address w1) as (w2 & E & Hcfg & Hbag & Hcalls);
      rewrite E; revert Hcfg Hbag Hcalls; run; intros Hcfg Hbag Hcalls
  end.
  unfold with_ssh, with_ssh_data, with_access. rewrite ?Hcfg.
  destruct (ssh_endpoint (config w) (GetAddress access))
    as [sshHost sshPort] eqn:Hendpoint.
  destruct (config w) as [e u p i ln lv ct cr at_ am [ty h po us pw k]] eqn:Hconfig.
  branch_using ltac:(rewrite ?Hbag, ?Hg).
  all: eexists; split; [reflexivity|]; run.
  all: rewrite Hcalls, ?Hbag, ?Hcfg.
  all: repeat split.
  all: unfold with_Communicator, with_SSHPort, with_SSHUsername,
         with_SSHPassword, with_SSHPrivateKey;
       cbn [Communicator Type_ SSHHost SSHPort SSHUsername SSHPassword
            SSHPrivateKey Endpoint Username Password InsecureSkipTLSVerify
            LabelName LabelVersion ConnectionTimeout ConnectionRetries
            AllocationTimeout ApplicationMetadata].
  all: repeat case_bool_decide; try contradiction; try reflexivity.
Qed.

(** X14.  When the access request is answered, the Setup-Remote-Access step
    on the RPC client continues, also when the answer carries no access
    data.  It overwrites the username, the password and the private key of
    the communicator only with credentials that are not empty, always
    overwrites the port with the resolved one, and changes no other setting
    of the configuration, the communicator host included.  The resolved
    port is also stored under ssh_port and published in decimal as
    SSHPort. *)
Theorem remote_access_credentials w c resource g :
  bag w !! "ui" = Some VUi →
  bag w !! "api_client" = Some (VClient c) →
  bag w !! "application_resource" = Some (VResource resource) →
  bag w !! "generated_data" = Some (VGenerated g) →
  ∀ access,
    let sshPort := (ssh_endpoint (config w) (GetAddress access)).2 in
    ∃ w' g',
      StepSetupSSH_Run (Ok access) w = Some (ActionContinue, w') ∧
      config w'
      = with_Communicator (with_access access sshPort (Communicator (config w)))
          (config w) ∧
      SSHPort (Communicator (config w')) = sshPort ∧
      bag w' !! "ssh_port" = Some (VInt sshPort) ∧
      bag w' !! "generated_data" = Some (VGenerated g') ∧
      g' !! "SSHPort" = Some (any_string (Itoa sshPort)).
Proof.
  intros Hui Hc Hr Hg access sshPort. subst sshPort.
  destruct (StepSetupSSH_Run_config access w c resource g Hui Hc Hr Hg)
    as (w' & E & Hcfg & Hbag & _).
  eexists w', _. split; [exact E|]. split; [exact Hcfg|].
  split; [rewrite Hcfg; reflexivity|]. unfold with_ssh in Hbag.
  split; [rewrite Hbag; look; reflexivity|].
  split; [rewrite Hbag; look; reflexivity|].
  unfold with_ssh_data. look. reflexivity.
Qed.

Lemma remote_access_credentials_witness :
  let w := put "application_resource" (VResource Sample.resource) Sample.world in
  bag w !! "ui" = Some VUi ∧
  ∃ w', StepSetupSSH_Run (Ok (Some (Sample.access "10.0.0.7:22"))) w
        = Some (ActionContinue, w') ∧
    Communicator (config w')
    = {| Type_ := "ssh"; SSHHost := "bastion.example"; SSHPort := 22;
         SSHUsername := "root"; SSHPassword := ""; SSHPrivateKey := "" |}.
Proof.
  intros w. split; [reflexivity|].
  destruct (remote_access_credentials w
              (NewAPIClient "https://fish.example:8001/grpc" "packer" "secret")
              Sample.resource ∅) with (access := Some (Sample.access "10.0.0.7:22"))
    as (w' & g' & E & Hcfg & _); try (vm_compute; reflexivity).
  exists w'. split; [exact E|]. rewrite Hcfg. vm_compute. reflexivity.
Defined.

(** ** Setup-Remote-Access: the three revisions *)

Lemma RESTSteps_StepSetupSSH_Run_config access w c resource g :
  bag w !! "ui" = Some VUi →
  bag w !! "api_client" = Some (VClient c) →
  bag w !! "application_resource" = Some (VResource resource) →
  bag w !! "generated_data" = Some (VGenerated g) →
  let endpoint := ssh_endpoint (config w) (Access_Address access) in
  ∃ w', RESTSteps.StepSetupSSH_Run (Ok (Some access)) w
        = Some (ActionContinue, w') ∧
    config w'
    = with_Communicator
        (with_access (Some access) endpoint.2 (Communicator (config w)))
        (config w) ∧
    bag w' = with_ssh endpoint (Some access) g (bag w) ∧
    calls w' = calls w ++ [GetApplicationResourceAccess (Resource_UID resource)].
Proof.
  intros Hui Hc Hr Hg endpoint. subst endpoint.
  unfold RESTSteps.StepSetupSSH_Run. run. rewrite Hui, Hc, Hr. run.
  match goal with
  | |- context [resolve_ssh_endpoint ?address ?w1] =>
      destruct (resolve_ssh_endpoint_run address w1) as (w2 & E & Hcfg & Hbag & Hcalls);
      rewrite E; revert Hcfg Hbag Hcalls; run; intros Hcfg Hbag Hcalls
  end.
  unfold with_ssh, with_ssh_data, with_access. rewrite ?Hcfg.
  cbn [GetUsername GetPassword GetKey from_option].
  destruct (ssh_endpoint (config w) (Access_Address access))
    as [sshHost sshPort] eqn:Hendpoint.
  destruct (config w) as [e u p i ln lv ct cr at_ am [ty h po us pw k]] eqn:Hconfig.
  branch_using ltac:(rewrite ?Hbag, ?Hg).
  all: eexists; split; [reflexivity|]; run.
  all: rewrite Hcalls, ?Hbag, ?Hcfg.
  all: repeat split.
  all: unfold with_Communicator, with_SSHPort, with_SSHUsername,
         with_SSHPassword, with_SSHPrivateKey;
       cbn [Communicator Type_ SSHHost SSHPort SSHUsername SSHPassword
            SSHPrivateKey Endpoint Username Password InsecureSkipTLSVerify
            LabelName LabelVersion ConnectionTimeout ConnectionRetries
            AllocationTimeout ApplicationMetadata].
  all: repeat case_bool_decide; try contradiction; try reflexivity.
Qed.

(** X15.  The earliest revision of the Setup-Remote-Access step, which asks
    the REST client once, and the step on the RPC client return the same
    action and leave the same configuration, state bag and requests when
    the access request fails and when it is answered with access data.
    They differ on an answer without access data, which the REST client
    gives when the service answers 404: the earliest revision panics on it,
    the polling revision retries on the next tick, and the step on the RPC
    client continues with the communicator settings of the operator. *)
Theorem remote_access_revisions w c resource g :
  bag w !! "ui" = Some VUi →
  bag w !! "api_client" = Some (VClient c) →
  bag w !! "application_resource" = Some (VResource resource) →
  bag w !! "generated_data" = Some (VGenerated g) →
  (∀ answer, answer ≠ Ok None →
     outcome_of (RESTSteps.StepSetupSSH_Run answer w)
     = outcome_of (StepSetupSSH_Run answer w)) ∧
  (∀ Decode resp,
     RESTClient.StatusCode resp = 404 →
     RESTClient.GetApplicationResourceAccess Decode (Ok resp) = Ok None) ∧
  RESTSteps.StepSetupSSH_Run (Ok None) w = None ∧
  (∀ maxRetries retryCount later,
     retryCount + 1 ≤ maxRetries →
     ∃ w1, Legacy.StepSetupSSH_loop resource maxRetries (Ok None :: later)
             retryCount w
           = Legacy.StepSetupSSH_loop resource maxRetries later
               (retryCount + 1) w1 ∧
       bag w1 = bag w) ∧
  (∃ w', StepSetupSSH_Run (Ok None) w = Some (ActionContinue, w') ∧
     bag w' = with_ssh (configured_endpoint (config w)) None g (bag w)).
Proof.
  intros Hui Hc Hr Hg. split; [|split; [|split; [|split]]].
  - intros [[access|]|err] Hanswer; [| contradiction |].
    + destruct (RESTSteps_StepSetupSSH_Run_config access w c resource g
                  Hui Hc Hr Hg) as (w1 & -> & Hcfg1 & Hbag1 & Hcalls1).
      destruct (StepSetupSSH_Run_config (Some access) w c resource g
                  Hui Hc Hr Hg) as (w2 & -> & Hcfg2 & Hbag2 & Hcalls2).
      cbn [GetAddress from_option] in *. unfold outcome_of.
      cbn [fmap option_fmap option_map fst snd].
      rewrite Hcfg1, Hbag1, Hcalls1, Hcfg2, Hbag2, Hcalls2. reflexivity.
    + unfold RESTSteps.StepSetupSSH_Run, StepSetupSSH_Run. run.
      rewrite Hui, Hc, Hr. reflexivity.
  - intros Decode resp Hstatus. unfold RESTClient.GetApplicationResourceAccess.
    rewrite Hstatus. reflexivity.
  - unfold RESTSteps.StepSetupSSH_Run. run. rewrite Hui, Hc, Hr. reflexivity.
  - intros maxRetries retryCount later Hretry.
    unfold Legacy.StepSetupSSH_loop. cbn [poll].
    destruct (Legacy_StepSetupSSH_tick_absent resource maxRetries retryCount w
                Hretry) as (w1 & E & _ & Hbag & _).
    rewrite (run_bind_Some _ _ _ _ _ E). eauto.
  - destruct (StepSetupSSH_Run_config None w c resource g Hui Hc Hr Hg)
      as (w' & E & _ & Hbag & _).
    exists w'. split; [exact E|]. exact Hbag.
Qed.

Lemma remote_access_revisions_witness :
  let w := put "application_resource" (VResource Sample.resource) Sample.world in
  bag w !! "ui" = Some VUi ∧
  RESTSteps.StepSetupSSH_Run (Ok None) w = None ∧
  outcome_of (RESTSteps.StepSetupSSH_Run (Ok (Some (Sample.access "10.0.0.7:22"))) w)
  = outcome_of (StepSetupSSH_Run (Ok (Some (Sample.access "10.0.0.7:22"))) w).
Proof.
  intros w. split; [reflexivity|].
  destruct (remote_access_revisions w
              (NewAPIClient "https://fish.example:8001/grpc" "packer" "secret")
              Sample.resource ∅) as (Hsame & _ & Hpanic & _);
    try (vm_compute; reflexivity).
  split; [exact Hpanic|]. apply Hsame. discriminate.
Defined.

Lemma Legacy_StepSetupSSH_tick_frame
    resource maxRetries answer retryCount w0 w g :
  bag w0 !! "generated_data" = Some (VGenerated g) →
  config w = config w0 → bag w = bag w0 →
  ∃ it w',
    Legacy.StepSetupSSH_tick resource maxRetries answer retryCount w
    = Some (it, w') ∧
    config w' = config w0 ∧
    match it with
    | Continue _ => bag w' = bag w0
    | Return ActionContinue =>
        ∃ access, answer = Ok (Some access) ∧
          bag w' = with_ssh_polled
                     (ssh_endpoint (config w0) (Access_Address access)) g (bag w0)
    | Return ActionHalt => ∃ e, bag w' = <["error" := VError e]> (bag w0)
    end.
Proof.
  intros Hg Hcfg Hbag. unfold Legacy.StepSetupSSH_tick.
  destruct (maxRetries <? retryCount + 1); run.
  { eexists _, _. split; [reflexivity|]. run. rewrite Hbag. eauto. }
  destruct answer as [[access|]|err]; run.
  2, 3: eexists _, _; (split; [reflexivity|]); run; rewrite ?Hbag; eauto.
  match goal with
  | |- context [resolve_ssh_endpoint ?address ?w1] =>
      destruct (resolve_ssh_endpoint_run address w1)
        as (w2 & E & Hcfg2 & Hbag2 & Hcalls2);
      rewrite E; revert Hcfg2 Hbag2 Hcalls2; run; intros Hcfg2 Hbag2 Hcalls2
  end.
  look. rewrite Hbag2, Hbag, Hg. run. eexists _, _. split; [reflexivity|]. run.
  split; [congruence|]. exists access. split; [reflexivity|].
  unfold with_ssh_polled, with_ssh_data. rewrite Hbag2, Hbag, Hcfg. reflexivity.
Qed.

(** X16.  The polling revision of the Setup-Remote-Access step, whatever the
    access requests are answered and however many ticks it receives,
    returns, leaves the configuration as it was, and changes the state bag
    only under ssh_host, ssh_port, generated_data and error: it never
    stores the credentials, neither in the communicator settings nor under
    ssh_username or ssh_access.  When it continues, some tick was answered
    with access data and the endpoint it stored is the one resolved from
    that address. *)
Theorem polling_stores_no_credentials ticks w c resource g :
  bag w !! "ui" = Some VUi →
  bag w !! "api_client" = Some (VClient c) →
  bag w !! "application_resource" = Some (VResource resource) →
  bag w !! "generated_data" = Some (VGenerated g) →
  ∃ a w', Legacy.StepSetupSSH_Run ticks w = Some (a, w') ∧
    config w' = config w ∧
    (∀ key, key ∉ ["ssh_host"; "ssh_port"; "generated_data"; "error"] →
       bag w' !! key = bag w !! key) ∧
    match a with
    | ActionContinue =>
        ∃ access, Ok (Some access) ∈ ticks ∧
          bag w' = with_ssh_polled
                     (ssh_endpoint (config w) (Access_Address access)) g (bag w)
    | ActionHalt => ∃ e, bag w' = <["error" := VError e]> (bag w)
    end.
Proof.
  intros Hui Hc Hr Hg. unfold Legacy.StepSetupSSH_Run. run.
  rewrite Hui, Hc, Hr. run. unfold Legacy.StepSetupSSH_loop.
  match goal with
  | |- context [poll ?d ?t ticks ?count ?start] =>
      destruct (poll_outcome (λ tick, tick ∈ ticks)
                  (λ w1, config w1 = config w ∧ bag w1 = bag w)
                  (λ a w', config w' = config w ∧
                     match a with
                     | ActionContinue =>
                         ∃ access, Ok (Some access) ∈ ticks ∧
                           bag w' = with_ssh_polled
                                      (ssh_endpoint (config w) (Access_Address access))
                                      g (bag w)
                     | ActionHalt => ∃ e, bag w' = <["error" := VError e]> (bag w)
                     end) d t) with (ticks := ticks) (vars := count) (w := start)
        as (a & w' & E & Hcfg & H)
  end.
  - intros w1 [Hcfg Hbag]. unfold Legacy.ssh_access_timeout. run.
    eexists _, _. split; [reflexivity|]. run. rewrite Hbag. eauto.
  - intros tick vars w1 Hin [Hcfg Hbag].
    destruct (Legacy_StepSetupSSH_tick_frame resource (ConnectionRetries (config w))
                tick vars w w1 g Hg Hcfg Hbag) as (it & w' & E & Hcfg' & H).
    exists it, w'. split; [exact E|].
    destruct it as [|[]]; [auto | | auto].
    destruct H as (access & -> & Hbag'). eauto.
  - apply Forall_forall. auto.
  - run. auto.
  - exists a, w'. split; [exact E|]. split; [exact Hcfg|]. split; [|exact H].
    intros key Hkey. rewrite !elem_of_cons, elem_of_nil in Hkey.
    destruct a.
    + destruct H as (access & _ & ->). unfold with_ssh_polled.
      rewrite !lookup_insert_ne by (intros <-; apply Hkey; auto).
      reflexivity.
    + destruct H as (e & ->).
      rewrite lookup_insert_ne by (intros <-; apply Hkey; auto 10).
      reflexivity.
Qed.

Lemma polling_stores_no_credentials_witness :
  let w := put "application_resource" (VResource Sample.resource) Sample.world in
  let ticks := [Ok None; Ok (Some (Sample.access "10.0.0.7:22"))] in
  bag w !! "ui" = Some VUi ∧
  ∃ a w', Legacy.StepSetupSSH_Run ticks w = Some (a, w') ∧
    config w' = config w ∧ bag w' !! "ssh_access" = None.
Proof.
  intros w ticks. split; [reflexivity|].
  destruct (polling_stores_no_credentials ticks w
              (NewAPIClient "https://fish.example:8001/grpc" "packer" "secret")
              Sample.resource ∅) as (a & w' & E & Hcfg & Hframe & _);
    try (vm_compute; reflexivity).
  exists a, w'. split; [exact E|]. split; [exact Hcfg|].
  rewrite Hframe; [vm_compute; reflexivity|].
  rewrite !elem_of_cons, elem_of_nil. intros [H|[H|[H|[H|[]]]]]; discriminate.
Defined.

(** ** Connecting *)

Lemma TrimSuffix_slash_one s : TrimSuffix_slash (s +:+ "/") = s.
Proof.
  induction s as [|c rest IH]; [reflexivity|].
  change (String c rest +:+ "/") with (String c (rest +:+ "/")).
  cbn [TrimSuffix_slash]. rewrite IH.
  destruct rest; reflexivity.
Qed.

Lemma TrimSuffix_slash_none s : ¬ ends_in_slash s → TrimSuffix_slash s = s.
Proof.
  unfold ends_in_slash.
  induction s as [|c rest IH]; intros Hs; [reflexivity|].
  cbn [TrimSuffix_slash]. destruct rest as [|c' rest'].
  - case_bool_decide; [|reflexivity]. subst c. destruct Hs. exists "". reflexivity.
  - rewrite IH; [reflexivity|]. intros [s' E]. apply Hs.
    exists (String c s').
    change (String c s' +:+ "/") with (String c (s' +:+ "/")).
    rewrite <- E. reflexivity.
Qed.

(** X17.  NewAPIClient drops one trailing slash of the base URL and no more:
    an endpoint written with one trailing slash gives the same client as the
    endpoint written without it, and a base URL that does not end in a slash
    is kept as it is. *)
Theorem NewAPIClient_drops_one_slash baseURL username password :
  BaseURL (NewAPIClient (baseURL +:+ "/") username password) = baseURL ∧
  (¬ ends_in_slash baseURL →
   NewAPIClient (baseURL +:+ "/") username password
   = NewAPIClient baseURL username password).
Proof.
  unfold NewAPIClient. cbn [BaseURL]. rewrite TrimSuffix_slash_one.
  split; [reflexivity|]. intros Hs. rewrite (TrimSuffix_slash_none _ Hs).
  reflexivity.
Qed.

(** X18.  The Connect step on the RPC client probes the service with one
    identity request.  If the probe fails the step halts with "API
    connection failed", stores no client and does not try to subscribe.  If
    the probe succeeds the step stores the client for the endpoint (with the
    path "grpc" when the endpoint has none), asks for the subscription and
    continues whether or not the subscription is granted: a granted one is
    stored under subscribe_stream, a refused one is dropped without an
    error.  An endpoint that url.Parse rejects makes the step panic. *)
Theorem connecting w u me stream :
  bag w !! "ui" = Some VUi →
  let run := StepConnectAPI_Run (Some u) me stream w in
  (∀ err, me = Err err →
     halted_with (Errorf "API connection failed: %v" [arg_err err])
       [GetCurrentUser] w run) ∧
  (∀ user, me = Ok user →
     ∃ w', run = Some (ActionContinue, w') ∧
       calls w' = calls w ++ [GetCurrentUser; Subscribe] ∧
       bag w' = match stream with
                | Ok _ => <["subscribe_stream" := VStream]>
                | Err _ => id
                end (<["api_client" := VClient (client_of (config w) u)]> (bag w))) ∧
  StepConnectAPI_Run None me stream w = None.
Proof.
  intros Hui run. subst run. unfold StepConnectAPI_Run, halted_with, client_of.
  run. rewrite Hui. run. split; [|split; [|reflexivity]].
  - intros err ->. run. eexists. split; [reflexivity|]. run. auto.
  - intros user ->. run. destruct stream; run;
      eexists; (split; [reflexivity|]); run; rewrite <- app_assoc; auto.
Qed.

Lemma connecting_witness :
  let w := put "ui" VUi (new_world Sample.cfg) in
  bag w !! "ui" = Some VUi ∧
  ∃ w', StepConnectAPI_Run (Some Sample.endpointURL) (Ok tt)
          (Err (remote_error "unimplemented")) w = Some (ActionContinue, w') ∧
    bag w' !! "api_client"
    = Some (VClient (NewAPIClient "https://fish.example:8001/grpc" "packer" "secret")) ∧
    bag w' !! "subscribe_stream" = None ∧ bag w' !! "error" = None.
Proof.
  intros w. split; [reflexivity|].
  destruct (connecting w Sample.endpointURL (Ok tt)
              (Err (remote_error "unimplemented")))
    as (_ & Hok & _); [reflexivity|].
  destruct (Hok tt eq_refl) as (w' & E & _ & Hbag).
  exists w'. split; [exact E|]. rewrite Hbag.
  repeat split; vm_compute; reflexivity.
Defined.

(** X19.  The earlier Connect step, on the REST client, continues exactly
    when the probe is answered with status 200, and then stores the client
    for the configured endpoint and credentials.  In every other case it
    halts and stores no client: with "authentication failed" on status 401,
    with "API connection test failed" on any other status, and with "API
    connection failed" when the request itself fails. *)
Theorem connecting_over_REST w resp :
  bag w !! "ui" = Some VUi →
  ∃ a w',
    RESTSteps.StepConnectAPI_Run resp w = Some (a, w') ∧
    config w' = config w ∧ calls w' = calls w ++ [GetCurrentUser] ∧
    (a = ActionContinue ↔
     ∃ answered, resp = Ok answered ∧ RESTClient.StatusCode answered = 200) ∧
    bag w' = match a with
             | ActionContinue =>
                 <["api_client" :=
                     VClient (NewAPIClient (Endpoint (config w))
                                (Username (config w)) (Password (config w)))]>
                   (bag w)
             | ActionHalt => <["error" := VError (probe_error resp)]> (bag w)
             end.
Proof.
  intros Hui. unfold RESTSteps.StepConnectAPI_Run, probe_error. run.
  rewrite Hui. run.
  unfold RESTClient.StatusUnauthorized, RESTClient.StatusOK.
  destruct resp as [answered|err]; run.
  2: { eexists _, _. split; [reflexivity|]. run. repeat split; try discriminate.
       intros (answered & [=] & _). }
  destruct (bool_decide_reflect (RESTClient.StatusCode answered = 401)) as [H401|H401];
    run.
  { eexists _, _. split; [reflexivity|]. run. repeat split; try discriminate.
    intros (answered' & [= <-] & H200). congruence. }
  destruct (bool_decide_reflect (RESTClient.StatusCode answered ≠ 200)) as [H200|H200];
    run.
  { eexists _, _. split; [reflexivity|]. run. repeat split; try discriminate.
    intros (answered' & [= <-] & H). contradiction. }
  eexists _, _. split; [reflexivity|]. run. repeat split.
  intros _. exists answered. split; [reflexivity|].
  destruct (decide (RESTClient.StatusCode answered = 200)); [assumption|contradiction].
Qed.

Lemma connecting_over_REST_witness :
  let w := put "ui" VUi (new_world Sample.cfg) in
  bag w !! "ui" = Some VUi ∧
  ∃ w', RESTSteps.StepConnectAPI_Run
          (Ok {| RESTClient.StatusCode := 401; RESTClient.Body := "" |}) w
        = Some (ActionHalt, w') ∧
    bag w' !! "error" = Some (VError (Errorf "authentication failed" [])) ∧
    bag w' !! "api_client" = None.
Proof.
  intros w. split; [reflexivity|].
  destruct (connecting_over_REST w
              (Ok {| RESTClient.StatusCode := 401; RESTClient.Body := "" |}))
    as (a & w' & E & _ & _ & Hiff & Hbag); [reflexivity|].
  destruct a.
  - exfalso. destruct (proj1 Hiff eq_refl) as (answered & [= <-] & H).
    discriminate H.
  - exists w'. split; [exact E|]. rewrite Hbag. split; reflexivity.
Defined.

(** ** The REST client: the status of an answer *)

(** X20.  No method of the REST client accepts an answer whose status is not
    200, a status such as 201 or 204 included: it does not decode the body
    and returns the error "API request failed with status ..." with the
    status and the body.  The two exceptions are the requests for the
    resource and for the access of an application, which on status 404
    return neither a value nor an error. *)
Theorem REST_methods_accept_only_200 answered :
  RESTClient.StatusCode answered ≠ 200 →
  let failed {A} : result A error :=
    Err (RESTClient.request_failed answered) in
  let absent_or_failed {A} : result (option A) error :=
    if bool_decide (RESTClient.StatusCode answered = 404) then Ok None
    else Err (RESTClient.request_failed answered) in
  (∀ Decode, RESTClient.GetLabels Decode (Ok answered) = failed) ∧
  (∀ Decode, RESTClient.CreateApplication Decode (Ok answered) = failed) ∧
  (∀ Decode, RESTClient.GetApplicationState Decode (Ok answered) = failed) ∧
  (∀ Decode,
     RESTClient.GetApplicationResource Decode (Ok answered) = absent_or_failed) ∧
  (∀ Decode,
     RESTClient.GetApplicationResourceAccess Decode (Ok answered)
     = absent_or_failed) ∧
  RESTClient.DeallocateApplication (Ok answered) = failed ∧
  (∀ Decode, RESTClient.CreateApplicationTask Decode (Ok answered) = failed) ∧
  (∀ Decode, RESTClient.GetApplicationTask Decode (Ok answered) = failed).
Proof.
  intros Hstatus failed absent_or_failed. subst failed absent_or_failed.
  unfold RESTClient.GetLabels, RESTClient.CreateApplication,
    RESTClient.GetApplicationState, RESTClient.GetApplicationResource,
    RESTClient.GetApplicationResourceAccess, RESTClient.DeallocateApplication,
    RESTClient.CreateApplicationTask, RESTClient.GetApplicationTask,
    RESTClient.StatusOK, RESTClient.StatusNotFound.
  rewrite !(bool_decide_eq_true_2 _ Hstatus). repeat split.
Qed.

Lemma REST_methods_accept_only_200_witness :
  let created := {| RESTClient.StatusCode := 201; RESTClient.Body := "{}" |} in
  RESTClient.StatusCode created ≠ 200 ∧
  ∀ Decode,
    RESTClient.CreateApplication Decode (Ok created)
    = Err (Errorf "API request failed with status %d: %s" [arg_d 201; arg_s "{}"]).
Proof.
  intros created.
  assert (H : RESTClient.StatusCode created ≠ 200) by discriminate.
  split; [exact H|].
  exact (proj1 (proj2 (REST_methods_accept_only_200 created H))).
Defined.

(** X21.  In the earlier Wait-For-Ready loop, fed by the REST client: an
    answer to the state request with any status but 200 halts the step,
    status 404 included.  Once the state is ALLOCATED, status 404 on the
    resource request only means that the resource is not there yet, and the
    loop keeps polling with the state bag as it was; any other status but
    200 on the resource request halts the step. *)
Theorem REST_statuses_while_waiting
    application lastStatus w DecodeState DecodeResource state resource :
  let outcome :=
    Legacy.StepWaitForAllocation_tick application
      {| tick_state := RESTClient.GetApplicationState DecodeState (Ok state);
         tick_resource :=
           RESTClient.GetApplicationResource DecodeResource (Ok resource) |}
      lastStatus w in
  (RESTClient.StatusCode state ≠ 200 →
   ∃ w', outcome = Some (Return ActionHalt, w') ∧
     bag w' = <["error" :=
                  VError (Errorf "failed to get application state: %v"
                            [arg_err (RESTClient.request_failed state)])]> (bag w)) ∧
  (∀ description,
     RESTClient.StatusCode state = 200 →
     DecodeState (RESTClient.Body state)
     = Ok {| Status := "ALLOCATED"; Description := description |} →
     (RESTClient.StatusCode resource = 404 →
      ∃ lastStatus' w', outcome = Some (Continue lastStatus', w') ∧
        bag w' = bag w) ∧
     (RESTClient.StatusCode resource ≠ 200 →
      RESTClient.StatusCode resource ≠ 404 →
      ∃ w', outcome = Some (Return ActionHalt, w') ∧
        bag w' = <["error" :=
                     VError (Errorf "failed to get application resource: %v"
                               [arg_err (RESTClient.request_failed resource)])]>
                   (bag w))).
Proof.
  intros outcome. subst outcome.
  unfold RESTClient.GetApplicationState, RESTClient.GetApplicationResource,
    RESTClient.StatusOK, RESTClient.StatusNotFound.
  split.
  - intros Hstate. rewrite (bool_decide_eq_true_2 _ Hstate).
    unfold Legacy.StepWaitForAllocation_tick. run.
    eexists. split; [reflexivity|]. reflexivity.
  - intros description Hstate Hdecoded.
    rewrite bool_decide_eq_false_2 by (intros H; apply H; exact Hstate).
    rewrite Hdecoded. split.
    + intros Hresource.
      rewrite (bool_decide_eq_true_2 (RESTClient.StatusCode resource ≠ 200))
        by (rewrite Hresource; discriminate).
      rewrite (bool_decide_eq_true_2 _ Hresource).
      match goal with
      | |- context [Legacy.StepWaitForAllocation_tick _ ?tick _ _] =>
          destruct (Legacy_StepWaitForAllocation_tick_waiting application tick
                      lastStatus w) as (lastStatus' & w' & E & _ & Hbag)
      end.
      { eexists. split; [reflexivity|]. split; [members | reflexivity]. }
      eauto.
    + intros Hnot200 Hnot404.
      rewrite (bool_decide_eq_true_2 _ Hnot200), (bool_decide_eq_false_2 _ Hnot404).
      match goal with
      | |- context [Legacy.StepWaitForAllocation_tick _ ?tick _ _] =>
          destruct (Legacy_StepWaitForAllocation_tick_allocated application tick
                      (Err (RESTClient.request_failed resource)) lastStatus w)
            as (lastStatus' & w1 & E & _ & Hbag)
      end.
      { eexists. split; [reflexivity|]. split; reflexivity. }
      destruct (fetch_resource_without application
                  (Err (RESTClient.request_failed resource)) lastStatus' w1)
        as (w2 & E2 & _ & Hbag2); [discriminate|].
      rewrite E, E2. eexists. split; [reflexivity|]. congruence.
Qed.

Lemma REST_statuses_while_waiting_witness :
  let state := {| RESTClient.StatusCode := 404; RESTClient.Body := "" |} in
  RESTClient.StatusCode state ≠ 200 ∧
  ∃ w',
    Legacy.StepWaitForAllocation_tick Sample.app
      {| tick_state := RESTClient.GetApplicationState (λ _, Err (remote_error "EOF"))
                         (Ok state);
         tick_resource := RESTClient.GetApplicationResource
                            (λ _, Err (remote_error "EOF")) (Ok state) |}
      "" Sample.world = Some (Return ActionHalt, w') ∧
    bag w' !! "error"
    = Some (VError (Errorf "failed to get application state: %v"
                      [arg_err (RESTClient.request_failed state)])).
Proof.
  intros state.
  assert (H : RESTClient.StatusCode state ≠ 200) by discriminate.
  split; [exact H|].
  destruct (proj1 (REST_statuses_while_waiting Sample.app "" Sample.world
                     (λ _, Err (remote_error "EOF")) (λ _, Err (remote_error "EOF"))
                     state state) H) as (w' & E & Hbag).
  exists w'. split; [exact E|]. rewrite Hbag. reflexivity.
Defined.

(** ** The run as a whole *)

Lemma StepCleanup_Cleanup_frame answer answers w u w2 :
  StepCleanup_Cleanup answer answers w = Some (u, w2) →
  bag w2 = bag w ∧ config w2 = config w.
Proof.
  unfold StepCleanup_Cleanup. run.
  destruct (bag w !! "ui") as [[]|]; run; try discriminate.
  destruct (bag w !! "api_client") as [[]|]; run; try discriminate;
    try (intros [= _ <-]; auto).
  destruct (bag w !! "application") as [[]|]; run; try discriminate;
    try (intros [= _ <-]; auto).
  destruct answer as [[]|err]; run; try (intros [= _ <-]; auto).
  match goal with
  | |- context [StepCleanup_wait ?a ?l ?w1] =>
      destruct (StepCleanup_wait_polls a l w1) as (w' & -> & Hcfg & Hbag & _);
      revert Hcfg Hbag; run; intros Hcfg Hbag
  end.
  intros [= _ <-]. auto.
Qed.

Lemma Builder_ending_result env w1 r w :
  Builder_ending env w1 = Some (r, w) →
  config w = config w1 ∧ bag w = bag w1 ∧
  match r with
  | Err e => bag w1 !! "error" = Some (VError e)
  | Ok artifact =>
      bag w1 !! "error" = None ∧
      ∃ g, bag w1 !! "generated_data" = Some (VGenerated g) ∧
        artifact = {| StateData := {[ "generated_data" := VGenerated g ]} |}
  end.
Proof.
  unfold Builder_ending. rewrite run_bind.
  destruct (StepCleanup_Cleanup (env_deallocate env) _ w1) as [[[] w2]|] eqn:E;
    [|discriminate].
  destruct (StepCleanup_Cleanup_frame _ _ _ _ _ E) as [Hbag Hcfg].
  run. rewrite Hbag.
  destruct (bag w1 !! "error") as [[]|] eqn:He; run; try discriminate.
  - intros [= <- <-]. auto.
  - rewrite Hbag.
    destruct (bag w1 !! "generated_data") as [[]|] eqn:Hg; run; try discriminate.
    intros [= <- <-]. eauto 10.
Qed.

(** X22.  Builder.Run returns the error that the steps recorded in the state
    bag, and an artifact only when they recorded none; the cleanup neither
    adds nor removes one.  The artifact holds the generated data as the
    state bag has them at the end, under the one key generated_data. *)
Theorem Run_returns_what_the_steps_recorded cfg env r w :
  Builder_Run env (new_world cfg) = Some (r, w) →
  match r with
  | Err e => bag w !! "error" = Some (VError e)
  | Ok artifact =>
      bag w !! "error" = None ∧
      ∃ g, bag w !! "generated_data" = Some (VGenerated g) ∧
        StateData artifact = {[ "generated_data" := VGenerated g ]}
  end.
Proof.
  rewrite Builder_Run_ending.
  destruct (run_steps (Builder_later_steps env) _) as [[[] w1]|]; [|discriminate].
  intros E. destruct (Builder_ending_result env w1 r w E) as (_ & Hbag & H).
  rewrite Hbag. destruct r as [artifact|e]; [|exact H].
  destruct H as (He & g & Hg & ->). eauto.
Qed.

Lemma Run_returns_what_the_steps_recorded_witness :
  let run := Builder_Run (Sample.env "10.0.0.7:22") (new_world Sample.cfg) in
  run = Some (Ok (artifact_of run), world_of (new_world Sample.cfg) run) ∧
  bag (world_of (new_world Sample.cfg) run) !! "error" = None.
Proof.
  intros run.
  assert (E : run = Some (Ok (artifact_of run), world_of (new_world Sample.cfg) run))
    by (vm_compute; reflexivity).
  split; [exact E|].
  exact (proj1 (Run_returns_what_the_steps_recorded _ _ _ _ E)).
Defined.

(** X23.  If the identity probe of the Connect step fails, Builder.Run
    returns the error "API connection failed" with the error of the probe,
    and the probe is the only request of the whole run: no label is looked
    up, nothing is allocated and the cleanup deallocates nothing. *)
Theorem failed_probe_ends_the_run cfg env u err :
  env_endpointURL env = Some u →
  env_me env = Err err →
  ∃ w, Builder_Run env (new_world cfg)
       = Some (Err (Errorf "API connection failed: %v" [arg_err err]), w) ∧
    calls w = [GetCurrentUser].
Proof.
  intros Hu Hme. rewrite Builder_Run_ending.
  change (Builder_later_steps env)
    with ({| Run := StepConnectAPI_Run (env_endpointURL env) (env_me env)
                      (env_stream env);
             Cleanup := nothing_to_clean |}
          :: tail (Builder_later_steps env)).
  rewrite Hu, Hme, run_steps_cons_quiet.
  unfold StepConnectAPI_Run, initial_bag. run. look. run.
  unfold Builder_ending, StepCleanup_Cleanup. run. look. run. look. run.
  eexists. split; reflexivity.
Qed.

Lemma failed_probe_ends_the_run_witness :
  let env := Sample.env "10.0.0.7:22" in
  let refusing :=
    {| env_endpointURL := env_endpointURL env;
       env_me := Err (remote_error "unauthenticated");
       env_stream := env_stream env; env_labels := env_labels env;
       env_now := env_now env; env_created := env_created env;
       env_allocation := env_allocation env; env_access := env_access env;
       env_connect_ssh := env_connect_ssh env;
       env_provision := env_provision env;
       env_image_task := env_image_task env;
       env_image_ticks := env_image_ticks env;
       env_deallocate := env_deallocate env;
       env_deallocation := env_deallocation env |} in
  env_me refusing = Err (remote_error "unauthenticated") ∧
  ∃ w, Builder_Run refusing (new_world Sample.cfg)
       = Some (Err (Errorf "API connection failed: %v"
                      [arg_err (remote_error "unauthenticated")]), w) ∧
    calls w = [GetCurrentUser].
Proof.
  intros env refusing. split; [reflexivity|].
  exact (failed_probe_ends_the_run Sample.cfg refusing Sample.endpointURL
           (remote_error "unauthenticated") eq_refl eq_refl).
Defined.

(** ** What an artifact requires *)

Lemma any_eq_string_false v s : any_eq_string v s = false → v ≠ any_string s.
Proof.
  intros H ->. cbn in H. rewrite bool_decide_eq_true_2 in H by reflexivity.
  discriminate.
Qed.

Lemma StepConnectAPI_Run_continues u me stream w w' :
  StepConnectAPI_Run u me stream w = Some (ActionContinue, w') →
  ∃ user, me = Ok user.
Proof.
  destruct me as [user|err]; [eauto|].
  unfold StepConnectAPI_Run. branch; discriminate.
Qed.

Lemma StepFindLabel_Run_continues answer w w' :
  StepFindLabel_Run answer w = Some (ActionContinue, w') →
  ∃ labels, answer = Ok labels ∧ labels ≠ [].
Proof.
  destruct answer as [[|label labels]|err]; [| eauto |];
    unfold StepFindLabel_Run; branch; discriminate.
Qed.

Lemma sdk_step_Run_continues outcome w w' :
  sdk_step_Run outcome w = Some (ActionContinue, w') → outcome = Ok tt.
Proof. destruct outcome as [[]|err]; [reflexivity|]. cbn. discriminate. Qed.

Lemma StepCreateImage_tick_captured createdTask answer vars w0 w :
  only_polled w0 w →
  ∃ it w', StepCreateImage_tick createdTask answer vars w = Some (it, w') ∧
    match it with
    | Continue _ => only_polled w0 w'
    | Return ActionContinue =>
        ∃ task, answer = Ok task ∧ captured task ∧
          bag w' = with_image task (bag w0)
    | Return ActionHalt => True
    end.
Proof.
  intros (Hcfg & Hbag & Hcalls).
  unfold StepCreateImage_tick, classify_image_result, store_image_task,
    with_image, captured.
  branch.
  all: eexists _, _; split; [reflexivity|]; unfold only_polled; run.
  all: try exact I.
  all: try (repeat split; quiet; auto; fail).
  all: eexists; split; [reflexivity|]; rewrite Hbag.
  all: split; [|reflexivity]; split; [assumption|].
  all: intros status' Hs; try congruence.
  all: match goal with
       | H : Task_Result _ !! "status" = Some ?v |- _ =>
           assert (status' = v) as -> by congruence; clear Hs
       end.
  all: repeat match goal with
              | H : _ || _ = false |- _ => apply orb_false_elim in H; destruct H
              end.
  all: try (split; apply any_eq_string_false; assumption).
  all: match goal with
       | H : _ || _ = true |- _ => apply orb_true_iff in H
       end.
  all: split; intros ->; cbn in *; rewrite !bool_decide_eq_false_2 in *
         by discriminate; intuition discriminate.
Qed.

Lemma StepCreateImage_Run_captured answer ticks w c application :
  bag w !! "ui" = Some VUi →
  bag w !! "api_client" = Some (VClient c) →
  bag w !! "application" = Some (VApplication application) →
  ∃ a w', StepCreateImage_Run answer ticks w = Some (a, w') ∧
    (a = ActionContinue →
     ∃ createdTask task,
       answer = Ok createdTask ∧ Ok task ∈ ticks ∧ captured task ∧
       bag w' = with_image task (bag w)).
Proof.
  intros Hui Hc Ha. unfold StepCreateImage_Run. run. rewrite Hui, Hc, Ha. run.
  destruct answer as [createdTask|err]; run.
  2: { eexists _, _; split; [reflexivity|]. discriminate. }
  unfold StepCreateImage_loop.
  match goal with
  | |- context [poll ?on_deadline ?on_tick ticks tt ?w1] =>
      destruct (poll_outcome (λ tick, tick ∈ ticks) (only_polled w)
                  (λ a w', a = ActionContinue →
                     ∃ task, Ok task ∈ ticks ∧ captured task ∧
                       bag w' = with_image task (bag w))
                  on_deadline on_tick)
        with (ticks := ticks) (vars := tt) (w := w1)
        as (a & w' & E & H)
  end.
  - intros w1 _. run. eexists _, _; split; [reflexivity|]. discriminate.
  - intros tick vars w1 Hin H1.
    destruct (StepCreateImage_tick_captured createdTask tick vars w w1 H1)
      as (it & w' & E & H).
    exists it, w'. split; [exact E|]. destruct it as [|[]]; [exact H| |discriminate].
    intros _. destruct H as (task & -> & ? & ?). eauto.
  - apply Forall_forall. auto.
  - unfold only_polled. run. repeat split; quiet.
  - exists a, w'. split; [exact E|]. intros Ha'.
    destruct (H Ha') as (task & ? & ? & ?). eauto 10.
Qed.

(** Closes the case of a step that halted: the ending returns the recorded
    error, never an artifact. *)
Ltac halted Hrun Hb :=
  let He := fresh "He" in
  apply Builder_ending_result in Hrun;
  destruct Hrun as (_ & _ & He & _);
  rewrite Hb, lookup_insert_eq in He; discriminate He.

(** X24.  Builder.Run returns an artifact only if every step succeeded: the
    identity probe, the label query (with at least one label), the creation
    request and the access request were answered, some tick of the
    Wait-For-Ready loop came with a resource, the SDK's connect and
    provision steps returned no error, the image task was created, and some
    task request was answered with a task whose result is not empty and
    whose status is neither "failed" nor "error"; that task is the one left
    in the state bag under image_task. *)
Theorem artifact_requires_every_step cfg env artifact w :
  Builder_Run env (new_world cfg) = Some (Ok artifact, w) →
  (∃ user, env_me env = Ok user) ∧
  (∃ labels, env_labels env = Ok labels ∧ labels ≠ []) ∧
  (∃ app, env_created env = Ok app) ∧
  (∃ tick resource,
     tick ∈ env_allocation env ∧ tick_resource tick = Ok (Some resource)) ∧
  (∃ access, env_access env = Ok access) ∧
  env_connect_ssh env = Ok tt ∧
  env_provision env = Ok tt ∧
  ∃ createdTask task,
    env_image_task env = Ok createdTask ∧
    Ok task ∈ env_image_ticks env ∧ captured task ∧
    bag w !! "image_task" = Some (VTask task).
Proof.
  intros Hrun.
  destruct (env_endpointURL env) as [u|] eqn:Hu.
  2: { rewrite (Builder_Run_without_endpoint _ _ Hu) in Hrun. discriminate. }
  rewrite Builder_Run_ending in Hrun.
  set (w0 := {| config := cfg; bag := initial_bag; calls := []; ui := [] |}) in Hrun.
  assert (Hb0 : bag w0 = initial_bag) by reflexivity.
  clearbody w0. unfold initial_bag in Hb0.
  change (Builder_later_steps env)
    with ({| Run := StepConnectAPI_Run (env_endpointURL env) (env_me env)
                      (env_stream env);
             Cleanup := nothing_to_clean |}
          :: tail (Builder_later_steps env)) in Hrun.
  unfold Builder_later_steps, Builder_steps in Hrun. cbn [tail] in Hrun.
  (* Connect *)
  rewrite Hu, run_steps_cons_quiet in Hrun.
  destruct (StepConnectAPI_Run_outcome u (env_me env) (env_stream env) w0)
    as (a & w1 & E & _ & _ & H1); [read_bag|]. rewrite E in Hrun.
  destruct a; [|destruct H1 as (e & Hb1); halted Hrun Hb1].
  apply StepConnectAPI_Run_continues in E as Hme.
  destruct H1 as (c & Hb1); clear E.
  assert (Hb1' : bag w1 !! "subscribe_stream" = bag w1 !! "subscribe_stream"
                 ∧ ∀ key, key ≠ "subscribe_stream" →
                     bag w1 !! key
                     = (<["api_client" := VClient c]> (bag w0)) !! key).
  { split; [reflexivity|]. intros key Hkey. rewrite Hb1.
    destruct (env_stream env); [|reflexivity].
    rewrite lookup_insert_ne by congruence. reflexivity. }
  destruct Hb1' as [_ Hb1']. clear Hb1.
  assert (Hui : bag w1 !! "ui" = Some VUi)
    by (rewrite Hb1' by discriminate; read_bag).
  assert (Hclient : bag w1 !! "api_client" = Some (VClient c))
    by (rewrite Hb1' by discriminate; read_bag).
  assert (Hgen : bag w1 !! "generated_data" = Some (VGenerated ∅))
    by (rewrite Hb1' by discriminate; read_bag).
  clear Hb1' Hb0 w0.
  (* Find-Template *)
  rewrite run_steps_cons_quiet in Hrun.
  destruct (StepFindLabel_Run_outcome (env_labels env) w1 c)
    as (a & w2 & E & _ & _ & H2); [read_bag..|]. rewrite E in Hrun.
  destruct a; [|destruct H2 as (e & Hb2); halted Hrun Hb2].
  apply StepFindLabel_Run_continues in E as Hlabels.
  destruct H2 as (label & Hb2); clear E.
  (* Create-Allocation *)
  rewrite run_steps_cons_quiet in Hrun.
  destruct (StepCreateApplication_Run_outcome (env_now env) (env_created env)
              w2 c label ∅)
    as (a & w3 & E & _ & _ & H3); [read_bag..|]. rewrite E in Hrun; clear E.
  destruct a; [|destruct H3 as (? & _ & e & Hb3); halted Hrun Hb3].
  destruct H3 as (app & Hcreated & Hb3).
  (* Wait-For-Ready *)
  rewrite run_steps_cons_quiet in Hrun.
  pose proof (StepWaitForAllocation_Run_outcome (env_allocation env) w3 c app
                (<["ApplicationUID" := any_string (Application_UID app)]> ∅))
    as H4.
  destruct (StepWaitForAllocation_Run (env_allocation env) w3)
    as [[a w4]|]; [|discriminate Hrun].
  destruct H4 as (_ & _ & H4); [read_bag..|].
  destruct a; [|destruct H4 as (e & Hb4); halted Hrun Hb4].
  destruct H4 as (tick & resource & Htick & Hresource & Hb4).
  unfold with_resource in Hb4.
  (* Setup-Remote-Access *)
  rewrite run_steps_cons_quiet in Hrun.
  destruct (StepSetupSSH_Run_outcome (env_access env) w4 c resource
              (<["ResourceUID" := any_string (Resource_UID resource)]>
                 (<["ApplicationUID" := any_string (Application_UID app)]> ∅)))
    as (a & w5 & E & _ & H5); [read_bag..|]. rewrite E in Hrun; clear E.
  destruct (env_access env) as [access|err] eqn:Haccess;
    destruct H5 as [-> Hb5]; [|halted Hrun Hb5].
  unfold with_ssh in Hb5.
  (* Remote shell *)
  rewrite run_steps_cons_quiet in Hrun.
  destruct (sdk_step_Run_outcome (env_connect_ssh env) w5)
    as (a & w6 & E & _ & _ & H6). rewrite E in Hrun.
  destruct a; [|destruct H6 as (e & Hb6); halted Hrun Hb6].
  apply sdk_step_Run_continues in E as Hconnect. clear E.
  (* Provisioning hook *)
  rewrite run_steps_cons_quiet in Hrun.
  destruct (sdk_step_Run_outcome (env_provision env) w6)
    as (a & w7 & E & _ & _ & H7). rewrite E in Hrun.
  destruct a; [|destruct H7 as (e & Hb7); halted Hrun Hb7].
  apply sdk_step_Run_continues in E as Hprovision. clear E.
  (* Create-Output-Artifact *)
  rewrite run_steps_cons_quiet in Hrun.
  destruct (StepCreateImage_Run_outcome (env_image_task env)
              (env_image_ticks env) w7 c app)
    as (a & w8 & E & _ & _ & H8); [read_bag..|].
  destruct (StepCreateImage_Run_captured (env_image_task env)
              (env_image_ticks env) w7 c app)
    as (a' & w8' & E' & H8'); [read_bag..|].
  rewrite E in E'. injection E' as <- <-. rewrite E in Hrun; clear E.
  destruct a; [|destruct H8 as (e & Hb8); halted Hrun Hb8].
  destruct (H8' eq_refl) as (createdTask & task & Hcreate & Hin & Hcaptured & Hb8).
  unfold with_image in Hb8.
  cbn [run_steps] in Hrun. revert Hrun. run. intros Hrun.
  apply Builder_ending_result in Hrun. destruct Hrun as (_ & Hbag & _).
  split; [exact Hme|]. split; [exact Hlabels|]. split; [eauto|].
  split; [eauto|]. split; [eauto|].
  split; [exact Hconnect|]. split; [exact Hprovision|].
  exists createdTask, task. do 3 (split; [assumption|]).
  rewrite Hbag, Hb8. look. reflexivity.
Qed.

Lemma artifact_requires_every_step_witness :
  let run := Builder_Run (Sample.env "10.0.0.7:22") (new_world Sample.cfg) in
  run = Some (Ok (artifact_of run), world_of (new_world Sample.cfg) run) ∧
  env_connect_ssh (Sample.env "10.0.0.7:22") = Ok tt ∧
  env_provision (Sample.env "10.0.0.7:22") = Ok tt.
Proof.
  intros run.
  assert (E : run = Some (Ok (artifact_of run), world_of (new_world Sample.cfg) run))
    by (vm_compute; reflexivity).
  split; [exact E|].
  pose proof (artifact_requires_every_step _ _ _ _ E) as H.
  split; apply H.
Defined.

(** ** Setup-Remote-Access: polling *)

(** The polling revision enters its loop with the retry count 0 and the
    configured number of retries. *)
Lemma Legacy_StepSetupSSH_Run_enters w c resource :
  bag w !! "ui" = Some VUi →
  bag w !! "api_client" = Some (VClient c) →
  bag w !! "application_resource" = Some (VResource resource) →
  ∃ w1, config w1 = config w ∧ bag w1 = bag w ∧ calls w1 = calls w ∧
    ∀ ticks,
      Legacy.StepSetupSSH_Run ticks w
      = Legacy.StepSetupSSH_loop resource (ConnectionRetries (config w)) ticks 0 w1.
Proof.
  intros Hui Hc Hr. unfold Legacy.StepSetupSSH_Run. run. rewrite Hui, Hc, Hr. run.
  eexists. split; [|split; [|split; [|intros ticks; reflexivity]]]; reflexivity.
Qed.

(** Ticks that find no access yet, within the retry count, are passed one
    request each. *)
Lemma Legacy_StepSetupSSH_loop_absent resource maxRetries n :
  ∀ rest retryCount w,
    ((0 < n)%nat → retryCount + Z.of_nat n ≤ maxRetries) →
    ∃ w1,
      Legacy.StepSetupSSH_loop resource maxRetries
        (replicate n (Ok None) ++ rest) retryCount w
      = Legacy.StepSetupSSH_loop resource maxRetries rest
          (retryCount + Z.of_nat n) w1 ∧
      config w1 = config w ∧ bag w1 = bag w ∧
      calls w1 = calls w ++
        replicate n (GetApplicationResourceAccess (Resource_UID resource)).
Proof.
  unfold Legacy.StepSetupSSH_loop.
  induction n as [|n IH]; intros rest retryCount w Hn.
  - exists w. cbn [replicate app]. rewrite Z.add_0_r, app_nil_r. auto.
  - cbn [replicate app poll].
    destruct (Legacy_StepSetupSSH_tick_absent resource maxRetries retryCount w)
      as (w1 & E & Hcfg & Hbag & Hcalls); [lia|].
    rewrite (run_bind_Some _ _ _ _ _ E).
    destruct (IH rest (retryCount + 1) w1) as (w2 & E' & Hcfg' & Hbag' & Hcalls');
      [lia|].
    exists w2. rewrite E'. split; [f_equal; lia|].
    split; [congruence|]. split; [congruence|].
    rewrite Hcalls', Hcalls, <- app_assoc. reflexivity.
Qed.

(** C3.  The earlier revision of the Setup-Remote-Access step polls: on
    every list of ticks it returns, having sent at most one access request
    per tick before the deadline and at most as many as the configured
    retry count.  Ticks that find no access yet keep it polling, one request
    each.  After any number of them within the retry count, the deadline
    halts the step with the timeout error; the tick that exceeds the retry
    count halts it with the retry error without a request; a tick whose
    request fails halts it with that error, whatever ticks would follow; and
    a tick answered with access data ends the step successfully with the
    resolved endpoint stored.  The step on the RPC client does not poll: it
    sends one request, halts when it fails, and continues on every answer,
    one without access data included. *)
Theorem remote_access_polling w c resource g :
  bag w !! "ui" = Some VUi →
  bag w !! "api_client" = Some (VClient c) →
  bag w !! "application_resource" = Some (VResource resource) →
  bag w !! "generated_data" = Some (VGenerated g) →
  let access_request := GetApplicationResourceAccess (Resource_UID resource) in
  let maxRetries := ConnectionRetries (config w) in
  let absent (n : nat) : list (result (option ApplicationResourceAccess) error) :=
    replicate n (Ok None) in
  (∀ ticks,
     ∃ a w' n, Legacy.StepSetupSSH_Run ticks w = Some (a, w') ∧
       calls w' = calls w ++ replicate n access_request ∧
       (n ≤ length ticks)%nat ∧
       Z.of_nat n ≤ Z.max 0 maxRetries) ∧
  (∀ n,
     Z.of_nat n ≤ Z.max 0 maxRetries →
     halted_with (Errorf "SSH access availability timeout" [])
       (replicate n access_request) w
       (Legacy.StepSetupSSH_Run (absent n) w)) ∧
  (∀ n answer later,
     Z.of_nat n = Z.max 0 maxRetries →
     halted_with (Errorf "SSH access availability retry limit exceeded" [])
       (replicate n access_request) w
       (Legacy.StepSetupSSH_Run (absent n ++ answer :: later) w)) ∧
  (∀ n err later,
     Z.of_nat n + 1 ≤ maxRetries →
     halted_with (Errorf "failed to get SSH access credentials: %v" [arg_err err])
       (replicate (S n) access_request) w
       (Legacy.StepSetupSSH_Run (absent n ++ Err err :: later) w)) ∧
  (∀ n access later,
     Z.of_nat n + 1 ≤ maxRetries →
     ∃ w', Legacy.StepSetupSSH_Run (absent n ++ Ok (Some access) :: later) w
           = Some (ActionContinue, w') ∧
       calls w' = calls w ++ replicate (S n) access_request ∧
       bag w' = with_ssh_polled
                  (ssh_endpoint (config w) (Access_Address access)) g (bag w)) ∧
  (∀ err,
     halted_with (Errorf "failed to get SSH access: %v" [arg_err err])
       [access_request] w (StepSetupSSH_Run (Err err) w)) ∧
  (∀ access,
     ∃ w', StepSetupSSH_Run (Ok access) w = Some (ActionContinue, w') ∧
       calls w' = calls w ++ [access_request] ∧
       bag w' = with_ssh (ssh_endpoint (config w) (GetAddress access))
                  access g (bag w)).
Proof.
  intros Hui Hc Hr Hg access_request maxRetries absent.
  subst maxRetries absent. cbv beta.
  destruct (Legacy_StepSetupSSH_Run_enters w c resource Hui Hc Hr)
    as (w0 & Hcfg0 & Hbag0 & Hcalls0 & Henter).
  set (maxRetries := ConnectionRetries (config w)) in *.
  assert (Hg0 : bag w0 !! "generated_data" = Some (VGenerated g))
    by (rewrite Hbag0; exact Hg).
  assert (Hpass : ∀ n rest,
    ((0 < n)%nat → Z.of_nat n ≤ maxRetries) →
    ∃ w1, Legacy.StepSetupSSH_Run (replicate n (Ok None) ++ rest) w
          = Legacy.StepSetupSSH_loop resource maxRetries rest (Z.of_nat n) w1 ∧
      config w1 = config w ∧ bag w1 = bag w ∧
      calls w1 = calls w ++ replicate n access_request).
  { intros n rest Hn. rewrite Henter.
    destruct (Legacy_StepSetupSSH_loop_absent resource maxRetries n rest 0 w0)
      as (w1 & E & Hcfg & Hbag & Hcalls); [lia|].
    rewrite Z.add_0_l in E.
    exists w1. rewrite E. split; [reflexivity|].
    split; [congruence|]. split; [congruence|].
    rewrite Hcalls, Hcalls0. reflexivity. }
  assert (Hsnoc : ∀ n, replicate n access_request ++ [access_request]
                       = replicate (S n) access_request).
  { intros n. induction n as [|n IH]; [reflexivity|].
    cbn [replicate app] in *. rewrite IH. reflexivity. }
  unfold halted_with.
  split; [|split; [|split; [|split; [|split; [|split]]]]].
  - intros ticks. rewrite Henter.
    destruct (Legacy_StepSetupSSH_loop_bounded resource maxRetries g ticks 0 w0 Hg0)
      as (a & w' & n & E & Hcalls & Hn & Hmax).
    exists a, w', n. rewrite Z.sub_0_r in Hmax.
    split; [exact E|]. split; [rewrite Hcalls, Hcalls0; reflexivity|].
    split; assumption.
  - intros n Hn. rewrite <- (app_nil_r (replicate n _)).
    destruct (Hpass n []) as (w1 & E & Hcfg & Hbag & Hcalls); [lia|].
    rewrite E. unfold Legacy.StepSetupSSH_loop. cbn [poll].
    unfold Legacy.ssh_access_timeout. run.
    eexists. split; [reflexivity|]. run. rewrite Hbag, Hcalls. auto.
  - intros n answer later Hn.
    destruct (Hpass n (answer :: later)) as (w1 & E & Hcfg & Hbag & Hcalls); [lia|].
    rewrite E. unfold Legacy.StepSetupSSH_loop. cbn [poll].
    rewrite (run_bind_Some _ _ _ _ _
               (Legacy_StepSetupSSH_tick_exhausted resource maxRetries answer
                  (Z.of_nat n) w1 ltac:(lia))).
    eexists. split; [reflexivity|]. run. rewrite Hbag, Hcalls. auto.
  - intros n err later Hn.
    destruct (Hpass n (Err err :: later)) as (w1 & E & Hcfg & Hbag & Hcalls); [lia|].
    rewrite E. unfold Legacy.StepSetupSSH_loop. cbn [poll].
    destruct (Legacy_StepSetupSSH_tick_error resource maxRetries err (Z.of_nat n)
                w1 Hn) as (w2 & E2 & Hbag2 & Hcalls2).
    rewrite (run_bind_Some _ _ _ _ _ E2).
    exists w2. split; [reflexivity|].
    rewrite Hbag2, Hcalls2, Hbag, Hcalls, <- app_assoc, Hsnoc. auto.
  - intros n access later Hn.
    destruct (Hpass n (Ok (Some access) :: later))
      as (w1 & E & Hcfg & Hbag & Hcalls); [lia|].
    rewrite E. unfold Legacy.StepSetupSSH_loop. cbn [poll].
    destruct (Legacy_StepSetupSSH_tick_access resource maxRetries access
                (Z.of_nat n) w1 g Hn) as (w2 & E2 & Hbag2 & Hcalls2).
    { rewrite Hbag. exact Hg. }
    rewrite (run_bind_Some _ _ _ _ _ E2).
    exists w2. split; [reflexivity|].
    rewrite Hbag2, Hcalls2, Hbag, Hcalls, Hcfg, <- app_assoc, Hsnoc. auto.
  - intros err. unfold StepSetupSSH_Run. run. rewrite Hui, Hc, Hr. run.
    eexists. split; [reflexivity|]. run. auto.
  - intros access.
    destruct (StepSetupSSH_Run_config access w c resource g Hui Hc Hr Hg)
      as (w' & E & _ & Hbag & Hcalls).
    eauto.
Qed.

Lemma remote_access_polling_witness :
  let w := put "application_resource" (VResource Sample.resource) Sample.world in
  bag w !! "ui" = Some VUi ∧
  halted_with (Errorf "failed to get SSH access credentials: %v"
                 [arg_err (remote_error "unavailable")])
    [GetApplicationResourceAccess "res-1"; GetApplicationResourceAccess "res-1"] w
    (Legacy.StepSetupSSH_Run
       [Ok None; Err (remote_error "unavailable"); Ok None] w).
Proof.
  intros w. split; [reflexivity|].
  destruct (remote_access_polling w
              (NewAPIClient "https://fish.example:8001/grpc" "packer" "secret")
              Sample.resource ∅)
    as (_ & _ & _ & Herror & _); try reflexivity.
  apply (Herror 1%nat (remote_error "unavailable") [Ok None]).
  vm_compute. discriminate.
Defined.

(** C3 as stated fails for the step on the RPC client.  Answered without
    access data it does not go on polling: it continues at once, after its
    one request, with the host and the port of the communicator settings.
    The polling revision asks again on the next tick and, when the deadline
    comes first, halts. *)
Lemma remote_access_without_polling :
  let w := put "application_resource" (VResource Sample.resource) Sample.world in
  (∃ w', StepSetupSSH_Run (Ok None) w = Some (ActionContinue, w') ∧
     calls w' = [GetApplicationResourceAccess "res-1"] ∧
     bag w' !! "ssh_host" = Some (VString "bastion.example") ∧
     bag w' !! "ssh_port" = Some (VInt 2200) ∧
     bag w' !! "error" = None) ∧
  halted_with (Errorf "SSH access availability timeout" [])
    [GetApplicationResourceAccess "res-1"; GetApplicationResourceAccess "res-1"] w
    (Legacy.StepSetupSSH_Run [Ok None; Ok None] w).
Proof.
  intros w. split.
  - eexists. split; [vm_compute; reflexivity|].
    cbn [calls bag]. repeat split; vm_compute; reflexivity.
  - eexists. split; [vm_compute; reflexivity|].
    cbn [calls bag]. split; reflexivity.
Qed.
